(** * Emergent civilisation simulator: kernel, command shell and checkpoints

    A shallow embedding of the simulation kernel ([src/Kernel.cpp]), of the
    [run] command of the shell ([main_kernel.cpp]) and of the checkpoint
    reader and writer ([core/src/utils/Serialization.cpp]), with the
    properties the specification states about them.

    Conventions.
    - A C++ [double] is a real number of [R]; rounding, NaN and infinities
      are outside the model.
    - A [std::uint32_t] is a [Z] (or a [nat] where it is a container index),
      and its wrap-around is written out with [mod 2^32].
    - [std::vector] is [list], read with [!!] and written with [<[i:=v]>];
      an access outside the vector, undefined in C++, makes the modelled
      function end in [None] or in the outcome [Undefined].
    - What a program prints to the console is not modelled. *)

From Stdlib Require Import Reals Lra Lia ZArith Permutation.
From stdpp Require Import base option list gmap strings pretty.
From coqutil Require Import Byte Word.LittleEndianList.

(** ** Outcomes of a C++ call *)

(** A call returns, lets an exception escape, runs into undefined
    behaviour (an access outside a vector, a division by zero), or is still
    inside a loop without bound when the fuel given to the model is used up. *)
Inductive Outcome (A : Type) : Type :=
| Returns (a : A)
| Throws
| Undefined
| Unfinished.

Arguments Returns {A} a.
Arguments Throws {A}.
Arguments Undefined {A}.
Arguments Unfinished {A}.

#[global] Instance Outcome_ret : MRet Outcome := λ A a, Returns a.

#[global] Instance Outcome_bind : MBind Outcome := λ A B f m,
  match m with
  | Returns a => f a
  | Throws => Throws
  | Undefined => Undefined
  | Unfinished => Unfinished
  end.

(** A loop over the elements of [l] whose body may fail. *)
Fixpoint foldM {A B : Type} (f : A → B → Outcome A) (a : A) (l : list B)
    : Outcome A :=
  match l with
  | [] => Returns a
  | b :: rest => a' ← f a b; foldM f a' rest
  end.

(** Unsigned 32- and 64-bit wrap-around. *)
Definition u32 (z : Z) : Z := (z mod 2 ^ 32)%Z.
Definition u64 (z : Z) : Z := (z mod 2 ^ 64)%Z.

(** ** Four-component belief vectors, [std::array<double, 4>] *)

Module Vec.

Local Open Scope R_scope.

Record Vec4 : Type := mkVec4 { c0 : R; c1 : R; c2 : R; c3 : R }.

Definition zero : Vec4 := mkVec4 0 0 0 0.

(** [v[k]] for [k] in 0..3. *)
Definition vnth (v : Vec4) (k : nat) : R :=
  match k with
  | O => c0 v
  | 1%nat => c1 v
  | 2%nat => c2 v
  | _ => c3 v
  end.

(** [v[k] = r] for [k] in 0..3. *)
Definition vset (v : Vec4) (k : nat) (r : R) : Vec4 :=
  match k with
  | O => mkVec4 r (c1 v) (c2 v) (c3 v)
  | 1%nat => mkVec4 (c0 v) r (c2 v) (c3 v)
  | 2%nat => mkVec4 (c0 v) (c1 v) r (c3 v)
  | _ => mkVec4 (c0 v) (c1 v) (c2 v) r
  end.

(** The index range of [for (int k = 0; k < 4; ++k)]. *)
Definition dims : list nat := [0; 1; 2; 3]%nat.

End Vec.

Export Vec.

(** ** The kernel: [src/Kernel.cpp] *)

Module Kernel.

Local Open Scope R_scope.

(** The agent record.  [Kernel.h], which declares it, is not among the
    sources; the fields are those [Kernel.cpp] reads or writes. *)
Record Agent : Type := mkAgent {
  id : nat;
  region : Z;
  primaryLang : Z;
  fluency : R;
  openness : R;
  conformity : R;
  assertiveness : R;
  sociality : R;
  x : Vec4;
  B : Vec4;
  m_comm : R;
  m_susceptibility : R;
  m_mobility : R;
  neighbors : list nat
}.

(** The configuration fields [Kernel.cpp] reads. *)
Record KernelConfig : Type := mkConfig {
  population : Z;
  regions : Z;
  avgConnections : Z;
  rewireProb : R;
  stepSize : R;
  simFloor : R;
  seed : Z
}.

(** [std::min] and [std::max] on doubles, as the library defines them:
    [min(a, b)] is [b] when [b < a] and [a] otherwise, [max(a, b)] is [b]
    when [a < b] and [a] otherwise. *)
Definition std_min (a b : R) : R := if Rlt_dec b a then b else a.
Definition std_max (a b : R) : R := if Rlt_dec a b then b else a.

(** [std::clamp(v, lo, hi)]. *)
Definition std_clamp (v lo hi : R) : R :=
  if Rlt_dec v lo then lo else if Rlt_dec hi v then hi else v.

Definition languageQuality (i j : Agent) : R :=
  if (primaryLang i =? primaryLang j)%Z
  then std_min (fluency i) (fluency j)
  else 0.25 * std_min (fluency i) (fluency j).

(** The three running sums of the loop in [similarityGate]:
    [(dot, ni, nj)] after the components listed in [ks]. *)
Definition gateSums (bi bj : Vec4) (ks : list nat) : R * R * R :=
  foldl (λ '(dot, ni, nj) k,
           (dot + vnth bi k * vnth bj k,
            ni + vnth bi k * vnth bi k,
            nj + vnth bj k * vnth bj k))
        (0, 0, 0) ks.

Definition similarityGate (cfg : KernelConfig) (i j : Agent) : R :=
  let '(dot, ni, nj) := gateSums (B i) (B j) dims in
  let sim :=
    if Rlt_dec 0 ni then
      if Rlt_dec 0 nj then dot / (sqrt ni * sqrt nj) else 0
    else 0 in
  let sim := 0.5 * (sim + 1.0) in
  std_max sim (simFloor cfg).

Section Beliefs.

(** [fastTanh] is declared in [Kernel.h], which is not among the sources:
    the belief update is stated for any function in its place. *)
Variable fastTanh : R → R.

Variable cfg : KernelConfig.

(** The body of the loop over [ai.neighbors]: the accumulator [acc] after
    neighbour [aj] has been visited. *)
Definition accumulate (ai aj : Agent) (acc : Vec4) : Vec4 :=
  let s := similarityGate cfg ai aj in
  let lq := languageQuality ai aj in
  let comm := 0.5 * (m_comm ai + m_comm aj) in
  let weight := stepSize cfg * s * lq * comm * m_susceptibility ai in
  foldl (λ acc k,
           let diff := vnth (B aj) k - vnth (B ai) k in
           vset acc k (vnth acc k + weight * fastTanh diff))
        acc dims.

(** The loop over [ai.neighbors], reading [agents_[jid]] for each id. *)
Fixpoint neighborLoop (agents : list Agent) (ai : Agent)
    (jids : list nat) (acc : Vec4) : option Vec4 :=
  match jids with
  | [] => Some acc
  | jid :: rest =>
      match agents !! jid with
      | Some aj => neighborLoop agents ai rest (accumulate ai aj acc)
      | None => None
      end
  end.

(** The value stored in [dx[i]]. *)
Definition agentDelta (agents : list Agent) (ai : Agent) : option Vec4 :=
  neighborLoop agents ai (neighbors ai) zero.

(** First pass of [updateBeliefs], visiting the indices in [order]; the
    source visits [0, 1, ..., size-1]. *)
Fixpoint computeDeltas (agents : list Agent) (order : list nat)
    (dx : list Vec4) : option (list Vec4) :=
  match order with
  | [] => Some dx
  | i :: rest =>
      match agents !! i with
      | Some ai =>
          match agentDelta agents ai with
          | Some acc => computeDeltas agents rest (<[i := acc]> dx)
          | None => None
          end
      | None => None
      end
  end.

(** The body of the apply loop for one agent:
    [x[k] += d[k]; B[k] = fastTanh(x[k])] for [k] from 0 to 3. *)
Definition applyDelta (a : Agent) (d : Vec4) : Agent :=
  foldl (λ a k,
           let xk := vnth (x a) k + vnth d k in
           mkAgent (id a) (region a) (primaryLang a) (fluency a)
                   (openness a) (conformity a) (assertiveness a)
                   (sociality a) (vset (x a) k xk)
                   (vset (B a) k (fastTanh xk))
                   (m_comm a) (m_susceptibility a) (m_mobility a)
                   (neighbors a))
        a dims.

(** Second pass of [updateBeliefs], visiting the indices in [order]. *)
Fixpoint applyDeltas (dx : list Vec4) (order : list nat)
    (agents : list Agent) : option (list Agent) :=
  match order with
  | [] => Some agents
  | i :: rest =>
      match agents !! i, dx !! i with
      | Some a, Some d => applyDeltas dx rest (<[i := applyDelta a d]> agents)
      | _, _ => None
      end
  end.

(** [updateBeliefs] with the two loops run over the given index orders. *)
Definition updateBeliefsIn (order1 order2 : list nat)
    (agents : list Agent) : option (list Agent) :=
  match computeDeltas agents order1 (replicate (length agents) zero) with
  | Some dx => applyDeltas dx order2 agents
  | None => None
  end.

(** [Kernel::updateBeliefs]: both loops run [i] from 0 to [size - 1]. *)
Definition updateBeliefs (agents : list Agent) : option (list Agent) :=
  let idx := seq 0 (length agents) in
  updateBeliefsIn idx idx agents.

End Beliefs.

Section Simulation.

Variable fastTanh : R → R.

(** The random engine [rng_] and the distributions of [<random>].  Their
    algorithms are the C++ library's, not the repository's: the model takes
    the state of the engine (together with what the distribution objects
    of the running function cache) as a type [RngState], and every draw as
    a function of that state which returns the value drawn and the state
    after the draw. *)
Variable RngState : Type.
Variable rng_seed : Z → RngState.
Variable normal_distribution : R → R → RngState → R * RngState.
Variable uniform_real_distribution : R → R → RngState → R * RngState.
Variable uniform_int_distribution : Z → Z → RngState → Z * RngState.

(** The members of [Kernel] that [Kernel.cpp] uses.  [generation_] is
    taken as a 64-bit counter, the width the checkpoint header gives it. *)
Record State : Type := mkState {
  cfg_ : KernelConfig;
  generation_ : Z;
  rng_ : RngState;
  agents_ : list Agent;
  regionIndex_ : list (list nat)
}.

(** [for k: a.x[k] = xDist(rng_); a.B[k] = fastTanh(a.x[k])]. *)
Definition drawBeliefs (rng : RngState) : Vec4 * Vec4 * RngState :=
  foldl (λ '(xv, bv, rng) k,
           let '(v, rng) := normal_distribution 0.0 0.75 rng in
           (vset xv k v, vset bv k (fastTanh v), rng))
        (zero, zero, rng) dims.

(** The body of the loop of [initAgents] for index [i]. *)
Definition initAgent (cfg : KernelConfig) (i : nat)
    (st : list Agent * list (list nat) * RngState)
    : Outcome (list Agent * list (list nat) * RngState) :=
  let '(agents, regionIndex, rng) := st in
  let '(a_region, rng) :=
    uniform_int_distribution 0 (u32 (regions cfg - 1)) rng in
  let '(a_lang, rng) := uniform_int_distribution 0 3 rng in
  let '(u, rng) := uniform_real_distribution 0.0 1.0 rng in
  let a_fluency := std_clamp (0.7 + 0.3 * (u - 0.5)) 0.3 1.0 in
  let '(t, rng) := normal_distribution 0.5 0.15 rng in
  let a_openness := std_clamp t 0.0 1.0 in
  let '(t, rng) := normal_distribution 0.5 0.15 rng in
  let a_conformity := std_clamp t 0.0 1.0 in
  let '(t, rng) := normal_distribution 0.5 0.15 rng in
  let a_assertiveness := std_clamp t 0.0 1.0 in
  let '(t, rng) := normal_distribution 0.5 0.15 rng in
  let a_sociality := std_clamp t 0.0 1.0 in
  let '(a_x, a_B, rng) := drawBeliefs rng in
  let a_m_comm := 1.0 in
  let a_m_susceptibility :=
    std_clamp (0.7 + 0.6 * (a_openness - 0.5)) 0.4 1.2 in
  let a_m_mobility := 0.8 + 0.4 * a_sociality in
  let a := mkAgent i a_region a_lang a_fluency a_openness a_conformity
                   a_assertiveness a_sociality a_x a_B a_m_comm
                   a_m_susceptibility a_m_mobility [] in
  match regionIndex !! Z.to_nat a_region with
  | Some ids =>
      Returns (agents ++ [a],
               <[Z.to_nat a_region := ids ++ [i]]> regionIndex, rng)
  | None => Undefined
  end.

(** [Kernel::initAgents]: the agent table, the region index and the engine
    state it leaves. *)
Definition initAgents (cfg : KernelConfig) (rng : RngState)
    : Outcome (list Agent * list (list nat) * RngState) :=
  foldM (λ st i, initAgent cfg i st)
        ([], replicate (Z.to_nat (regions cfg)) [], rng)
        (seq 0 (Z.to_nat (population cfg))).

Definition set_neighbors (a : Agent) (ns : list nat) : Agent :=
  mkAgent (id a) (region a) (primaryLang a) (fluency a) (openness a)
          (conformity a) (assertiveness a) (sociality a) (x a) (B a)
          (m_comm a) (m_susceptibility a) (m_mobility a) ns.

(** [agents_[i].neighbors.push_back(j)]. *)
Definition pushNeighbor (agents : list Agent) (i j : nat)
    : Outcome (list Agent) :=
  match agents !! i with
  | Some a => Returns (<[i := set_neighbors a (neighbors a ++ [j])]> agents)
  | None => Undefined
  end.

(** [v.erase(std::remove(v.begin(), v.end(), j), v.end())] on
    [v = agents_[i].neighbors]. *)
Definition eraseNeighbor (agents : list Agent) (i j : nat)
    : Outcome (list Agent) :=
  match agents !! i with
  | Some a =>
      Returns (<[i := set_neighbors a (filter (λ n, n ≠ j) (neighbors a))]>
                 agents)
  | None => Undefined
  end.

(** [(i + d) % N] in 32-bit unsigned arithmetic. *)
Definition ringTarget (N : Z) (i d : nat) : nat :=
  Z.to_nat (u32 (Z.of_nat i + Z.of_nat d) mod N).

(** The body of the ring-lattice loops for [i] and [d]. *)
Definition latticeEdge (N : Z) (i d : nat) (agents : list Agent)
    : Outcome (list Agent) :=
  let j := ringTarget N i d in
  agents ← pushNeighbor agents i j;
  pushNeighbor agents j i.

Definition ringLattice (N : Z) (halfK : nat) (agents : list Agent)
    : Outcome (list Agent) :=
  foldM (λ agents i,
           foldM (λ agents d, latticeEdge N i d agents) agents (seq 1 halfK))
        agents (seq 0 (Z.to_nat N)).

(** [do { newJ = nodeDist(rng_); } while (newJ == i || current.count(newJ))],
    with at most [fuel] draws. *)
Fixpoint pickTarget (fuel : nat) (N : Z) (i : nat) (current : gset nat)
    (rng : RngState) : Outcome (nat * RngState) :=
  match fuel with
  | O => Unfinished
  | S fuel' =>
      let '(z, rng') := uniform_int_distribution 0 (u32 (N - 1)) rng in
      let newJ := Z.to_nat z in
      if decide (newJ = i ∨ newJ ∈ current)
      then pickTarget fuel' N i current rng'
      else Returns (newJ, rng')
  end.

(** The body of the inner rewiring loop for [i] and [d]. *)
Definition rewireEdge (fuel : nat) (cfg : KernelConfig) (i d : nat)
    (st : list Agent * RngState * gset nat)
    : Outcome (list Agent * RngState * gset nat) :=
  let '(agents, rng, current) := st in
  let '(r, rng) := uniform_real_distribution 0.0 1.0 rng in
  if Rlt_dec r (rewireProb cfg) then
    let oldJ := ringTarget (population cfg) i d in
    agents ← eraseNeighbor agents i oldJ;
    agents ← eraseNeighbor agents oldJ i;
    let current := current ∖ {[oldJ]} in
    '(newJ, rng) ← pickTarget fuel (population cfg) i current rng;
    agents ← pushNeighbor agents i newJ;
    agents ← pushNeighbor agents newJ i;
    Returns (agents, rng, {[newJ]} ∪ current)
  else Returns (agents, rng, current).

(** The body of the outer rewiring loop for [i]. *)
Definition rewireNode (fuel : nat) (cfg : KernelConfig) (halfK : nat)
    (i : nat) (st : list Agent * RngState) : Outcome (list Agent * RngState) :=
  let '(agents, rng) := st in
  match agents !! i with
  | Some ai =>
      let current : gset nat := list_to_set (neighbors ai) in
      '(agents, rng, _) ←
        foldM (λ st d, rewireEdge fuel cfg i d st)
              (agents, rng, current) (seq 1 halfK);
      Returns (agents, rng)
  | None => Undefined
  end.

Definition rewire (fuel : nat) (cfg : KernelConfig) (halfK : nat)
    (st : list Agent * RngState) : Outcome (list Agent * RngState) :=
  foldM (λ st i, rewireNode fuel cfg halfK i st) st
        (seq 0 (Z.to_nat (population cfg))).

(** The last loop of [buildSmallWorld] on one list: ids other than [self]
    are kept at their first occurrence. *)
Definition cleanNeighbors (self : nat) (ns : list nat) : list nat :=
  (foldl (λ '(unique, cleaned) nid,
            if decide (nid ≠ self ∧ nid ∉ unique)
            then ({[nid]} ∪ unique, cleaned ++ [nid])
            else (unique, cleaned))
         ((∅ : gset nat), []) ns).2.

Definition dedupe (agents : list Agent) : list Agent :=
  (λ a, set_neighbors a (cleanNeighbors (id a) (neighbors a))) <$> agents.

(** [Kernel::buildSmallWorld]. *)
Definition buildSmallWorld (fuel : nat) (cfg : KernelConfig)
    (st : list Agent * RngState) : Outcome (list Agent * RngState) :=
  let '(agents, rng) := st in
  let N := population cfg in
  let K := avgConnections cfg in
  let K := if Z.odd K then u32 (K + 1) else K in
  let halfK := Z.to_nat (K / 2) in
  agents ← ringLattice N halfK agents;
  '(agents, rng) ← rewire fuel cfg halfK (agents, rng);
  Returns (dedupe agents, rng).

(** [Kernel::reset], and with it the constructor, which seeds the engine
    with [cfg.seed] and calls [reset(cfg)]. *)
Definition reset (fuel : nat) (cfg : KernelConfig) : Outcome State :=
  let rng := rng_seed (seed cfg) in
  '(agents, regionIndex, rng) ← initAgents cfg rng;
  '(agents, rng) ← buildSmallWorld fuel cfg (agents, rng);
  Returns (mkState cfg 0 rng agents regionIndex).

(** [Kernel::step]. *)
Definition step (k : State) : Outcome State :=
  match updateBeliefs fastTanh (cfg_ k) (agents_ k) with
  | Some agents =>
      Returns (mkState (cfg_ k) (u64 (generation_ k + 1)) (rng_ k) agents
                       (regionIndex_ k))
  | None => Undefined
  end.

(** [Kernel::stepN]: [n] calls of [step], none when [n] is not positive. *)
Fixpoint stepLoop (n : nat) (k : State) : Outcome State :=
  match n with
  | O => Returns k
  | S n' => k' ← step k; stepLoop n' k'
  end.

Definition stepN (n : Z) (k : State) : Outcome State :=
  stepLoop (Z.to_nat n) k.

End Simulation.

Arguments mkState {RngState} _ _ _ _ _.
Arguments cfg_ {RngState} _.
Arguments generation_ {RngState} _.
Arguments rng_ {RngState} _.
Arguments agents_ {RngState} _.
Arguments regionIndex_ {RngState} _.

(** The fields of [Kernel::Metrics] that [computeMetrics] writes. *)
Record Metrics : Type := mkMetrics {
  polarizationMean : R;
  polarizationStd : R;
  avgOpenness : R;
  avgConformity : R
}.

Section Measuring.

Variable RngState : Type.

(** A [Metrics] as the declaration [Metrics m;] leaves it ([Kernel.h] is
    not among the sources). *)
Variable defaultMetrics : Metrics.

(** [static_cast<int>] of a size. *)
Definition to_int (z : Z) : Z := ((z + 2 ^ 31) mod 2 ^ 32 - 2 ^ 31)%Z.

(** [for k: c[k] += agents_[id].B[k]]. *)
Definition addBeliefs (agents : list Agent) (c : Vec4) (id : nat)
    : Outcome Vec4 :=
  match agents !! id with
  | Some a => Returns (foldl (λ c k, vset c k (vnth c k + vnth (B a) k)) c dims)
  | None => Undefined
  end.

(** The body of the first loop of [computeMetrics] for region [r]: what
    is stored in [centroids[r]] and in [counts[r]]. *)
Definition regionCentroid (agents : list Agent) (regionIndex : list (list nat))
    (r : nat) : Outcome (Vec4 * Z) :=
  match regionIndex !! r with
  | Some ids =>
      c ← foldM (addBeliefs agents) zero ids;
      let n := to_int (Z.of_nat (length ids)) in
      let c :=
        if (0 <? n)%Z
        then foldl (λ c k, vset c k (vnth c k / IZR n)) c dims
        else c in
      Returns (c, n)
  | None => Undefined
  end.

(** The first loop: the two vectors, filled from index 0 to
    [regions - 1], as one list of pairs. *)
Definition centroids (k : State RngState) : Outcome (list (Vec4 * Z)) :=
  foldM (λ filled r,
           cn ← regionCentroid (agents_ k) (regionIndex_ k) r;
           Returns (filled ++ [cn]))
        [] (seq 0 (Z.to_nat (regions (cfg_ k)))).

(** [std::sqrt(d)] after [for k: dd = ci[k] - cj[k]; d += dd * dd]. *)
Definition centroidDistance (ci cj : Vec4) : R :=
  sqrt (foldl (λ d k, let dd := vnth ci k - vnth cj k in d + dd * dd) 0 dims).

(** The inner loop of the second pass, over the regions after [i]. *)
Definition distancesFrom (ci : Vec4) (later : list (Vec4 * Z)) : list R :=
  foldl (λ dists '(cj, nj),
           if (nj =? 0)%Z then dists else dists ++ [centroidDistance ci cj])
        [] later.

(** The second pass: [dists] after the loops over [i < j], regions without
    agents skipped. *)
Fixpoint pairwiseDistances (cs : list (Vec4 * Z)) : list R :=
  match cs with
  | [] => []
  | (ci, ni) :: later =>
      (if (ni =? 0)%Z then [] else distancesFrom ci later)
      ++ pairwiseDistances later
  end.

(** [Kernel::computeMetrics].  The averages are divided by
    [agents_.size()]; with no agent that is a division by zero. *)
Definition computeMetrics (k : State RngState) : Outcome Metrics :=
  cs ← centroids k;
  let dists := pairwiseDistances cs in
  let m := defaultMetrics in
  let '(mean, std) :=
    match dists with
    | [] => (polarizationMean m, polarizationStd m)
    | _ =>
        let mean := foldl Rplus 0.0 dists / INR (length dists) in
        let sq := foldl (λ sq v, sq + (v - mean) * (v - mean)) 0.0 dists in
        (mean, sqrt (sq / INR (length dists)))
    end in
  let sumOpenness := foldl (λ s a, s + openness a) 0.0 (agents_ k) in
  let sumConformity := foldl (λ s a, s + conformity a) 0.0 (agents_ k) in
  match agents_ k with
  | [] => Undefined
  | _ =>
      Returns (mkMetrics mean std
                 (sumOpenness / INR (length (agents_ k)))
                 (sumConformity / INR (length (agents_ k))))
  end.

End Measuring.

End Kernel.

(** ** The [run] command of the shell: [main_kernel.cpp] *)

Module Cli.

Import Kernel.

(** The line feed that ends a row. *)
Definition newline : string := String (Ascii.ascii_of_nat 10) EmptyString.

(** A [std::ofstream]: whether it could be opened, and the text written to
    it so far. *)
Record ofstream : Type := mkStream { is_open : bool; written : string }.

(** [out << text]: nothing is written to a stream that is not open. *)
Definition put (out : ofstream) (text : string) : ofstream :=
  if is_open out then mkStream true (written out +:+ text) else out.

(** The files of the working directory, by path. *)
Abbreviation Files := (gmap string string).

(** [metricsFile.close()]: the file at [path] holds what was written. *)
Definition close (path : string) (out : ofstream) (files : Files) : Files :=
  if is_open out then <[path := written out]> files else files.

Definition metricsPath : string := "data/metrics.csv".

(** The two literals the [run] branch writes before the loop. *)
Definition csvHeader : string :=
  "generation,polarization_mean,polarization_std,"
  +:+ "avg_openness,avg_conformity" +:+ newline.

Section Shell.

Variable fastTanh : R → R.
Variable RngState : Type.

(** [logMetrics] is declared in [KernelSnapshot.h], which is not among the
    sources: the text it appends to the stream for a kernel is a parameter. *)
Variable logMetrics : State RngState → string.

(** Whether [std::ofstream(path)] finds the file open afterwards. *)
Variable writable : string → bool.

(** The body of [for (int t = 0; t < T; ++t)].  The progress line goes to
    the error stream, which is not modelled; [t % logEvery] with
    [logEvery == 0] is undefined. *)
Definition runTick (logEvery : Z) (st : State RngState * ofstream) (t : nat)
    : Outcome (State RngState * ofstream) :=
  let '(k, out) := st in
  k ← step fastTanh RngState k;
  if (logEvery =? 0)%Z then Undefined
  else if (Z.rem (Z.of_nat t) logEvery =? 0)%Z
       then Returns (k, put out (logMetrics k))
       else Returns (k, out).

(** The branch [cmd == "run"] once [T] and [logEvery] have been read:
    the kernel and the files it leaves. *)
Definition run (T logEvery : Z) (k : State RngState) (files : Files)
    : Outcome (State RngState * Files) :=
  let metricsFile := mkStream (writable metricsPath) "" in
  let metricsFile := put metricsFile csvHeader in
  '(k, metricsFile) ←
    foldM (runTick logEvery) (k, metricsFile) (seq 0 (Z.to_nat T));
  Returns (k, close metricsPath metricsFile files).

(** The branch [cmd == "step"] once [n] has been read: a count below 1
    is replaced by 1, then [for (int i = 0; i < n; ++i) kernel.step()].
    The snapshot it prints afterwards is not modelled. *)
Definition stepCommand (n : Z) (k : State RngState)
    : Outcome (State RngState) :=
  let n := if (n <? 1)%Z then 1%Z else n in
  foldM (λ k _, step fastTanh RngState k) k (seq 0 (Z.to_nat n)).

End Shell.

End Cli.

(** ** Checkpoints: [core/src/utils/Serialization.cpp] *)

Module Serialization.

Local Open Scope Z_scope.

Abbreviation byte := Init.Byte.byte.

Definition CHECKPOINT_MAGIC : Z := 0x45435356.
Definition CHECKPOINT_VERSION : Z := 1.

Record CheckpointHeader : Type := mkHeader {
  magic : Z;
  version : Z;
  generation : Z;
  num_agents : Z;
  num_regions : Z;
  seed : Z;
  timestamp : Z
}.

(** A header as its default member initialisers leave it. *)
Definition defaultHeader : CheckpointHeader :=
  mkHeader CHECKPOINT_MAGIC CHECKPOINT_VERSION 0 0 0 0 0.

(** The 40 bytes of a header object, little-endian: the fields lie at the
    offsets 0, 4, 8, 16, 20, 24 and 32, without padding. *)
Definition headerBytes (h : CheckpointHeader) : list byte :=
  le_split 4 (magic h) ++ le_split 4 (version h)
  ++ le_split 8 (generation h) ++ le_split 4 (num_agents h)
  ++ le_split 4 (num_regions h) ++ le_split 8 (seed h)
  ++ le_split 8 (timestamp h).

(** The value of the [len] bytes at offset [off]. *)
Definition field (off len : nat) (bs : list byte) : Z :=
  le_combine (take len (drop off bs)).

Definition headerOfBytes (bs : list byte) : CheckpointHeader :=
  mkHeader (field 0 4 bs) (field 4 4 bs) (field 8 8 bs) (field 16 4 bs)
           (field 20 4 bs) (field 24 8 bs) (field 32 8 bs).

(** The agent record as the checkpoint sees it, in the order [writeAgent]
    walks it.  Every scalar is the unsigned little-endian value of the
    bytes of the field (for a [double], its bit pattern). *)
Record Agent : Type := mkAgent {
  id : Z;
  region : Z;
  alive : Z;
  age : Z;
  female : Z;
  parent_a : Z;
  parent_b : Z;
  lineage_id : Z;
  primaryLang : Z;
  dialect : Z;
  fluency : Z;
  openness : Z;
  conformity : Z;
  assertiveness : Z;
  sociality : Z;
  x : list Z;
  B : list Z;
  B_norm_sq : Z;
  m_comm : Z;
  m_susceptibility : Z;
  m_mobility : Z;
  neighbors : list Z
}.

(** Modelled from the spec: [kernel/Kernel.h], which declares [Agent], is
    not among the sources.  The sizes of the fields follow section 3 and
    STATUS.md: 32-bit [id], [region], [lineage_id] and parents, one byte
    for [alive], [female], [primaryLang] (0..3) and [dialect] (0..255),
    [double] for the rest; [age], a number of years, is taken as a 32-bit
    [int], the type [EventLog::logDeath] receives it in. *)
Definition sz_u32 : nat := 4.
Definition sz_bool : nat := 1.
Definition sz_u8 : nat := 1.
Definition sz_int : nat := 4.
Definition sz_double : nat := 8.
Definition kDims : nat := 4.

(** One region's record of the economy, with the fields [saveCheckpoint]
    writes. *)
Record RegionalEconomy : Type := mkRegion {
  development : Z;
  welfare : Z;
  inequality : Z;
  hardship : Z;
  efficiency : Z;
  system_stability : Z;
  economic_system : list byte;
  production : list Z;
  prices : list Z
}.

(** One agent's record of the economy. *)
Record AgentEconomy : Type := mkAgentEconomy {
  wealth : Z;
  income : Z;
  productivity : Z;
  sector : Z;
  agent_hardship : Z
}.

(** Modelled from the spec: [modules/Economy.h] is not among the sources.
    There are five goods (section 3), and [sector], one of 0..4, is taken
    as a 32-bit [int]. *)
Definition kGoods : nat := 5.
Definition sz_sector : nat := 4.

(** What [saveCheckpoint] asks of a [Kernel] through its [const]
    accessors.  The class itself, with everything else it holds, is the
    type [K]. *)
Class KernelView (K : Type) : Type := {
  generation_of : K → Z;
  agents_of : K → list Agent;
  regionIndex_of : K → list (list Z);
  getRegion : K → Z → RegionalEconomy;
  getAgentEconomy : K → Z → AgentEconomy
}.

(** *** Writing *)

(** [writeBinary] of a scalar of [n] bytes. *)
Definition writeBinary (n : nat) (v : Z) : list byte := le_split n v.

(** [writeBinaryArray] of a [std::array] of [count] elements. *)
Definition writeBinaryArray (n count : nat) (vs : list Z) : list byte :=
  concat (le_split n <$> take count (vs ++ replicate count 0)).

(** [writeBinaryVector]: the 32-bit size, then that many elements. *)
Definition writeBinaryVector (n : nat) (vs : list Z) : list byte :=
  let size := u32 (Z.of_nat (length vs)) in
  writeBinary sz_u32 size ++ concat (le_split n <$> take (Z.to_nat size) vs).

(** [writeBinaryString]: the 32-bit size, then that many characters. *)
Definition writeBinaryString (str : list byte) : list byte :=
  let size := u32 (Z.of_nat (length str)) in
  writeBinary sz_u32 size ++ take (Z.to_nat size) str.

Definition writeAgent (a : Agent) : list byte :=
  writeBinary sz_u32 (id a) ++ writeBinary sz_u32 (region a)
  ++ writeBinary sz_bool (alive a)
  ++ writeBinary sz_int (age a) ++ writeBinary sz_bool (female a)
  ++ writeBinary sz_u32 (parent_a a) ++ writeBinary sz_u32 (parent_b a)
  ++ writeBinary sz_u32 (lineage_id a)
  ++ writeBinary sz_u8 (primaryLang a) ++ writeBinary sz_u8 (dialect a)
  ++ writeBinary sz_double (fluency a)
  ++ writeBinary sz_double (openness a)
  ++ writeBinary sz_double (conformity a)
  ++ writeBinary sz_double (assertiveness a)
  ++ writeBinary sz_double (sociality a)
  ++ writeBinaryArray sz_double kDims (x a)
  ++ writeBinaryArray sz_double kDims (B a)
  ++ writeBinary sz_double (B_norm_sq a)
  ++ writeBinary sz_double (m_comm a)
  ++ writeBinary sz_double (m_susceptibility a)
  ++ writeBinary sz_double (m_mobility a)
  ++ writeBinaryVector sz_u32 (neighbors a).

Definition writeRegion (r : RegionalEconomy) : list byte :=
  writeBinary sz_double (development r) ++ writeBinary sz_double (welfare r)
  ++ writeBinary sz_double (inequality r)
  ++ writeBinary sz_double (hardship r)
  ++ writeBinary sz_double (efficiency r)
  ++ writeBinary sz_double (system_stability r)
  ++ writeBinaryString (economic_system r)
  ++ writeBinaryArray sz_double kGoods (production r)
  ++ writeBinaryArray sz_double kGoods (prices r).

Definition writeAgentEconomy (e : AgentEconomy) : list byte :=
  writeBinary sz_double (wealth e) ++ writeBinary sz_double (income e)
  ++ writeBinary sz_double (productivity e)
  ++ writeBinary sz_sector (sector e)
  ++ writeBinary sz_double (agent_hardship e).

(** The indices [0, 1, ..., n-1] of a loop over a 32-bit counter. *)
Definition upto (n : Z) : list Z := Z.of_nat <$> seq 0 (Z.to_nat n).

(** The files checkpoints are kept in, by path. *)
Abbreviation Files := (gmap string (list byte)).

Section Save.

Context {K : Type} `{KernelView K}.

(** Whether [std::ofstream(filepath, std::ios::binary)] is open. *)
Variable writable : string → bool.

(** The seconds since the epoch that [system_clock::now()] reports. *)
Variable now : Z.

(** The bytes [saveCheckpoint] sends to the stream. *)
Definition checkpointBytes (kernel : K) : list byte :=
  let header :=
    mkHeader CHECKPOINT_MAGIC CHECKPOINT_VERSION (generation_of kernel)
             (u32 (Z.of_nat (length (agents_of kernel))))
             (u32 (Z.of_nat (length (regionIndex_of kernel))))
             0 (u64 now) in
  headerBytes header
  ++ concat (writeAgent <$> agents_of kernel)
  ++ concat (writeBinaryVector sz_u32 <$> regionIndex_of kernel)
  ++ concat ((λ r, writeRegion (getRegion kernel r))
               <$> upto (num_regions header))
  ++ concat ((λ i, writeAgentEconomy (getAgentEconomy kernel i))
               <$> upto (num_agents header)).

(** [saveCheckpoint]: the value returned and the files afterwards. *)
Definition saveCheckpoint (kernel : K) (filepath : string) (files : Files)
    : bool * Files :=
  if writable filepath
  then (true, <[filepath := checkpointBytes kernel]> files)
  else (false, files).

End Save.

(** *** Reading *)

(** A [std::ifstream]: the bytes not yet read, and whether every read so
    far was served in full. *)
Record ifstream : Type := mkIn { unread : list byte; good : bool }.

(** [in.read(p, n)] on an object whose [n] bytes were [old]: the bytes of
    the object afterwards and the stream.  A stream that has failed reads
    nothing; a stream that runs out stores what is left and fails. *)
Definition read (n : nat) (old : list byte) (input : ifstream)
    : list byte * ifstream :=
  if good input then
    let got := take n (unread input) in
    (got ++ drop (length got) old,
     mkIn (drop n (unread input))
          (bool_decide (n ≤ length (unread input))%nat))
  else (old, input).

(** The elements of [count] groups of [n] bytes. *)
Fixpoint unpack (n count : nat) (bs : list byte) : list Z :=
  match count with
  | O => []
  | S count' => le_combine (take n bs) :: unpack n count' (drop n bs)
  end.

(** A step of the reader: it may throw or be undefined, and otherwise
    yields a value and the stream after it. *)
Definition Reader (A : Type) : Type := ifstream → Outcome (A * ifstream).

#[global] Instance Reader_ret : MRet Reader := λ A a input, Returns (a, input).

#[global] Instance Reader_bind : MBind Reader := λ A B f m input,
  match m input with
  | Returns (a, input') => f a input'
  | Throws => Throws
  | Undefined => Undefined
  | Unfinished => Unfinished
  end.

(** [readBinary] into a scalar of [n] bytes that held [old]. *)
Definition readBinary (n : nat) (old : Z) : Reader Z := λ input,
  let '(bs, input') := read n (le_split n old) input in
  Returns (le_combine bs, input').

(** [readBinaryArray] into a [std::array] of [count] elements. *)
Definition readBinaryArray (n count : nat) (old : list Z) : Reader (list Z) :=
  λ input,
  let '(bs, input') := read (count * n) (writeBinaryArray n count old) input in
  Returns (unpack n count bs, input').

Section Load.

Context {K : Type}.

(** Whether a vector of that many elements can be allocated; when it
    cannot, [std::bad_alloc] or [std::length_error] is thrown. *)
Variable can_allocate : Z → bool.

(** An [Agent] as its default constructor leaves it ([Kernel.h] is not
    among the sources). *)
Variable defaultAgent : Agent.

(** [readBinaryVector] into a vector that held [old].  The local [size]
    is not initialised: when the read does not fill it, its value is
    indeterminate and using it is undefined. *)
Definition readBinaryVector (n : nat) (old : list Z) : Reader (list Z) :=
  λ input,
  if good input && bool_decide (sz_u32 ≤ length (unread input))%nat then
    let size := le_combine (take sz_u32 (unread input)) in
    let input := mkIn (drop sz_u32 (unread input)) true in
    if can_allocate size then
      let count := Z.to_nat size in
      let vec := take count (old ++ replicate count 0) in
      if 0 <? size then
        let '(bs, input') :=
          read (count * n) (concat (le_split n <$> vec)) input in
        Returns (unpack n count bs, input')
      else Returns (vec, input)
    else Throws
  else Undefined.

(** [readBinaryString] into a string that held [old]; the characters
    [resize] adds are zero. *)
Definition readBinaryString (old : list byte) : Reader (list byte) :=
  λ input,
  if good input && bool_decide (sz_u32 ≤ length (unread input))%nat then
    let size := le_combine (take sz_u32 (unread input)) in
    let input := mkIn (drop sz_u32 (unread input)) true in
    if can_allocate size then
      let count := Z.to_nat size in
      let str := take count (old ++ replicate count Byte.x00) in
      if 0 <? size then Returns (read count str input)
      else Returns (str, input)
    else Throws
  else Undefined.

(** [readAgent] into an agent that was [a]. *)
Definition readAgent (a : Agent) : Reader Agent :=
  a_id ← readBinary sz_u32 (id a);
  a_region ← readBinary sz_u32 (region a);
  a_alive ← readBinary sz_bool (alive a);
  a_age ← readBinary sz_int (age a);
  a_female ← readBinary sz_bool (female a);
  a_parent_a ← readBinary sz_u32 (parent_a a);
  a_parent_b ← readBinary sz_u32 (parent_b a);
  a_lineage_id ← readBinary sz_u32 (lineage_id a);
  a_primaryLang ← readBinary sz_u8 (primaryLang a);
  a_dialect ← readBinary sz_u8 (dialect a);
  a_fluency ← readBinary sz_double (fluency a);
  a_openness ← readBinary sz_double (openness a);
  a_conformity ← readBinary sz_double (conformity a);
  a_assertiveness ← readBinary sz_double (assertiveness a);
  a_sociality ← readBinary sz_double (sociality a);
  a_x ← readBinaryArray sz_double kDims (x a);
  a_B ← readBinaryArray sz_double kDims (B a);
  a_B_norm_sq ← readBinary sz_double (B_norm_sq a);
  a_m_comm ← readBinary sz_double (m_comm a);
  a_m_susceptibility ← readBinary sz_double (m_susceptibility a);
  a_m_mobility ← readBinary sz_double (m_mobility a);
  a_neighbors ← readBinaryVector sz_u32 (neighbors a);
  mret (mkAgent a_id a_region a_alive a_age a_female a_parent_a a_parent_b
                a_lineage_id a_primaryLang a_dialect a_fluency a_openness
                a_conformity a_assertiveness a_sociality a_x a_B
                a_B_norm_sq a_m_comm a_m_susceptibility a_m_mobility
                a_neighbors).

(** [for (auto& agent : agents) readAgent(in, agent)] over [count]
    default-constructed agents. *)
Fixpoint readAgents (count : nat) : Reader (list Agent) :=
  match count with
  | O => mret []
  | S count' =>
      a ← readAgent defaultAgent;
      rest ← readAgents count';
      mret (a :: rest)
  end.

(** [for (auto& region : regionIndex) readBinaryVector(in, region)] over
    [count] empty vectors. *)
Fixpoint readRegionIndex (count : nat) : Reader (list (list Z)) :=
  match count with
  | O => mret []
  | S count' =>
      r ← readBinaryVector sz_u32 [];
      rest ← readRegionIndex count';
      mret (r :: rest)
  end.

(** [readBinary(in, header)] into a default header. *)
Definition readHeader (input : ifstream) : CheckpointHeader * ifstream :=
  let '(bs, input') := read 40 (headerBytes defaultHeader) input in
  (headerOfBytes bs, input').

(** The part of [loadCheckpoint] after the header has been accepted: the
    two local vectors it fills. *)
Definition readBody (header : CheckpointHeader)
    : Reader (list Agent * list (list Z)) := λ input,
  if can_allocate (num_agents header) then
    (agents ← readAgents (Z.to_nat (num_agents header));
     if can_allocate (num_regions header) then
       regionIndex ← readRegionIndex (Z.to_nat (num_regions header));
       mret (agents, regionIndex)
     else (λ _, Throws)) input
  else Throws.

(** [loadCheckpoint]: the value returned and the kernel afterwards.  An
    exception inside the [try] block is caught and makes the call return
    [false]; what is written to the console is not modelled. *)
Definition loadCheckpoint (kernel : K) (filepath : string) (files : Files)
    : Outcome (bool * K) :=
  match files !! filepath with
  | None => Returns (false, kernel)
  | Some bytes =>
      let '(header, input) := readHeader (mkIn bytes true) in
      if negb (magic header =? CHECKPOINT_MAGIC) then Returns (false, kernel)
      else if negb (version header =? CHECKPOINT_VERSION)
      then Returns (false, kernel)
      else
        match readBody header input with
        | Returns _ => Returns (true, kernel)
        | Throws => Returns (false, kernel)
        | Undefined => Undefined
        | Unfinished => Unfinished
        end
  end.

End Load.

End Serialization.

(** ** The event log: [core/src/utils/EventLog.cpp] *)

(** The standard exceptions the utilities throw; their messages are not
    modelled. *)
Inductive Exception : Type := runtime_error | out_of_range.

(** How a call that changes state ends: normally, or by an exception that
    leaves the state [a] behind. *)
Inductive Completion (A : Type) : Type :=
| Normal (a : A)
| Raised (e : Exception) (a : A).

Arguments Normal {A} a.
Arguments Raised {A} e a.

Module EventLog.

Import Cli.

(** The enumerators [EventLog.cpp] names.  (The header among the sources
    is of an earlier revision and declares the first eight.) *)
Inductive EventType : Type :=
| BIRTH
| DEATH
| TRADE
| MOVEMENT_FORMED
| MOVEMENT_DISBANDED
| IDEOLOGY_SHIFT
| ECONOMIC_CRISIS
| SYSTEM_CHANGE
| MIGRATION
| CULTURAL_CLUSTER_SPLIT
| HARDSHIP_CRISIS
| DEVELOPMENT_MILESTONE.

#[global] Instance EventType_eq_dec : EqDecision EventType.
Proof. solve_decision. Defined.

(** An event.  The unsigned fields are natural numbers of [N]. *)
Record Event : Type := mkEvent {
  tick : N;
  type : EventType;
  agent_id : N;
  region_id : N;
  details : string;
  magnitude : R
}.

(** An open [std::ofstream]: the file it writes and the text sent to it
    so far. *)
Record logstream : Type := mkLogStream { path : string; sent : string }.

(** The members of [EventLog]; [log_file_] is [None] while the stream is
    not open.  The mutex is not modelled: calls run one after the other. *)
Record EventLog : Type := mkLog {
  events_ : list Event;
  log_file_ : option logstream;
  file_initialized_ : bool
}.

(** [EventLog() = default]. *)
Definition fresh : EventLog := mkLog [] None false.

(** The files, by path: for a file a stream has open, what it held when
    the stream was opened or last flushed. *)
Abbreviation Files := (gmap string string).

Definition quote : string := String (Ascii.ascii_of_nat 34) EmptyString.

Definition csvHeader : string :=
  "tick,event_type,agent_id,region_id,magnitude,details" +:+ newline.

Definition eventTypeToString (t : EventType) : string :=
  match t with
  | BIRTH => "BIRTH"
  | DEATH => "DEATH"
  | TRADE => "TRADE"
  | MOVEMENT_FORMED => "MOVEMENT_FORMED"
  | MOVEMENT_DISBANDED => "MOVEMENT_DISBANDED"
  | IDEOLOGY_SHIFT => "IDEOLOGY_SHIFT"
  | ECONOMIC_CRISIS => "ECONOMIC_CRISIS"
  | SYSTEM_CHANGE => "SYSTEM_CHANGE"
  | MIGRATION => "MIGRATION"
  | CULTURAL_CLUSTER_SPLIT => "CULTURAL_CLUSTER_SPLIT"
  | HARDSHIP_CRISIS => "HARDSHIP_CRISIS"
  | DEVELOPMENT_MILESTONE => "DEVELOPMENT_MILESTONE"
  end.

Section Logging.

(** Whether a [std::ofstream] opened on the path is open afterwards. *)
Variable writable : string → bool.

(** The text of a [double] sent after [std::fixed] and
    [std::setprecision(p)]: the library's formatting, a parameter here. *)
Variable fixed : nat → R → string.

(** The row that [logEvent] and [exportCSV] both write for an event. *)
Definition row (e : Event) : string :=
  pretty (tick e) +:+ "," +:+ eventTypeToString (type e) +:+ ","
  +:+ pretty (agent_id e) +:+ "," +:+ pretty (region_id e) +:+ ","
  +:+ fixed 4 (magnitude e) +:+ "," +:+ quote +:+ details e +:+ quote
  +:+ newline.

(** [log_file_ << text]: nothing is sent to a stream that is not open. *)
Definition send (out : option logstream) (text : string) : option logstream :=
  (λ f, mkLogStream (path f) (sent f +:+ text)) <$> out.

(** [log_file_.close()] and [log_file_.flush()] leave in the file all
    that was sent. *)
Definition settle (out : option logstream) (files : Files) : Files :=
  match out with
  | Some f => <[path f := sent f]> files
  | None => files
  end.

(** [EventLog::init]. *)
Definition init (log : EventLog) (filepath : string) (files : Files)
    : Completion (EventLog * Files) :=
  let files := settle (log_file_ log) files in
  if writable filepath then
    Normal (mkLog (events_ log)
                  (send (Some (mkLogStream filepath "")) csvHeader) true,
            <[filepath := ""]> files)
  else
    Raised runtime_error
           (mkLog (events_ log) None (file_initialized_ log), files).

(** [EventLog::logEvent]. *)
Definition logEvent (log : EventLog) (tick : N) (type : EventType)
    (agent_id region_id : N) (details : string) (magnitude : R) : EventLog :=
  let e := mkEvent tick type agent_id region_id details magnitude in
  mkLog (events_ log ++ [e])
        (if file_initialized_ log then send (log_file_ log) (row e)
         else log_file_ log)
        (file_initialized_ log).

Definition logBirth (log : EventLog) (tick agent_id region_id parent_id : N)
    : EventLog :=
  logEvent log tick BIRTH agent_id region_id ("parent=" +:+ pretty parent_id)
           1.0.

Definition logDeath (log : EventLog) (tick agent_id region_id : N) (age : Z)
    : EventLog :=
  logEvent log tick DEATH agent_id region_id ("age=" +:+ pretty age) 1.0.

Definition logTrade (log : EventLog) (tick from_region to_region : N)
    (good_type : Z) (volume price : R) : EventLog :=
  logEvent log tick TRADE 0 from_region
           ("to=" +:+ pretty to_region +:+ ";good=" +:+ pretty good_type
            +:+ ";volume=" +:+ fixed 2 volume
            +:+ ";price=" +:+ fixed 4 price)
           (volume * price).

Definition logMovementFormed (log : EventLog)
    (tick movement_id region_id member_count : N) : EventLog :=
  logEvent log tick MOVEMENT_FORMED 0 region_id
           ("movement_id=" +:+ pretty movement_id
            +:+ ";members=" +:+ pretty member_count)
           (IZR (Z.of_N member_count)).

Definition logSystemChange (log : EventLog) (tick region_id : N)
    (old_system new_system : string) : EventLog :=
  logEvent log tick SYSTEM_CHANGE 0 region_id
           ("from=" +:+ old_system +:+ ";to=" +:+ new_system) 1.0.

Definition logMigration (log : EventLog)
    (tick agent_id from_region to_region : N) : EventLog :=
  logEvent log tick MIGRATION agent_id to_region
           ("from=" +:+ pretty from_region +:+ ";to=" +:+ pretty to_region)
           1.0.

Definition logHardshipCrisis (log : EventLog) (tick region_id : N)
    (hardship_level : R) : EventLog :=
  logEvent log tick HARDSHIP_CRISIS 0 region_id
           ("hardship=" +:+ fixed 3 hardship_level) hardship_level.

Definition logDevelopmentMilestone (log : EventLog) (tick region_id : N)
    (development_level : R) : EventLog :=
  logEvent log tick DEVELOPMENT_MILESTONE 0 region_id
           ("development=" +:+ fixed 2 development_level) development_level.

(** [EventLog::exportCSV]: the stream it opens is closed when it returns. *)
Definition exportCSV (log : EventLog) (filepath : string) (files : Files)
    : Completion Files :=
  if writable filepath then
    Normal (<[filepath :=
                foldl (λ text e, text +:+ row e) csvHeader (events_ log)]>
              files)
  else Raised runtime_error files.

(** [EventLog::flush]. *)
Definition flush (log : EventLog) (files : Files) : Files :=
  settle (log_file_ log) files.

(** [EventLog::clear]. *)
Definition clear (log : EventLog) : EventLog :=
  mkLog [] (log_file_ log) (file_initialized_ log).

Definition size (log : EventLog) : nat := length (events_ log).

Definition getEventsByType (log : EventLog) (t : EventType) : list Event :=
  foldl (λ result e, if decide (type e = t) then result ++ [e] else result)
        [] (events_ log).

Definition getEventsByTickRange (log : EventLog) (start_tick end_tick : N)
    : list Event :=
  foldl (λ result e,
           if (start_tick <=? tick e)%N && (tick e <=? end_tick)%N
           then result ++ [e] else result)
        [] (events_ log).

End Logging.

End EventLog.

(** ** Run-time checks: [validation.h] *)

Module Validation.

Import Kernel.

Local Open Scope R_scope.

(** A [double] with the values [std::isfinite] tells apart. *)
Inductive double : Type :=
| Finite (r : R)
| PlusInfinity
| MinusInfinity
| NaN.

(** [a < b] and [a > b] on doubles: false as soon as one side is NaN. *)
Definition lt (a b : double) : bool :=
  match a, b with
  | Finite x, Finite y => if Rlt_dec x y then true else false
  | MinusInfinity, Finite _ => true
  | MinusInfinity, PlusInfinity => true
  | Finite _, PlusInfinity => true
  | _, _ => false
  end.

Definition gt (a b : double) : bool := lt b a.

(** [a <= b] on doubles. *)
Definition le (a b : double) : bool :=
  match a, b with
  | Finite x, Finite y => if Rle_dec x y then true else false
  | MinusInfinity, Finite _ => true
  | MinusInfinity, MinusInfinity => true
  | MinusInfinity, PlusInfinity => true
  | Finite _, PlusInfinity => true
  | PlusInfinity, PlusInfinity => true
  | _, _ => false
  end.

(** How a check ends: it returns, it throws, or it reads outside the
    array it was given. *)
Inductive Verdict : Type :=
| Passed
| Thrown (e : Exception)
| OutOfBounds.

Definition isFinite (value : double) : bool :=
  match value with
  | Finite _ => true
  | _ => false
  end.

Section Checks.

(** [VALIDATE_ENABLED]: 1 unless [NDEBUG] is defined. *)
Variable VALIDATE_ENABLED : bool.

Definition checkFinite (value : double) : Verdict :=
  if VALIDATE_ENABLED then
    if negb (isFinite value) then Thrown runtime_error else Passed
  else Passed.

Definition checkRange (value min max : double) : Verdict :=
  if VALIDATE_ENABLED then
    if negb (isFinite value) || lt value min || gt value max
    then Thrown runtime_error else Passed
  else Passed.

(** [index] is a [std::uint32_t], [size] a [std::size_t]. *)
Definition checkIndex (index size : N) : Verdict :=
  if VALIDATE_ENABLED then
    if (size <=? index)%N then Thrown out_of_range else Passed
  else Passed.

(** The loop of [checkBeliefs] from index [i] on, over the elements of
    the array that are left. *)
Fixpoint checkBeliefsFrom (beliefs : list double) (count : nat)
    {struct count} : Verdict :=
  match count with
  | O => Passed
  | S count' =>
      match beliefs with
      | [] => OutOfBounds
      | b :: rest =>
          if negb (isFinite b) then Thrown runtime_error
          else if lt b (Finite (-1.0)) || gt b (Finite 1.0)
               then Thrown runtime_error
               else checkBeliefsFrom rest count'
      end
  end.

(** [checkBeliefs] on an array that holds [beliefs]. *)
Definition checkBeliefs (beliefs : list double) (count : nat) : Verdict :=
  if VALIDATE_ENABLED then checkBeliefsFrom beliefs count else Passed.

Definition checkNonNegative (value : double) : Verdict :=
  if VALIDATE_ENABLED then
    if negb (isFinite value) || lt value (Finite 0.0)
    then Thrown runtime_error else Passed
  else Passed.

Definition checkPositive (value : double) : Verdict :=
  if VALIDATE_ENABLED then
    if negb (isFinite value) || le value (Finite 0.0)
    then Thrown runtime_error else Passed
  else Passed.

(** [checkTradeConservation], on finite totals: its arithmetic is that of
    the real numbers.  The default tolerance is 0.01. *)
Definition checkTradeConservation (total_exports total_imports tolerance : R)
    : Verdict :=
  if VALIDATE_ENABLED then
    let imbalance := Rabs (total_exports - total_imports) in
    if Rlt_dec (tolerance * std_max total_exports total_imports) imbalance
    then Thrown runtime_error else Passed
  else Passed.

End Checks.

End Validation.

(** ** The belief update on the GPU: [GpuWorker.cu] *)

Module GpuWorker.

Import Kernel.

Local Open Scope R_scope.

(** The arrays an [AgentDataView] points to, and its [count]. *)
Record AgentDataView : Type := mkView {
  B0 : list R;
  B1 : list R;
  B2 : list R;
  B3 : list R;
  susceptibility : list R;
  fluency : list R;
  neighbor_offsets : list Z;
  neighbor_counts : list Z;
  neighbor_indices : list Z;
  count : Z
}.

(** The lambda [fastTanh] of the kernel. *)
Definition fastTanh (x : R) : R :=
  let x2 := x * x in
  x * (27.0 + x2) / (27.0 + 9.0 * x2).

(** The lambda [clamp] of the kernel. *)
Definition clamp (v : R) : R :=
  if Rlt_dec v (-1.0) then -1.0 else if Rlt_dec 1.0 v then 1.0 else v.

(** [arr[i]] for an [int] index; outside the array it is undefined. *)
Definition at_ {A : Type} (arr : list A) (i : Z) : Outcome A :=
  if (i <? 0)%Z then Undefined
  else match arr !! Z.to_nat i with
       | Some v => Returns v
       | None => Undefined
       end.

Section Thread.

Variable view : AgentDataView.
Variable stepSize simFloor : R.

(** The body of the loop over the neighbours for [j]: the four sums
    afterwards.  (The quotient by [1.0 - simFloor] is a division by zero
    when [simFloor] is 1.) *)
Definition visit (myB : R * R * R * R) (myNormSq mySusc myFluency : R)
    (start : Z) (d : R * R * R * R) (j : Z) : Outcome (R * R * R * R) :=
  let '(myB0, myB1, myB2, myB3) := myB in
  let '(d0, d1, d2, d3) := d in
  nbrId ← at_ (neighbor_indices view) (start + j);
  tB0 ← at_ (B0 view) nbrId;
  tB1 ← at_ (B1 view) nbrId;
  tB2 ← at_ (B2 view) nbrId;
  tB3 ← at_ (B3 view) nbrId;
  let tNormSq := tB0 * tB0 + tB1 * tB1 + tB2 * tB2 + tB3 * tB3 in
  let dot := myB0 * tB0 + myB1 * tB1 + myB2 * tB2 + myB3 * tB3 in
  let normProd := myNormSq * tNormSq in
  let sim := if Rlt_dec 1e-9 normProd then dot / sqrt normProd else 1.0 in
  if Req_dec_T (1.0 - simFloor) 0 then Undefined
  else
    let gate := (sim - simFloor) / (1.0 - simFloor) in
    if Rle_dec gate 0.0 then Returns d
    else
      tFluency ← at_ (fluency view) nbrId;
      let langQ := 0.5 * (myFluency + tFluency) in
      let weight := stepSize * gate * langQ * mySusc in
      Returns (d0 + weight * fastTanh (tB0 - myB0),
               d1 + weight * fastTanh (tB1 - myB1),
               d2 + weight * fastTanh (tB2 - myB2),
               d3 + weight * fastTanh (tB3 - myB3)).

(** [updateBeliefsKernel] as the thread with index [i] runs it, from the
    arrays as that thread reads them: the view with what it has written. *)
Definition updateBeliefsKernel (i : Z) : Outcome AgentDataView :=
  if (count view <=? i)%Z then Returns view
  else
    myB0 ← at_ (B0 view) i;
    myB1 ← at_ (B1 view) i;
    myB2 ← at_ (B2 view) i;
    myB3 ← at_ (B3 view) i;
    mySusc ← at_ (susceptibility view) i;
    myFluency ← at_ (fluency view) i;
    let myNormSq := myB0 * myB0 + myB1 * myB1 + myB2 * myB2 + myB3 * myB3 in
    start ← at_ (neighbor_offsets view) i;
    cnt ← at_ (neighbor_counts view) i;
    '(d0, d1, d2, d3) ←
      foldM (visit (myB0, myB1, myB2, myB3) myNormSq mySusc myFluency start)
            (0.0, 0.0, 0.0, 0.0) (Z.of_nat <$> seq 0 (Z.to_nat cnt));
    Returns (mkView (<[Z.to_nat i := clamp (myB0 + d0)]> (B0 view))
                    (<[Z.to_nat i := clamp (myB1 + d1)]> (B1 view))
                    (<[Z.to_nat i := clamp (myB2 + d2)]> (B2 view))
                    (<[Z.to_nat i := clamp (myB3 + d3)]> (B3 view))
                    (susceptibility view) (fluency view)
                    (neighbor_offsets view) (neighbor_counts view)
                    (neighbor_indices view) (count view)).

End Thread.

Local Open Scope Z_scope.

(** The launch configuration of [launchGpuBeliefUpdate]: 256 threads in
    a block, and [(nAgents + threads - 1) / threads] blocks, computed in
    [std::size_t] and stored in an [int]. *)
Definition threads : Z := 256.

Definition blocks (nAgents : Z) : Z :=
  to_int (u64 (nAgents + threads - 1) / threads).

(** [blockIdx.x * blockDim.x + threadIdx.x], stored in an [int]. *)
Definition threadIndex (blockIdx threadIdx : Z) : Z :=
  to_int (u32 (blockIdx * threads + threadIdx)).

(** The indices of the threads of the launch, block after block. *)
Definition grid (nAgents : Z) : list Z :=
  b ← Z.of_nat <$> seq 0 (Z.to_nat (blocks nAgents));
  t ← Z.of_nat <$> seq 0 (Z.to_nat threads);
  [threadIndex b t].

(** The threads that pass the test [if (i >= view.count) return;]. *)
Definition working (nAgents : Z) : list Z :=
  filter (λ i, i < nAgents) (grid nAgents).

End GpuWorker.

(** ** The pairwise rule as the specification words it *)

Module PairwiseSpec.

Import Kernel.

Local Open Scope R_scope.

Definition dot4 (u v : Vec4) : R :=
  c0 u * c0 v + c1 u * c1 v + c2 u * c2 v + c3 u * c3 v.

Definition norm4 (u : Vec4) : R := sqrt (dot4 u u).

(** [cos(B_i, B_j)].  The quotient is total: when one of the vectors is
    zero the dot product is zero as well and the cosine reads 0. *)
Definition cosine (u v : Vec4) : R := dot4 u v / (norm4 u * norm4 v).

(** [sim = 0.5·(1 + cos(B_i, B_j))], lower-bounded by [sim_floor]. *)
Definition sim (cfg : KernelConfig) (ai aj : Agent) : R :=
  Rmax (0.5 * (1 + cosine (B ai) (B aj))) (simFloor cfg).

(** [lang_q]: the smaller fluency, quartered across languages. *)
Definition lang_q (ai aj : Agent) : R :=
  if decide (primaryLang ai = primaryLang aj)
  then Rmin (fluency ai) (fluency aj)
  else 0.25 * Rmin (fluency ai) (fluency aj).

(** [w = step_size · sim · lang_q · 0.5·(m_comm_i + m_comm_j) · m_susceptibility_i]. *)
Definition w (cfg : KernelConfig) (ai aj : Agent) : R :=
  stepSize cfg * sim cfg ai aj * lang_q ai aj
  * (0.5 * (m_comm ai + m_comm aj)) * m_susceptibility ai.

(** What neighbour [aj] adds to [Δx_i[k]]. *)
Definition contribution (th : R → R) (cfg : KernelConfig)
    (ai aj : Agent) (k : nat) : R :=
  w cfg ai aj * th (vnth (B aj) k - vnth (B ai) k).

(** The sum of a list of reals, from the left as the accumulator runs. *)
Definition total (rs : list R) : R := foldl Rplus 0 rs.

(** [Δx_i]: for every [k], the sum over the neighbours of [ai], looked up
    in the table [pre], of what each adds. *)
Definition delta (th : R → R) (cfg : KernelConfig) (pre : list Agent)
    (ai : Agent) : option Vec4 :=
  ajs ← mapM (λ jid, pre !! jid) (neighbors ai);
  Some (mkVec4 (total ((λ aj, contribution th cfg ai aj 0) <$> ajs))
               (total ((λ aj, contribution th cfg ai aj 1) <$> ajs))
               (total ((λ aj, contribution th cfg ai aj 2) <$> ajs))
               (total ((λ aj, contribution th cfg ai aj 3) <$> ajs))).

End PairwiseSpec.

(** ** The two-phase reference semantics of the belief update *)

Module TwoPhaseSpec.

Import Kernel PairwiseSpec.

Local Open Scope R_scope.

(** The write pass on one agent: [x += Δx], then [B[k] = tanh(x[k])]. *)
Definition move (th : R → R) (a : Agent) (d : Vec4) : Agent :=
  let x' := mkVec4 (c0 (x a) + c0 d) (c1 (x a) + c1 d)
                   (c2 (x a) + c2 d) (c3 (x a) + c3 d) in
  mkAgent (id a) (region a) (primaryLang a) (fluency a) (openness a)
          (conformity a) (assertiveness a) (sociality a) x'
          (mkVec4 (th (c0 x')) (th (c1 x')) (th (c2 x')) (th (c3 x')))
          (m_comm a) (m_susceptibility a) (m_mobility a) (neighbors a).

(** Every agent's delta is computed from the state [pre] as it was before
    the call; each agent is then moved by its own delta. *)
Definition twoPhase (th : R → R) (cfg : KernelConfig)
    (pre : list Agent) : option (list Agent) :=
  mapM (λ ai, move th ai <$> delta th cfg pre ai) pre.

End TwoPhaseSpec.

(** ** The activation function *)

Module TanhSpec.

Import Kernel.

Local Open Scope R_scope.

(** The rational approximation [v·(27 + v²) / (27 + 9·v²)]. *)
Definition rationalTanh (v : R) : R :=
  v * (27 + v * v) / (27 + 9 * (v * v)).

(** Modelled from the spec: [fastTanh] is declared in [Kernel.h], which is
    not among the sources.  The specification gives the rational
    approximation that may replace [std::tanh] and requires the result to
    be clamped to [-1, 1]. *)
Definition fastTanh (v : R) : R := std_clamp (rationalTanh v) (-1) 1.

End TanhSpec.

(** ** The neighbour graph the specification asks for *)

Module GraphSpec.

Import Kernel.

(** The neighbour relation is symmetric, no list holds its owner's id, and
    no list holds an id twice. *)
Definition simple_graph (agents : list Agent) : Prop :=
  (∀ i j ai aj, agents !! i = Some ai → agents !! j = Some aj →
                (j ∈ neighbors ai ↔ i ∈ neighbors aj))
  ∧ (∀ i ai, agents !! i = Some ai →
             (i ∉ neighbors ai) ∧ (id ai ∉ neighbors ai))
  ∧ (∀ ai, ai ∈ agents → NoDup (neighbors ai)).

End GraphSpec.

(** ** The metrics file as the documents describe it *)

Module CsvSpec.

Import Kernel Cli.

(** The header row the specification lists for [run]. *)
Definition specHeader : string :=
  "generation,polarization_mean,polarization_std,avg_openness,"
  +:+ "avg_conformity,welfare,inequality,hardship,trade_volume,population".

(** The header row of [STATUS.md], which is the one the code writes. *)
Definition kernelHeader : string :=
  "generation,polarization_mean,polarization_std,avg_openness,avg_conformity".

(** The text before the first line feed. *)
Fixpoint firstLine (text : string) : string :=
  match text with
  | EmptyString => EmptyString
  | String c rest =>
      if Ascii.eqb c (Ascii.ascii_of_nat 10) then EmptyString
      else String c (firstLine rest)
  end.

Section Rows.

Variable fastTanh : R → R.
Variable RngState : Type.

(** The kernels after 1, 2, ..., [n] steps from [k]. *)
Fixpoint trajectory (n : nat) (k : State RngState)
    : Outcome (list (State RngState)) :=
  match n with
  | O => Returns []
  | S n' =>
      k' ← step fastTanh RngState k;
      rest ← trajectory n' k';
      Returns (k' :: rest)
  end.

(** Of the kernels reached in the ticks [t0], [t0 + 1], ..., those of the
    ticks that [logEvery] divides. *)
Fixpoint logged (logEvery : Z) (t0 : nat) (ks : list (State RngState))
    : list (State RngState) :=
  match ks with
  | [] => []
  | k :: rest =>
      if (Z.rem (Z.of_nat t0) logEvery =? 0)%Z
      then k :: logged logEvery (S t0) rest
      else logged logEvery (S t0) rest
  end.

(** [logMetrics], a parameter of the shell, gives the text of a row. *)
Variable logMetrics : State RngState → string.

(** The text of the rows written for a list of kernels. *)
Definition rowsOf (ks : list (State RngState)) : string :=
  foldr (λ k text, logMetrics k +:+ text) "" ks.

End Rows.

End CsvSpec.

(** ** The checkpoints a kernel can be read back from *)

Module CheckpointSpec.

Import Serialization.

Local Open Scope Z_scope.

(** A value that an object of [n] bytes can hold. *)
Definition fits (n : nat) (v : Z) : Prop := 0 ≤ v < 2 ^ (Z.of_nat n * 8).

(** A vector whose size fits the 32-bit count written before it, with
    elements of [n] bytes. *)
Definition wf_vector (n : nat) (vs : list Z) : Prop :=
  Z.of_nat (length vs) < 2 ^ 32 ∧ Forall (fits n) vs.

(** An agent whose fields hold values of their types. *)
Definition wf_agent (a : Agent) : Prop :=
  fits sz_u32 (id a) ∧ fits sz_u32 (region a) ∧ fits sz_bool (alive a)
  ∧ fits sz_int (age a) ∧ fits sz_bool (female a)
  ∧ fits sz_u32 (parent_a a) ∧ fits sz_u32 (parent_b a)
  ∧ fits sz_u32 (lineage_id a)
  ∧ fits sz_u8 (primaryLang a) ∧ fits sz_u8 (dialect a)
  ∧ fits sz_double (fluency a) ∧ fits sz_double (openness a)
  ∧ fits sz_double (conformity a) ∧ fits sz_double (assertiveness a)
  ∧ fits sz_double (sociality a)
  ∧ (length (x a) = kDims ∧ Forall (fits sz_double) (x a))
  ∧ (length (B a) = kDims ∧ Forall (fits sz_double) (B a))
  ∧ fits sz_double (B_norm_sq a) ∧ fits sz_double (m_comm a)
  ∧ fits sz_double (m_susceptibility a) ∧ fits sz_double (m_mobility a)
  ∧ wf_vector sz_u32 (neighbors a).

(** A kernel whose agent table and region index hold values of their
    types and have sizes that fit the header's 32-bit counts. *)
Definition wf_kernel {K : Type} `{KernelView K} (kernel : K) : Prop :=
  Z.of_nat (length (agents_of kernel)) < 2 ^ 32
  ∧ Z.of_nat (length (regionIndex_of kernel)) < 2 ^ 32
  ∧ Forall wf_agent (agents_of kernel)
  ∧ Forall (wf_vector sz_u32) (regionIndex_of kernel).

(** A header with every field cut to the width it is stored in. *)
Definition wrapHeader (h : CheckpointHeader) : CheckpointHeader :=
  mkHeader (u32 (magic h)) (u32 (version h)) (u64 (generation h))
           (u32 (num_agents h)) (u32 (num_regions h)) (u64 (seed h))
           (u64 (timestamp h)).

End CheckpointSpec.

(** ** Sequences of calls on the event log *)

Module EventLogSpec.

Import EventLog.

(** The enumerators. *)
Definition eventTypes : list EventType :=
  [BIRTH; DEATH; TRADE; MOVEMENT_FORMED; MOVEMENT_DISBANDED; IDEOLOGY_SHIFT;
   ECONOMIC_CRISIS; SYSTEM_CHANGE; MIGRATION; CULTURAL_CLUSTER_SPLIT;
   HARDSHIP_CRISIS; DEVELOPMENT_MILESTONE].

Section Calls.

Variable fixed : nat → R → string.

(** One [logEvent] call for each event of [evs], in order. *)
Definition logAll (log : EventLog) (evs : list Event) : EventLog :=
  foldl (λ log e, logEvent fixed log (tick e) (type e) (agent_id e)
                           (region_id e) (details e) (magnitude e))
        log evs.

End Calls.

End EventLogSpec.

(** ** A small world to run the definitions on *)

Module Demo.

Import Kernel.

Local Open Scope R_scope.

(** A stand-in for the random engine: the state is a counter, every draw
    advances it by one, the real distributions return their first
    parameter and the integer distribution walks through its range. *)
Definition Rng : Type := Z.
Definition seedRng (s : Z) : Rng := s.
Definition normal (mean sd : R) (s : Rng) : R * Rng := (mean, (s + 1)%Z).
Definition uniformReal (a b : R) (s : Rng) : R * Rng := (a, (s + 1)%Z).
Definition uniformInt (a b : Z) (s : Rng) : Z * Rng :=
  ((a + s mod (b - a + 1))%Z, (s + 1)%Z).

(** Three agents, two regions, a ring of degree two, every edge rewired. *)
Definition cfgRing : KernelConfig := mkConfig 3 2 2 1 0.15 0.05 7.

(** No agent and no region. *)
Definition cfgEmpty : KernelConfig := mkConfig 0 0 8 0.05 0.15 0.05 7.

Definition resetDemo (fuel : nat) (cfg : KernelConfig) : Outcome (State Rng) :=
  reset TanhSpec.fastTanh Rng seedRng normal uniformReal uniformInt fuel cfg.

(** The kernel [cfgEmpty] leads to. *)
Definition emptyKernel : State Rng := mkState cfgEmpty 0 (seedRng 7) [] [].

(** Two agents that are each other's only neighbour. *)
Definition left_agent : Agent :=
  mkAgent 0 0 0 0.8 0.5 0.5 0.5 0.5 (mkVec4 0.2 0 0 0) (mkVec4 0.2 0 0 0)
          1 0.7 1 [1%nat].

Definition right_agent : Agent :=
  mkAgent 1 0 1 0.6 0.5 0.5 0.5 0.5 (mkVec4 (-0.4) 0 0 0)
          (mkVec4 (-0.4) 0 0 0) 1 0.7 1 [0%nat].

Definition pair : list Agent := [left_agent; right_agent].

(** An agent without neighbours whose first internal belief is 4. *)
Definition hermit : Agent :=
  mkAgent 0 0 0 0.8 0.5 0.5 0.5 0.5 (mkVec4 4 0 0 0) (mkVec4 1 0 0 0)
          1 0.7 1 [].

(** One line of text for every kernel logged. *)
Definition logLine (k : State Rng) : string := "row" +:+ Cli.newline.

Definition runDemo (T logEvery : Z) (k : State Rng) (files : Cli.Files)
    : Outcome (State Rng * Cli.Files) :=
  Cli.run TanhSpec.fastTanh Rng logLine (λ _, true) T logEvery k files.

End Demo.

(** ** A checkpoint written and read back *)

Module CheckpointDemo.

Import Serialization.

Local Open Scope Z_scope.

(** A kernel reduced to what the checkpoint code reads from it. *)
Record Kernel : Type := mkKernel {
  generation_ : Z;
  agents_ : list Agent;
  regionIndex_ : list (list Z)
}.

Definition someRegion : RegionalEconomy :=
  mkRegion 1 2 3 4 5 6 [Byte.x6d; Byte.x69; Byte.x78] [1; 1; 1; 1; 1]
           [2; 2; 2; 2; 2].

Definition someAgentEconomy : AgentEconomy := mkAgentEconomy 10 20 30 2 40.

#[global] Instance Kernel_view : KernelView Kernel := {|
  generation_of := generation_;
  agents_of := agents_;
  regionIndex_of := regionIndex_;
  getRegion := λ _ _, someRegion;
  getAgentEconomy := λ _ _, someAgentEconomy
|}.

(** An agent with every scalar zero and no neighbour. *)
Definition blankAgent : Agent :=
  mkAgent 0 0 0 0 0 0 0 0 0 0 0 0 0 0 0 [0; 0; 0; 0] [0; 0; 0; 0] 0 0 0 0 [].

Definition settler : Agent :=
  mkAgent 0 0 1 31 1 0xFFFFFFFF 0xFFFFFFFF 7 2 9 11 12 13 14 15
          [21; 22; 23; 24] [31; 32; 33; 34] 16 17 18 19 [1].

Definition farmer : Agent :=
  mkAgent 1 0 1 45 0 0xFFFFFFFF 0xFFFFFFFF 8 1 3 41 42 43 44 45
          [51; 52; 53; 54] [61; 62; 63; 64] 46 47 48 49 [0].

(** The kernel that is saved: two agents in one region, generation 12. *)
Definition saved : Kernel := mkKernel 12 [settler; farmer] [[0; 1]].

(** The kernel the checkpoint is loaded into: freshly built, no agent. *)
Definition fresh : Kernel := mkKernel 0 [] [].

Definition path : string := "checkpoint.bin".

Definition save (kernel : Kernel) (files : Files) : bool * Files :=
  saveCheckpoint (λ _, true) 1700000000 kernel path files.

Definition load (kernel : Kernel) (files : Files) : Outcome (bool * Kernel) :=
  loadCheckpoint (λ _, true) blankAgent kernel path files.

(** A file that starts with four zero bytes. *)
Definition foreignFile : list byte := replicate 40 Byte.x00.

End CheckpointDemo.

(** ** Inputs for the examples of the remaining code *)

Module Samples.

Import Kernel Demo.

Local Open Scope R_scope.

(** Three agents, two regions, a ring of degree two, no edge rewired. *)
Definition cfgStill : KernelConfig := mkConfig 3 2 2 0 0.15 0.05 7.

(** Two agents in consensus: each other's only neighbour, both without
    any belief. *)
Definition calm_left : Agent :=
  mkAgent 0 0 0 0.8 0.5 0.5 0.5 0.5 zero zero 1 0.7 1 [1%nat].

Definition calm_right : Agent :=
  mkAgent 1 0 1 0.6 0.5 0.5 0.5 0.5 zero zero 1 0.7 1 [0%nat].

Definition calm : list Agent := [calm_left; calm_right].

(** A kernel that holds the pair of [Demo]. *)
Definition pairKernel : State Rng :=
  mkState cfgRing 0 (seedRng 7) pair [[0; 1]%nat].

(** A [Metrics] with every field zero. *)
Definition zeroMetrics : Metrics := mkMetrics 0 0 0 0.

(** Every double printed as the same text. *)
Definition fixedDemo (precision : nat) (v : R) : string := "1.0000".

Definition births : list EventLog.Event :=
  [EventLog.mkEvent 3 EventLog.BIRTH 7 2 "parent=1" 1;
   EventLog.mkEvent 5 EventLog.DEATH 4 2 "age=61" 1].

(** One agent without neighbours, as the GPU kernel sees it. *)
Definition lonely : GpuWorker.AgentDataView :=
  GpuWorker.mkView [0.5] [0] [0] [0] [0.7] [0.8] [0%Z] [0%Z] [] 1.

(** The header of a checkpoint that announces one agent. *)
Definition oneAgentHeader : Serialization.CheckpointHeader :=
  Serialization.mkHeader Serialization.CHECKPOINT_MAGIC
    Serialization.CHECKPOINT_VERSION 0 1 0 0 0.

End Samples.

(** ** Facts about belief vectors *)

Module VecFacts.

Local Open Scope R_scope.

Lemma vec4_eq (u v : Vec4) :
  (∀ k, (k < 4)%nat → vnth u k = vnth v k) → u = v.
Proof.
  intros H. destruct u as [u0 u1 u2 u3], v as [v0 v1 v2 v3].
  pose proof (H 0%nat ltac:(lia)) as H0. pose proof (H 1%nat ltac:(lia)) as H1.
  pose proof (H 2%nat ltac:(lia)) as H2. pose proof (H 3%nat ltac:(lia)) as H3.
  simpl in *. congruence.
Qed.

Lemma vnth_vset_eq v k r : (k < 4)%nat → vnth (vset v k r) k = r.
Proof.
  intros Hk. destruct k as [|[|[|[|k]]]]; try reflexivity; lia.
Qed.

Lemma vnth_vset_ne v j k r :
  (j < 4)%nat → (k < 4)%nat → j ≠ k → vnth (vset v j r) k = vnth v k.
Proof.
  intros Hj Hk Hne.
  destruct j as [|[|[|[|j]]]]; destruct k as [|[|[|[|k]]]];
    try reflexivity; try lia; congruence.
Qed.

End VecFacts.

(** ** Facts about the belief update *)

Module BeliefFacts.

Import Kernel VecFacts PairwiseSpec TwoPhaseSpec.

Local Open Scope R_scope.

Lemma std_min_Rmin a b : std_min a b = Rmin a b.
Proof.
  unfold std_min, Rmin. destruct (Rlt_dec b a), (Rle_dec a b); lra.
Qed.

Lemma std_max_Rmax a b : std_max a b = Rmax a b.
Proof.
  unfold std_max, Rmax. destruct (Rlt_dec a b), (Rle_dec a b); lra.
Qed.

Lemma gateSums_dims bi bj :
  gateSums bi bj dims = (dot4 bi bj, dot4 bi bi, dot4 bj bj).
Proof.
  unfold gateSums, dims, dot4. simpl. f_equal; [f_equal|]; ring.
Qed.

Lemma dot4_self_nonneg u : 0 <= dot4 u u.
Proof. unfold dot4. nra. Qed.

Lemma dot4_zero_l u v : ¬ 0 < dot4 u u → dot4 u v = 0.
Proof.
  unfold dot4. intros H.
  assert (c0 u = 0 ∧ c1 u = 0 ∧ c2 u = 0 ∧ c3 u = 0) as (-> & -> & -> & ->)
    by (repeat split; nra).
  ring.
Qed.

Lemma dot4_comm u v : dot4 u v = dot4 v u.
Proof. unfold dot4. ring. Qed.

Lemma languageQuality_spec ai aj : languageQuality ai aj = lang_q ai aj.
Proof.
  unfold languageQuality, lang_q. rewrite std_min_Rmin.
  destruct (Z.eqb_spec (primaryLang ai) (primaryLang aj));
    destruct (decide (primaryLang ai = primaryLang aj)); congruence.
Qed.

Lemma similarityGate_spec cfg ai aj : similarityGate cfg ai aj = sim cfg ai aj.
Proof.
  unfold similarityGate, sim, cosine, norm4.
  rewrite gateSums_dims, std_max_Rmax. f_equal.
  destruct (Rlt_dec 0 (dot4 (B ai) (B ai))) as [Hi|Hi].
  - destruct (Rlt_dec 0 (dot4 (B aj) (B aj))) as [Hj|Hj]; [lra|].
    rewrite (dot4_comm (B ai) (B aj)), (dot4_zero_l _ _ Hj).
    unfold Rdiv. lra.
  - rewrite (dot4_zero_l _ _ Hi). unfold Rdiv. lra.
Qed.

Section WithTanh.

Variable fastTanh : R → R.
Variable cfg : KernelConfig.

Lemma accumulate_nth ai aj acc k :
  (k < 4)%nat →
  vnth (accumulate fastTanh cfg ai aj acc) k
  = vnth acc k + contribution fastTanh cfg ai aj k.
Proof.
  intros Hk. unfold accumulate, contribution, w.
  rewrite similarityGate_spec, languageQuality_spec.
  destruct acc as [a0 a1 a2 a3].
  destruct k as [|[|[|[|k]]]]; try lia; reflexivity.
Qed.

(** The loop over the neighbours computes the delta of the specification. *)
Lemma neighborLoop_delta agents ai jids : ∀ acc,
  neighborLoop fastTanh cfg agents ai jids acc
  = ajs ← mapM (λ jid, agents !! jid) jids;
    Some (mkVec4
            (foldl Rplus (c0 acc)
               ((λ aj, contribution fastTanh cfg ai aj 0) <$> ajs))
            (foldl Rplus (c1 acc)
               ((λ aj, contribution fastTanh cfg ai aj 1) <$> ajs))
            (foldl Rplus (c2 acc)
               ((λ aj, contribution fastTanh cfg ai aj 2) <$> ajs))
            (foldl Rplus (c3 acc)
               ((λ aj, contribution fastTanh cfg ai aj 3) <$> ajs))).
Proof.
  induction jids as [|jid rest IH]; intros acc; simpl.
  - by destruct acc.
  - destruct (agents !! jid) as [aj|]; [|reflexivity]. simpl.
    rewrite IH. destruct (mapM (λ jid0, agents !! jid0) rest) as [ajs|];
      [|reflexivity].
    simpl. f_equal.
    pose proof (accumulate_nth ai aj acc 0 ltac:(lia)) as H0.
    pose proof (accumulate_nth ai aj acc 1 ltac:(lia)) as H1.
    pose proof (accumulate_nth ai aj acc 2 ltac:(lia)) as H2.
    pose proof (accumulate_nth ai aj acc 3 ltac:(lia)) as H3.
    simpl in H0, H1, H2, H3. by rewrite H0, H1, H2, H3.
Qed.

Lemma agentDelta_delta agents ai :
  agentDelta fastTanh cfg agents ai = delta fastTanh cfg agents ai.
Proof. unfold agentDelta. by rewrite neighborLoop_delta. Qed.

(** C1. In the pairwise update each neighbour [aj] of agent [ai] adds
    [w · tanh(B_j[k] − B_i[k])] to the accumulator of [ai] at every
    component [k] in 0..3, with [w], [sim] and [lang_q] as the
    specification gives them, and the delta stored for [ai] is the sum of
    these contributions over the agents its neighbour list names. *)
Theorem pairwise_contribution :
  (∀ ai aj acc k, (k < 4)%nat →
     vnth (accumulate fastTanh cfg ai aj acc) k
     = vnth acc k
       + stepSize cfg
         * Rmax (0.5 * (1 + cosine (B ai) (B aj))) (simFloor cfg)
         * (if decide (primaryLang ai = primaryLang aj)
            then Rmin (fluency ai) (fluency aj)
            else 0.25 * Rmin (fluency ai) (fluency aj))
         * (0.5 * (m_comm ai + m_comm aj)) * m_susceptibility ai
         * fastTanh (vnth (B aj) k - vnth (B ai) k))
  ∧ (∀ agents ai,
       agentDelta fastTanh cfg agents ai = delta fastTanh cfg agents ai).
Proof.
  split.
  - intros ai aj acc k Hk. rewrite accumulate_nth by assumption. reflexivity.
  - apply agentDelta_delta.
Qed.

(** *** The two passes, index by index *)

(** The delta of the agent stored at index [i]. *)
Definition deltaAt (agents : list Agent) (i : nat) : option Vec4 :=
  ai ← agents !! i; agentDelta fastTanh cfg agents ai.

Lemma computeDeltas_Some agents order : ∀ dx dx',
  computeDeltas fastTanh cfg agents order dx = Some dx' →
  length dx' = length dx ∧
  ∀ i, (i < length dx)%nat →
       dx' !! i = if decide (i ∈ order) then deltaAt agents i else dx !! i.
Proof.
  induction order as [|i0 rest IH]; intros dx dx' H; simpl in H.
  - injection H as <-. split; [reflexivity|]. intros i Hi.
    destruct (decide (i ∈ [])) as [Hin|_]; [|reflexivity].
    by apply elem_of_nil in Hin.
  - destruct (agents !! i0) as [ai|] eqn:Hai; [|discriminate].
    destruct (agentDelta fastTanh cfg agents ai) as [acc|] eqn:Hacc;
      [|discriminate].
    destruct (IH _ _ H) as [Hlen Hlook]. rewrite length_insert in Hlen.
    split; [assumption|]. intros i Hi.
    rewrite Hlook by (rewrite length_insert; assumption).
    destruct (decide (i ∈ rest)) as [Hr|Hr].
    + rewrite decide_True by (by apply list_elem_of_further). reflexivity.
    + destruct (decide (i = i0)) as [->|Hne].
      * rewrite decide_True by apply list_elem_of_here.
        rewrite list_lookup_insert_eq by assumption.
        unfold deltaAt. rewrite Hai. simpl. by rewrite Hacc.
      * rewrite list_lookup_insert_ne by congruence.
        rewrite decide_False; [reflexivity|].
        intros [->|?]%elem_of_cons; [congruence|contradiction].
Qed.

Lemma computeDeltas_None agents order : ∀ dx,
  computeDeltas fastTanh cfg agents order dx = None →
  ∃ i, i ∈ order ∧ deltaAt agents i = None.
Proof.
  induction order as [|i0 rest IH]; intros dx H; simpl in H; [discriminate|].
  destruct (agents !! i0) as [ai|] eqn:Hai.
  - destruct (agentDelta fastTanh cfg agents ai) as [acc|] eqn:Hacc.
    + destruct (IH _ H) as (i & Hin & Hi). exists i.
      split; [by apply list_elem_of_further|assumption].
    + exists i0. split; [apply list_elem_of_here|].
      unfold deltaAt. rewrite Hai. simpl. assumption.
  - exists i0. split; [apply list_elem_of_here|].
    unfold deltaAt. by rewrite Hai.
Qed.

Lemma applyDeltas_lookup dx order : ∀ cur,
  NoDup order →
  (∀ i, i ∈ order → (i < length cur)%nat) →
  length dx = length cur →
  ∃ cur', applyDeltas fastTanh dx order cur = Some cur' ∧
          length cur' = length cur ∧
          ∀ i a d, cur !! i = Some a → dx !! i = Some d →
                   cur' !! i
                   = Some (if decide (i ∈ order)
                           then applyDelta fastTanh a d else a).
Proof.
  induction order as [|i0 rest IH]; intros cur Hnd Hin Hlen;
    cbn [applyDeltas].
  - exists cur. split; [reflexivity|]. split; [reflexivity|].
    intros i a d Ha _.
    rewrite decide_False; [assumption|]. apply not_elem_of_nil.
  - apply NoDup_cons in Hnd as [Hi0 Hnd].
    assert (i0 < length cur)%nat as Hlt by (apply Hin, list_elem_of_here).
    destruct (lookup_lt_is_Some_2 cur i0 Hlt) as [a0 Ha0].
    destruct (lookup_lt_is_Some_2 dx i0 ltac:(lia)) as [d0 Hd0].
    rewrite Ha0, Hd0.
    destruct (IH (<[i0 := applyDelta fastTanh a0 d0]> cur) Hnd)
      as (cur' & Hrun & Hlen' & Hlook).
    + intros i Hi. rewrite length_insert.
      by apply Hin, list_elem_of_further.
    + by rewrite length_insert.
    + exists cur'. rewrite length_insert in Hlen'.
      split; [assumption|]. split; [assumption|]. intros i a d Ha Hd.
      destruct (decide (i = i0)) as [->|Hne].
      * rewrite decide_True by apply list_elem_of_here.
        rewrite (Hlook i0 (applyDelta fastTanh a0 d0) d0);
          [|by rewrite list_lookup_insert_eq|assumption].
        rewrite decide_False by assumption. congruence.
      * rewrite (Hlook i a d);
          [|by rewrite list_lookup_insert_ne|assumption].
        destruct (decide (i ∈ rest)) as [Hr|Hr].
        -- rewrite decide_True by (by apply list_elem_of_further).
           reflexivity.
        -- rewrite decide_False; [reflexivity|].
           intros [->|?]%elem_of_cons; [congruence|contradiction].
Qed.

(** Every agent moved by the delta that the table [agents] gives it. *)
Definition perAgent (agents : list Agent) : option (list Agent) :=
  mapM (λ ai, applyDelta fastTanh ai <$> agentDelta fastTanh cfg agents ai)
       agents.

(** The two passes, run over any two enumerations of the indices, move
    every agent by the delta of the table before the call. *)
Lemma updateBeliefsIn_perAgent agents order1 order2 :
  order1 ≡ₚ seq 0 (length agents) →
  order2 ≡ₚ seq 0 (length agents) →
  updateBeliefsIn fastTanh cfg order1 order2 agents = perAgent agents.
Proof.
  intros Hp1 Hp2. unfold updateBeliefsIn.
  assert (∀ i, i ∈ order1 ↔ (i < length agents)%nat) as Hin1.
  { intros i. rewrite Hp1, elem_of_seq. lia. }
  assert (∀ i, i ∈ order2 ↔ (i < length agents)%nat) as Hin2.
  { intros i. rewrite Hp2, elem_of_seq. lia. }
  destruct (computeDeltas fastTanh cfg agents order1
              (replicate (length agents) zero)) as [dx|] eqn:Hdx.
  - apply computeDeltas_Some in Hdx as [Hlen Hlook].
    rewrite length_replicate in Hlen, Hlook.
    destruct (applyDeltas_lookup dx order2 agents) as (res & -> & Hlen' & Hres).
    + rewrite Hp2. apply NoDup_seq.
    + intros i. apply Hin2.
    + assumption.
    + symmetry. apply mapM_Some_2, Forall2_same_length_lookup.
      split; [by rewrite Hlen'|]. intros i a r Ha Hr.
      assert (i < length agents)%nat as Hi by (by eapply lookup_lt_Some).
      specialize (Hlook i Hi). rewrite decide_True in Hlook by (by apply Hin1).
      unfold deltaAt in Hlook. rewrite Ha in Hlook. simpl in Hlook.
      destruct (lookup_lt_is_Some_2 dx i ltac:(lia)) as [d Hd].
      rewrite Hd in Hlook. rewrite <- Hlook. simpl.
      rewrite (Hres i a d Ha Hd) in Hr.
      rewrite decide_True in Hr by (by apply Hin2). congruence.
  - apply computeDeltas_None in Hdx as (i & Hi & Hnone).
    symmetry. apply mapM_None_2.
    apply Hin1 in Hi. destruct (lookup_lt_is_Some_2 agents i Hi) as [ai Hai].
    apply Exists_exists. exists ai. split.
    + by eapply list_elem_of_lookup_2.
    + unfold deltaAt in Hnone. rewrite Hai in Hnone. simpl in Hnone.
      by rewrite Hnone.
Qed.

Lemma updateBeliefs_perAgent agents :
  updateBeliefs fastTanh cfg agents = perAgent agents.
Proof. apply updateBeliefsIn_perAgent; reflexivity. Qed.

Lemma applyDelta_move a d : applyDelta fastTanh a d = move fastTanh a d.
Proof. destruct a as [? ? ? ? ? ? ? ? [? ? ? ?] [? ? ? ?] ? ? ? ?]. reflexivity. Qed.

Lemma perAgent_twoPhase agents : perAgent agents = twoPhase fastTanh cfg agents.
Proof.
  unfold perAgent, twoPhase. generalize agents at 1 3. intros pre.
  apply mapM_ext. intros ai. rewrite agentDelta_delta.
  destruct (delta fastTanh cfg pre ai); [|reflexivity].
  simpl. by rewrite applyDelta_move.
Qed.

(** *** What a belief update leaves in place *)

Lemma applyDelta_id a d : id (applyDelta fastTanh a d) = id a.
Proof. reflexivity. Qed.

Lemma applyDelta_neighbors a d :
  neighbors (applyDelta fastTanh a d) = neighbors a.
Proof. reflexivity. Qed.

Lemma applyDelta_x a d k :
  (k < 4)%nat → vnth (x (applyDelta fastTanh a d)) k = vnth (x a) k + vnth d k.
Proof.
  intros Hk. destruct a as [? ? ? ? ? ? ? ? [x0 x1 x2 x3] ? ? ? ? ?].
  destruct k as [|[|[|[|k]]]]; try lia; reflexivity.
Qed.

Lemma applyDelta_B a d k :
  (k < 4)%nat →
  vnth (B (applyDelta fastTanh a d)) k = fastTanh (vnth (x a) k + vnth d k).
Proof.
  intros Hk.
  destruct a as [? ? ? ? ? ? ? ? [x0 x1 x2 x3] [b0 b1 b2 b3] ? ? ? ?].
  destruct k as [|[|[|[|k]]]]; try lia; reflexivity.
Qed.

(** Every agent of the table after the update is an agent of the table
    before it, moved by some delta. *)
Lemma updateBeliefs_moved agents agents' :
  updateBeliefs fastTanh cfg agents = Some agents' →
  Forall2 (λ a a', ∃ d, agentDelta fastTanh cfg agents a = Some d
                        ∧ a' = applyDelta fastTanh a d)
          agents agents'.
Proof.
  rewrite updateBeliefs_perAgent. unfold perAgent. intros H%mapM_Some_1.
  eapply Forall2_impl; [exact H|]. intros a a' Ha. simpl in Ha.
  destruct (agentDelta fastTanh cfg agents a) as [d|]; [|discriminate].
  exists d. split; [reflexivity|]. simpl in Ha. congruence.
Qed.

Lemma neighborLoop_is_Some agents ai jids : ∀ acc,
  (∀ j, j ∈ jids → (j < length agents)%nat) →
  is_Some (neighborLoop fastTanh cfg agents ai jids acc).
Proof.
  induction jids as [|jid rest IH]; intros acc Hin; simpl; [by eexists|].
  destruct (lookup_lt_is_Some_2 agents jid) as [aj ->].
  - apply Hin, list_elem_of_here.
  - apply IH. intros j Hj. by apply Hin, list_elem_of_further.
Qed.

(** The update returns when every neighbour id names an agent. *)
Lemma updateBeliefs_is_Some agents :
  (∀ ai j, ai ∈ agents → j ∈ neighbors ai → (j < length agents)%nat) →
  is_Some (updateBeliefs fastTanh cfg agents).
Proof.
  intros Hin. rewrite updateBeliefs_perAgent. apply mapM_is_Some_2.
  apply Forall_forall. intros ai Hai. simpl.
  destruct (neighborLoop_is_Some agents ai (neighbors ai) zero) as [d Hd].
  - intros j Hj. by eapply Hin.
  - unfold agentDelta. rewrite Hd. by eexists.
Qed.

Lemma updateBeliefs_bounded agents agents' :
  (∀ v, -1 <= fastTanh v <= 1) →
  updateBeliefs fastTanh cfg agents = Some agents' →
  ∀ a k, a ∈ agents' → (k < 4)%nat → -1 <= vnth (B a) k <= 1.
Proof.
  intros Hth Hup a' k Ha' Hk.
  apply list_elem_of_lookup in Ha' as [i Hi].
  destruct (Forall2_lookup_r _ _ _ _ _ (updateBeliefs_moved _ _ Hup) Hi)
    as (a & _ & d & _ & ->).
  rewrite applyDelta_B by assumption. apply Hth.
Qed.

(** C3. [updateBeliefs] computes the two-phase reference semantics: every
    delta is the sum of the neighbours' contributions in the state before
    the call, and only then is each [x_i] incremented by its delta and
    [B_i] recomputed from it; and the result is the same whatever the
    order in which each of the two passes visits the agents. *)
Theorem updateBeliefs_two_phase agents order1 order2 :
  order1 ≡ₚ seq 0 (length agents) →
  order2 ≡ₚ seq 0 (length agents) →
  updateBeliefs fastTanh cfg agents = twoPhase fastTanh cfg agents
  ∧ updateBeliefsIn fastTanh cfg order1 order2 agents
    = updateBeliefs fastTanh cfg agents.
Proof.
  intros Hp1 Hp2. rewrite <- perAgent_twoPhase.
  split; [apply updateBeliefs_perAgent|].
  rewrite updateBeliefs_perAgent. by apply updateBeliefsIn_perAgent.
Qed.

End WithTanh.

(** *** The range of the activation function *)

Lemma quotient_in_unit p q : 0 < q → - q <= p <= q → -1 <= p / q <= 1.
Proof.
  intros Hq Hp. unfold Rdiv.
  pose proof (Rinv_0_lt_compat q Hq) as Hi.
  assert (q * / q = 1) as Hone by (apply Rinv_r; lra).
  split; nra.
Qed.

Lemma quotient_above_one p q : 0 < q → q < p → 1 < p / q.
Proof.
  intros Hq Hp. unfold Rdiv.
  pose proof (Rinv_0_lt_compat q Hq) as Hi.
  assert (q * / q = 1) as Hone by (apply Rinv_r; lra).
  nra.
Qed.

Lemma tanh_in_unit v : -1 <= tanh v <= 1.
Proof.
  unfold tanh, sinh, cosh.
  pose proof (exp_pos v) as Ha. pose proof (exp_pos (- v)) as Hb.
  apply quotient_in_unit; lra.
Qed.

Lemma std_clamp_range v lo hi : lo <= hi → lo <= std_clamp v lo hi <= hi.
Proof.
  intros Hle. unfold std_clamp.
  destruct (Rlt_dec v lo); [lra|]. destruct (Rlt_dec hi v); lra.
Qed.

Lemma fastTanh_in_unit v : -1 <= TanhSpec.fastTanh v <= 1.
Proof. apply std_clamp_range. lra. Qed.

(** The denominator of the rational approximation is never zero. *)
Lemma rationalTanh_denominator v : 0 < 27 + 9 * (v * v).
Proof. nra. Qed.

(** Without the clamp the rational approximation leaves [-1, 1]: its value
    at 4 is 172/171. *)
Lemma rationalTanh_leaves_unit : 1 < TanhSpec.rationalTanh 4.
Proof. unfold TanhSpec.rationalTanh. apply quotient_above_one; lra. Qed.


End BeliefFacts.

(** ** Facts about the neighbour graph *)

Module GraphFacts.

Import Kernel GraphSpec.

(** *** Outcomes *)

Lemma bind_Returns {A B : Type} (m : Outcome A) (f : A → Outcome B) (b : B) :
  m ≫= f = Returns b → ∃ a, m = Returns a ∧ f a = Returns b.
Proof. destruct m as [a| | |]; try discriminate. intros H. by exists a. Qed.

Lemma foldM_invariant {A B : Type} (P : A → Prop) (f : A → B → Outcome A)
    (l : list B) : ∀ a a',
  P a →
  (∀ x b y, P x → b ∈ l → f x b = Returns y → P y) →
  foldM f a l = Returns a' → P a'.
Proof.
  induction l as [|b rest IH]; intros a a' Ha Hstep Hrun; simpl in Hrun.
  - by injection Hrun as <-.
  - apply bind_Returns in Hrun as (y & Hy & Hrest).
    apply (IH y a'); [|intros x b' z Hx Hb'|assumption].
    + eapply Hstep; [exact Ha|apply list_elem_of_here|exact Hy].
    + apply Hstep; [assumption|by apply list_elem_of_further].
Qed.

(** *** The neighbour relation of an agent table *)

(** [b] is in the neighbour list of the agent stored at index [a]. *)
Definition nbr (agents : list Agent) (a b : nat) : Prop :=
  ∃ ai, agents !! a = Some ai ∧ b ∈ neighbors ai.

(** Every agent carries its index as its id. *)
Definition ids_ok (agents : list Agent) : Prop :=
  ∀ i ai, agents !! i = Some ai → id ai = i.

Definition nbr_sym (agents : list Agent) : Prop :=
  ∀ a b, nbr agents a b → nbr agents b a.

Lemma nbr_sym_in_range agents a b :
  nbr_sym agents → nbr agents a b → (b < length agents)%nat.
Proof.
  intros Hsym Hab. destruct (Hsym _ _ Hab) as (bi & Hb & _).
  by eapply lookup_lt_Some.
Qed.

Lemma pushNeighbor_nbr agents i j agents' :
  pushNeighbor agents i j = Returns agents' →
  ∀ a b, nbr agents' a b ↔ nbr agents a b ∨ (a = i ∧ b = j).
Proof.
  unfold pushNeighbor. destruct (agents !! i) as [ai|] eqn:Hi; [|discriminate].
  intros [= <-] a b. unfold nbr.
  assert (i < length agents)%nat as Hlt by (by eapply lookup_lt_Some).
  destruct (decide (a = i)) as [->|Hne].
  - rewrite list_lookup_insert_eq by assumption. split.
    + intros (a' & [= <-] & Hb). simpl in Hb.
      apply elem_of_app in Hb as [Hb|Hb%list_elem_of_singleton]; eauto.
    + intros [(a' & Ha' & Hb)|[_ ->]]; eexists; (split; [reflexivity|]);
        simpl; apply elem_of_app.
      * left. congruence.
      * right. by apply list_elem_of_singleton.
  - rewrite list_lookup_insert_ne by congruence. split; [eauto|].
    intros [?|[? _]]; [assumption|contradiction].
Qed.

Lemma eraseNeighbor_nbr agents i j agents' :
  eraseNeighbor agents i j = Returns agents' →
  ∀ a b, nbr agents' a b ↔ nbr agents a b ∧ ¬ (a = i ∧ b = j).
Proof.
  unfold eraseNeighbor. destruct (agents !! i) as [ai|] eqn:Hi; [|discriminate].
  intros [= <-] a b. unfold nbr.
  assert (i < length agents)%nat as Hlt by (by eapply lookup_lt_Some).
  destruct (decide (a = i)) as [->|Hne].
  - rewrite list_lookup_insert_eq by assumption. split.
    + intros (a' & [= <-] & Hb). simpl in Hb.
      apply list_elem_of_filter in Hb as [Hb1 Hb2]. split; [eauto|].
      intros [_ ->]. contradiction.
    + intros [(a' & Ha' & Hb) Hn]. eexists. split; [reflexivity|]. simpl.
      apply list_elem_of_filter. split; [|congruence].
      intros ->. apply Hn. by split.
  - rewrite list_lookup_insert_ne by congruence. split.
    + intros H. split; [assumption|]. intros [? _]. contradiction.
    + by intros [? _].
Qed.

Lemma insert_set_neighbors_ids agents i a ns :
  agents !! i = Some a → ids_ok agents →
  ids_ok (<[i := set_neighbors a ns]> agents).
Proof.
  intros Hi Hids k ak Hk.
  assert (i < length agents)%nat as Hlt by (by eapply lookup_lt_Some).
  destruct (decide (k = i)) as [->|Hne].
  - rewrite list_lookup_insert_eq in Hk by assumption.
    injection Hk as <-. simpl. by apply Hids.
  - rewrite list_lookup_insert_ne in Hk by congruence. by apply Hids.
Qed.

Lemma pushNeighbor_ids agents i j agents' :
  pushNeighbor agents i j = Returns agents' → ids_ok agents → ids_ok agents'.
Proof.
  unfold pushNeighbor. destruct (agents !! i) as [ai|] eqn:Hi; [|discriminate].
  intros [= <-]. by apply insert_set_neighbors_ids.
Qed.

Lemma eraseNeighbor_ids agents i j agents' :
  eraseNeighbor agents i j = Returns agents' → ids_ok agents → ids_ok agents'.
Proof.
  unfold eraseNeighbor. destruct (agents !! i) as [ai|] eqn:Hi; [|discriminate].
  intros [= <-]. by apply insert_set_neighbors_ids.
Qed.

(** The invariant of graph construction. *)
Definition graph_inv (agents : list Agent) : Prop :=
  ids_ok agents ∧ nbr_sym agents.

Lemma latticeEdge_inv N i d agents agents' :
  latticeEdge N i d agents = Returns agents' →
  graph_inv agents → graph_inv agents'.
Proof.
  unfold latticeEdge. intros (ag1 & H1 & H2)%bind_Returns [Hids Hsym].
  split.
  - eauto using pushNeighbor_ids.
  - intros a b. rewrite !(pushNeighbor_nbr _ _ _ _ H2).
    rewrite !(pushNeighbor_nbr _ _ _ _ H1).
    intros [[Hab|[-> ->]]|[-> ->]]; auto.
Qed.

Lemma ringLattice_inv N halfK agents agents' :
  ringLattice N halfK agents = Returns agents' →
  graph_inv agents → graph_inv agents'.
Proof.
  unfold ringLattice. intros Hrun Hinv.
  eapply (foldM_invariant graph_inv); [exact Hinv| |exact Hrun].
  intros ag i ag' Hag _ Hinner. simpl in Hinner.
  eapply (foldM_invariant graph_inv); [exact Hag| |exact Hinner].
  intros ag1 d ag2 Hag1 _ Hedge.
  eapply latticeEdge_inv; [exact Hedge|exact Hag1].
Qed.

(** *** De-duplication *)

Lemma cleanLoop_spec self ns : ∀ (unique : gset nat) cleaned,
  NoDup cleaned →
  (∀ b, b ∈ unique ↔ b ∈ cleaned) →
  let res :=
    (foldl (λ '(unique, cleaned) nid,
              if decide (nid ≠ self ∧ nid ∉ unique)
              then ({[nid]} ∪ unique, cleaned ++ [nid])
              else (unique, cleaned))
           (unique, cleaned) ns).2 in
  NoDup res ∧ ∀ b, b ∈ res ↔ b ∈ cleaned ∨ (b ∈ ns ∧ b ≠ self).
Proof.
  induction ns as [|nid rest IH]; intros unique cleaned Hnd Hset; simpl.
  - split; [assumption|]. intros b. rewrite elem_of_nil. tauto.
  - destruct (decide (nid ≠ self ∧ nid ∉ unique)) as [[Hself Hnew]|Hold].
    + destruct (IH ({[nid]} ∪ unique) (cleaned ++ [nid])) as [Hnd' Hres].
      * apply NoDup_app. split; [assumption|]. split; [|apply NoDup_singleton].
        intros b Hb ->%list_elem_of_singleton. by apply Hnew, Hset.
      * intros b. rewrite elem_of_union, elem_of_singleton, elem_of_app,
          list_elem_of_singleton, Hset. tauto.
      * split; [assumption|]. intros b. rewrite Hres, elem_of_app,
          list_elem_of_singleton, elem_of_cons.
        split; [|tauto]. intros [[?| ->]|[? ?]]; auto.
    + destruct (IH unique cleaned Hnd Hset) as [Hnd' Hres].
      split; [assumption|]. intros b. rewrite Hres, elem_of_cons.
      split; [tauto|]. intros [?|[[->|?] Hb]]; auto.
      left. apply Hset. destruct (decide (nid ∈ unique)); [assumption|].
      exfalso. by apply Hold.
Qed.

Lemma cleanNeighbors_spec self ns :
  NoDup (cleanNeighbors self ns)
  ∧ ∀ b, b ∈ cleanNeighbors self ns ↔ b ∈ ns ∧ b ≠ self.
Proof.
  destruct (cleanLoop_spec self ns ∅ []) as [Hnd Hres].
  - apply NoDup_nil_2.
  - intros b. rewrite elem_of_nil. set_solver.
  - split; [exact Hnd|]. intros b. unfold cleanNeighbors.
    rewrite (Hres b), elem_of_nil. tauto.
Qed.

Lemma dedupe_lookup agents i :
  dedupe agents !! i
  = (λ a, set_neighbors a (cleanNeighbors (id a) (neighbors a)))
      <$> agents !! i.
Proof. unfold dedupe. apply list_lookup_fmap. Qed.

Lemma dedupe_ids agents : ids_ok agents → ids_ok (dedupe agents).
Proof.
  intros Hids i ai. rewrite dedupe_lookup.
  destruct (agents !! i) as [a|] eqn:Ha; [|discriminate].
  intros [= <-]. simpl. by apply Hids.
Qed.

Lemma dedupe_nbr agents a b :
  ids_ok agents → nbr (dedupe agents) a b ↔ nbr agents a b ∧ b ≠ a.
Proof.
  intros Hids. unfold nbr. rewrite dedupe_lookup. split.
  - intros (ai' & Hai' & Hb).
    destruct (agents !! a) as [ai|] eqn:Ha; [|discriminate].
    injection Hai' as <-. simpl in Hb.
    apply cleanNeighbors_spec in Hb as [Hb Hne].
    rewrite (Hids _ _ Ha) in Hne. eauto.
  - intros [(ai & Ha & Hb) Hne]. rewrite Ha. eexists. split; [reflexivity|].
    simpl. apply cleanNeighbors_spec. rewrite (Hids _ _ Ha). by split.
Qed.

Lemma dedupe_NoDup agents ai :
  ai ∈ dedupe agents → NoDup (neighbors ai).
Proof.
  unfold dedupe. intros (a & -> & _)%list_elem_of_fmap. simpl.
  apply cleanNeighbors_spec.
Qed.

Lemma dedupe_inv agents : graph_inv agents → graph_inv (dedupe agents).
Proof.
  intros [Hids Hsym]. split; [by apply dedupe_ids|].
  intros a b. rewrite !dedupe_nbr by assumption.
  intros [Hab Hne]. split; [by apply Hsym|congruence].
Qed.

(** *** What is kept from [reset] on *)

(** The invariant that is kept from [reset] on. *)
Definition graph_ok (agents : list Agent) : Prop :=
  graph_inv agents
  ∧ (∀ a, ¬ nbr agents a a)
  ∧ (∀ ai, ai ∈ agents → NoDup (neighbors ai)).

Lemma dedupe_graph_ok agents : graph_inv agents → graph_ok (dedupe agents).
Proof.
  intros Hinv. split; [by apply dedupe_inv|]. split.
  - intros a. destruct Hinv as [Hids _]. rewrite dedupe_nbr by assumption.
    intros [_ Hne]. congruence.
  - apply dedupe_NoDup.
Qed.

Lemma graph_ok_simple agents : graph_ok agents → simple_graph agents.
Proof.
  intros ([Hids Hsym] & Hirr & Hnd). split; [|split; [|assumption]].
  - intros i j ai aj Hi Hj. split; intros Hin.
    + destruct (Hsym i j) as (aj' & Hj' & Hin'); [by exists ai|]. congruence.
    + destruct (Hsym j i) as (ai' & Hi' & Hin'); [by exists aj|]. congruence.
  - intros i ai Hi. rewrite (Hids _ _ Hi).
    assert (i ∉ neighbors ai) by (intros Hin; apply (Hirr i); by exists ai).
    by split.
Qed.

Lemma graph_ok_in_range agents ai j :
  graph_ok agents → ai ∈ agents → j ∈ neighbors ai → (j < length agents)%nat.
Proof.
  intros ([_ Hsym] & _) [i Hi]%list_elem_of_lookup Hj.
  apply (nbr_sym_in_range agents i j Hsym). by exists ai.
Qed.

(** Two tables with the same ids and the same neighbour lists. *)
Definition same_graph (agents agents' : list Agent) : Prop :=
  Forall2 (λ a a', id a' = id a ∧ neighbors a' = neighbors a) agents agents'.

Lemma same_graph_nbr agents agents' a b :
  same_graph agents agents' → nbr agents' a b ↔ nbr agents a b.
Proof.
  intros Hsame. unfold nbr. split.
  - intros (a' & Ha' & Hb).
    destruct (Forall2_lookup_r _ _ _ _ _ Hsame Ha') as (a0 & Ha0 & _ & Hn).
    exists a0. split; [assumption|]. congruence.
  - intros (a0 & Ha0 & Hb).
    destruct (Forall2_lookup_l _ _ _ _ _ Hsame Ha0) as (a' & Ha' & _ & Hn).
    exists a'. split; [assumption|]. congruence.
Qed.

Lemma same_graph_ok agents agents' :
  same_graph agents agents' → graph_ok agents → graph_ok agents'.
Proof.
  intros Hsame ([Hids Hsym] & Hirr & Hnd). repeat split.
  - intros i a' Ha'.
    destruct (Forall2_lookup_r _ _ _ _ _ Hsame Ha') as (a0 & Ha0 & Hid & _).
    rewrite Hid. by apply Hids.
  - intros a b. rewrite !(same_graph_nbr _ _ _ _ Hsame). apply Hsym.
  - intros a. rewrite (same_graph_nbr _ _ _ _ Hsame). apply Hirr.
  - intros a' [i Ha']%list_elem_of_lookup.
    destruct (Forall2_lookup_r _ _ _ _ _ Hsame Ha') as (a0 & Ha0 & _ & Hn).
    rewrite Hn. apply Hnd. by eapply list_elem_of_lookup_2.
Qed.

Lemma updateBeliefs_same_graph th cfg agents agents' :
  updateBeliefs th cfg agents = Some agents' → same_graph agents agents'.
Proof.
  intros Hup. eapply Forall2_impl; [by apply BeliefFacts.updateBeliefs_moved|].
  intros a a' (d & _ & ->). split; reflexivity.
Qed.

Lemma foldM_seq_invariant {A : Type} (P : nat → A → Prop)
    (f : A → nat → Outcome A) (len : nat) : ∀ start a a',
  P start a →
  (∀ i x y, (start <= i < start + len)%nat →
            P i x → f x i = Returns y → P (S i) y) →
  foldM f a (seq start len) = Returns a' → P (start + len)%nat a'.
Proof.
  induction len as [|len IH]; intros start a a' Ha Hstep Hrun; simpl in Hrun.
  - injection Hrun as <-. by rewrite Nat.add_0_r.
  - apply bind_Returns in Hrun as (y & Hy & Hrest).
    replace (start + S len)%nat with (S start + len)%nat by lia.
    apply (IH (S start) y a'); [|intros i x z Hi Hx Hz|assumption].
    + apply (Hstep start a y); [lia|assumption|assumption].
    + apply (Hstep i x z); [lia|assumption|assumption].
Qed.

Lemma foldM_agree {A B : Type} (f g : A → B → Outcome A) (l : list B) :
  (∀ a b x y, f a b = Returns x → g a b = Returns y → x = y) →
  ∀ a x y, foldM f a l = Returns x → foldM g a l = Returns y → x = y.
Proof.
  intros Hfg. induction l as [|b rest IH]; intros a x y Hx Hy;
    simpl in Hx, Hy.
  - congruence.
  - apply bind_Returns in Hx as (x1 & Hx1 & Hx).
    apply bind_Returns in Hy as (y1 & Hy1 & Hy).
    rewrite (Hfg _ _ _ _ Hx1 Hy1) in Hx. by eapply IH.
Qed.

(** *** Construction and stepping *)

Section WithRandom.

Variable fastTanh : R → R.
Variable RngState : Type.
Variable rng_seed : Z → RngState.
Variable normal_distribution : R → R → RngState → R * RngState.
Variable uniform_real_distribution : R → R → RngState → R * RngState.
Variable uniform_int_distribution : Z → Z → RngState → Z * RngState.

Local Abbreviation initAgent :=
  (initAgent fastTanh RngState normal_distribution uniform_real_distribution
             uniform_int_distribution).
Local Abbreviation initAgents :=
  (initAgents fastTanh RngState normal_distribution uniform_real_distribution
              uniform_int_distribution).
Local Abbreviation pickTarget := (pickTarget RngState uniform_int_distribution).
Local Abbreviation rewireEdge :=
  (rewireEdge RngState uniform_real_distribution uniform_int_distribution).
Local Abbreviation rewireNode :=
  (rewireNode RngState uniform_real_distribution uniform_int_distribution).
Local Abbreviation rewire :=
  (rewire RngState uniform_real_distribution uniform_int_distribution).
Local Abbreviation buildSmallWorld :=
  (buildSmallWorld RngState uniform_real_distribution
                   uniform_int_distribution).
Local Abbreviation reset :=
  (reset fastTanh RngState rng_seed normal_distribution
         uniform_real_distribution uniform_int_distribution).
Local Abbreviation step := (step fastTanh RngState).
Local Abbreviation stepLoop := (stepLoop fastTanh RngState).
Local Abbreviation stepN := (stepN fastTanh RngState).

Lemma initAgent_appends cfg i agents ri rng agents' ri' rng' :
  initAgent cfg i (agents, ri, rng) = Returns (agents', ri', rng') →
  ∃ a, agents' = agents ++ [a] ∧ id a = i ∧ neighbors a = [].
Proof.
  unfold Kernel.initAgent.
  repeat match goal with
         | |- context [uniform_int_distribution ?a ?b ?r] =>
             destruct (uniform_int_distribution a b r)
         | |- context [uniform_real_distribution ?a ?b ?r] =>
             destruct (uniform_real_distribution a b r)
         | |- context [normal_distribution ?a ?b ?r] =>
             destruct (normal_distribution a b r)
         | |- context [Kernel.drawBeliefs ?f ?T ?n ?r] =>
             destruct (Kernel.drawBeliefs f T n r) as [[? ?] ?]
         end.
  match goal with
  | |- context [?l !! ?n] => destruct (l !! n); [|discriminate]
  end.
  intros [= <- _ _]. eexists. split; [reflexivity|]. by split.
Qed.

(** After [initAgents] the table holds [population] agents, each with its
    index as id and with no neighbour. *)
Lemma initAgents_table cfg rng agents ri rng' :
  initAgents cfg rng = Returns (agents, ri, rng') →
  length agents = Z.to_nat (population cfg)
  ∧ ids_ok agents
  ∧ (∀ a, a ∈ agents → neighbors a = []).
Proof.
  unfold Kernel.initAgents. intros Hrun.
  pose (P := λ (n : nat) (st : list Agent * list (list nat) * RngState),
          length st.1.1 = n ∧ ids_ok st.1.1
          ∧ ∀ a, a ∈ st.1.1 → neighbors a = []).
  apply (foldM_seq_invariant P) in Hrun; [exact Hrun| |].
  - repeat split; [intros i a Hi|intros a Ha]; simpl in *.
    + by rewrite lookup_nil in Hi.
    + by apply elem_of_nil in Ha.
  - intros i [[ags ri0] rng0] [[ags' ri1] rng1] _ (Hlen & Hids & Hnone) Hstep.
    simpl in *. apply initAgent_appends in Hstep as (a & -> & Hid & Hnb).
    repeat split; simpl.
    + rewrite length_app. simpl. lia.
    + intros k ak Hk. apply lookup_app_Some in Hk as [Hk|[Hge Hk]].
      * by apply Hids.
      * apply list_lookup_singleton_Some in Hk as [Hk <-]. lia.
    + intros a' [Ha'|Ha'%list_elem_of_singleton]%elem_of_app;
        [by apply Hnone|congruence].
Qed.

Lemma initAgents_inv cfg rng agents ri rng' :
  initAgents cfg rng = Returns (agents, ri, rng') → graph_inv agents.
Proof.
  intros (_ & Hids & Hnone)%initAgents_table. split; [assumption|].
  intros a b (ai & Ha & Hb). rewrite (Hnone ai) in Hb.
  - by apply elem_of_nil in Hb.
  - by eapply list_elem_of_lookup_2.
Qed.

Lemma rewireEdge_inv fuel cfg i d st st' :
  rewireEdge fuel cfg i d st = Returns st' →
  graph_inv st.1.1 → graph_inv st'.1.1.
Proof.
  destruct st as [[agents rng] current]. unfold Kernel.rewireEdge. simpl.
  destruct (uniform_real_distribution 0.0 1.0 rng) as [r rng1].
  destruct (Rlt_dec r (rewireProb cfg)); [|by intros [= <-]].
  intros (ag1 & H1 & Hrun)%bind_Returns.
  apply bind_Returns in Hrun as (ag2 & H2 & Hrun).
  apply bind_Returns in Hrun as ([newJ rng2] & _ & Hrun).
  apply bind_Returns in Hrun as (ag3 & H3 & Hrun).
  apply bind_Returns in Hrun as (ag4 & H4 & Hrun).
  injection Hrun as <-. simpl. intros [Hids Hsym]. split.
  - eauto using pushNeighbor_ids, eraseNeighbor_ids.
  - intros a b.
    rewrite !(pushNeighbor_nbr _ _ _ _ H4), !(pushNeighbor_nbr _ _ _ _ H3),
      !(eraseNeighbor_nbr _ _ _ _ H2), !(eraseNeighbor_nbr _ _ _ _ H1).
    intros [[[[Hab Hn1] Hn2]|[-> ->]]|[-> ->]]; auto.
    left. left. split; [split; [by apply Hsym|]|]; tauto.
Qed.

Lemma rewireNode_inv fuel cfg halfK i st st' :
  rewireNode fuel cfg halfK i st = Returns st' →
  graph_inv st.1 → graph_inv st'.1.
Proof.
  destruct st as [agents rng]. unfold Kernel.rewireNode. simpl.
  destruct (agents !! i) as [ai|]; [|discriminate].
  intros ([[ag1 rng1] cur1] & Hloop & Hret)%bind_Returns Hinv.
  injection Hret as <-. simpl.
  pose (P := λ st : list Agent * RngState * gset nat, graph_inv st.1.1).
  apply (foldM_invariant P) in Hloop; [exact Hloop|exact Hinv|].
  intros x d y Hx _ Hstep. by eapply rewireEdge_inv.
Qed.

Lemma rewire_inv fuel cfg halfK st st' :
  rewire fuel cfg halfK st = Returns st' → graph_inv st.1 → graph_inv st'.1.
Proof.
  unfold Kernel.rewire. intros Hrun Hinv.
  pose (P := λ st : list Agent * RngState, graph_inv st.1).
  apply (foldM_invariant P) in Hrun; [exact Hrun|exact Hinv|].
  intros x i y Hx _ Hstep. by eapply rewireNode_inv.
Qed.

Lemma buildSmallWorld_graph_ok fuel cfg agents rng agents' rng' :
  buildSmallWorld fuel cfg (agents, rng) = Returns (agents', rng') →
  graph_inv agents → graph_ok agents'.
Proof.
  unfold Kernel.buildSmallWorld.
  intros (ag1 & Hring & Hrun)%bind_Returns Hinv.
  apply bind_Returns in Hrun as ([ag2 rng2] & Hrew & Hret).
  injection Hret as <- _. apply dedupe_graph_ok.
  apply (rewire_inv _ _ _ _ _ Hrew). simpl.
  by eapply ringLattice_inv.
Qed.

Lemma reset_graph_ok fuel cfg s :
  reset fuel cfg = Returns s → graph_ok (agents_ s).
Proof.
  unfold Kernel.reset.
  intros ([[ag0 ri] rng0] & Hinit & Hrun)%bind_Returns.
  apply bind_Returns in Hrun as ([ag1 rng1] & Hbuild & Hret).
  injection Hret as <-. simpl.
  eapply buildSmallWorld_graph_ok; [exact Hbuild|].
  by eapply initAgents_inv.
Qed.

Lemma step_graph_ok s :
  graph_ok (agents_ s) →
  ∃ s', step s = Returns s' ∧ graph_ok (agents_ s').
Proof.
  intros Hok. unfold Kernel.step.
  destruct (BeliefFacts.updateBeliefs_is_Some fastTanh (cfg_ s) (agents_ s))
    as [agents' Hup].
  - intros ai j. by apply graph_ok_in_range.
  - rewrite Hup. eexists. split; [reflexivity|]. simpl.
    eapply same_graph_ok; [|exact Hok]. by eapply updateBeliefs_same_graph.
Qed.

Lemma stepLoop_graph_ok n : ∀ s,
  graph_ok (agents_ s) →
  ∃ s', stepLoop n s = Returns s' ∧ graph_ok (agents_ s').
Proof.
  induction n as [|n IH]; intros s Hok; simpl.
  - by exists s.
  - destruct (step_graph_ok s Hok) as (s1 & -> & Hok1). simpl.
    by apply IH.
Qed.

(** C5. After [reset] has built the graph, and after any number of ticks
    from there, the neighbour relation is an undirected simple graph: [j]
    is in the list of [i] exactly when [i] is in the list of [j], no list
    holds its owner's id, and no list holds an id twice.  The ticks always
    return. *)
Theorem neighbor_graph_stays_simple fuel cfg s :
  reset fuel cfg = Returns s →
  simple_graph (agents_ s)
  ∧ ∀ n, ∃ s', stepN n s = Returns s' ∧ simple_graph (agents_ s').
Proof.
  intros Hreset%reset_graph_ok. split; [by apply graph_ok_simple|].
  intros n. destruct (stepLoop_graph_ok (Z.to_nat n) s Hreset) as (s' & Hs' & Hok).
  exists s'. split; [exact Hs'|by apply graph_ok_simple].
Qed.

(** *** The fuel does not show in the result *)

Lemma pickTarget_agree N i current fuel1 : ∀ fuel2 rng r1 r2,
  pickTarget fuel1 N i current rng = Returns r1 →
  pickTarget fuel2 N i current rng = Returns r2 → r1 = r2.
Proof.
  induction fuel1 as [|fuel1 IH]; intros [|fuel2] rng r1 r2; simpl;
    try discriminate.
  destruct (uniform_int_distribution 0 (u32 (N - 1)) rng) as [z rng1].
  destruct (decide (Z.to_nat z = i ∨ Z.to_nat z ∈ current)).
  - apply IH.
  - congruence.
Qed.

(** With a single agent the loop never finds a target: the only id the
    distribution over [0, N-1] can give is the agent's own. *)
Lemma pickTarget_single_agent fuel current : ∀ rng,
  (∀ rng', (uniform_int_distribution 0 0 rng').1 = 0%Z) →
  pickTarget fuel 1 0 current rng = Unfinished.
Proof.
  intros rng Hdraw. revert rng.
  induction fuel as [|fuel IH]; intros rng; simpl; [reflexivity|].
  change (u32 (1 - 1)) with 0%Z. specialize (Hdraw rng).
  destruct (uniform_int_distribution 0 0 rng) as [z rng1]. simpl in Hdraw.
  subst z. rewrite decide_True by (by left). apply IH.
Qed.

Lemma rewireEdge_agree fuel1 fuel2 cfg i d st st1 st2 :
  rewireEdge fuel1 cfg i d st = Returns st1 →
  rewireEdge fuel2 cfg i d st = Returns st2 → st1 = st2.
Proof.
  destruct st as [[agents rng] current]. unfold Kernel.rewireEdge.
  destruct (uniform_real_distribution 0.0 1.0 rng) as [r rng1].
  destruct (Rlt_dec r (rewireProb cfg)); [|congruence].
  intros (ag1 & H1 & Hrun)%bind_Returns (ag1' & H1' & Hrun')%bind_Returns.
  rewrite H1 in H1'. injection H1' as <-.
  apply bind_Returns in Hrun as (ag2 & H2 & Hrun).
  apply bind_Returns in Hrun' as (ag2' & H2' & Hrun').
  rewrite H2 in H2'. injection H2' as <-.
  apply bind_Returns in Hrun as ([newJ rng2] & H3 & Hrun).
  apply bind_Returns in Hrun' as ([newJ' rng2'] & H3' & Hrun').
  pose proof (pickTarget_agree _ _ _ _ _ _ _ _ H3 H3') as [= <- <-].
  congruence.
Qed.

Lemma rewireNode_agree fuel1 fuel2 cfg halfK i st st1 st2 :
  rewireNode fuel1 cfg halfK i st = Returns st1 →
  rewireNode fuel2 cfg halfK i st = Returns st2 → st1 = st2.
Proof.
  destruct st as [agents rng]. unfold Kernel.rewireNode.
  destruct (agents !! i) as [ai|]; [|discriminate].
  intros ([[a1 g1] c1] & H1 & Hr1)%bind_Returns
         ([[a2 g2] c2] & H2 & Hr2)%bind_Returns.
  assert ((a1, g1, c1) = (a2, g2, c2)) as [= <- <- <-]; [|congruence].
  eapply (foldM_agree _ _ _ _ _ _ _ H1 H2).
  Unshelve. intros a b x0 y0. apply rewireEdge_agree.
Qed.

Lemma rewire_agree fuel1 fuel2 cfg halfK st st1 st2 :
  rewire fuel1 cfg halfK st = Returns st1 →
  rewire fuel2 cfg halfK st = Returns st2 → st1 = st2.
Proof.
  unfold Kernel.rewire. apply foldM_agree.
  intros a b x0 y0. apply rewireNode_agree.
Qed.

Lemma reset_agree fuel1 fuel2 cfg s1 s2 :
  reset fuel1 cfg = Returns s1 → reset fuel2 cfg = Returns s2 → s1 = s2.
Proof.
  unfold Kernel.reset.
  intros ([[ag0 ri] rng0] & Hinit & Hrun)%bind_Returns
         ([[ag0' ri'] rng0'] & Hinit' & Hrun')%bind_Returns.
  rewrite Hinit in Hinit'. injection Hinit' as <- <- <-.
  apply bind_Returns in Hrun as ([ag1 rng1] & Hbuild & Hret).
  apply bind_Returns in Hrun' as ([ag1' rng1'] & Hbuild' & Hret').
  unfold Kernel.buildSmallWorld in Hbuild, Hbuild'.
  apply bind_Returns in Hbuild as (ag2 & Hring & Hbuild).
  apply bind_Returns in Hbuild' as (ag2' & Hring' & Hbuild').
  rewrite Hring in Hring'. injection Hring' as <-.
  apply bind_Returns in Hbuild as ([ag3 rng3] & Hrew & Hb).
  apply bind_Returns in Hbuild' as ([ag3' rng3'] & Hrew' & Hb').
  pose proof (rewire_agree _ _ _ _ _ _ _ Hrew Hrew') as [= <- <-].
  congruence.
Qed.

(** C4. Two kernels built from the same configuration, seed included, are
    in the same state, and after any number [n] of steps they are again in
    one and the same state: every field of every agent ([x] and [B] among
    them) agrees.  The bound given to the rewiring loop in the model plays
    no part. *)
Theorem same_config_same_trajectory fuel1 fuel2 cfg1 cfg2 s1 s2 :
  cfg1 = cfg2 →
  reset fuel1 cfg1 = Returns s1 →
  reset fuel2 cfg2 = Returns s2 →
  ∀ n, ∃ s', stepN n s1 = Returns s' ∧ stepN n s2 = Returns s'.
Proof.
  intros <- H1 H2 n. rewrite <- (reset_agree _ _ _ _ _ H1 H2).
  destruct (stepLoop_graph_ok (Z.to_nat n) s1) as (s' & Hs' & _).
  - by eapply reset_graph_ok.
  - by exists s'.
Qed.

(** *** No configuration is turned down *)

Lemma bind_Throws {A B : Type} (m : Outcome A) (f : A → Outcome B) :
  m ≫= f = Throws → m = Throws ∨ ∃ a, m = Returns a ∧ f a = Throws.
Proof. destruct m as [a| | |]; try discriminate; eauto. Qed.

Lemma foldM_never_throws {A B : Type} (f : A → B → Outcome A) (l : list B) :
  (∀ a b, f a b ≠ Throws) → ∀ a, foldM f a l ≠ Throws.
Proof.
  intros Hf. induction l as [|b rest IH]; intros a; simpl; [discriminate|].
  intros [H|(y & _ & H)]%bind_Throws; [by apply (Hf a b)|by apply (IH y)].
Qed.

Lemma pushNeighbor_never_throws agents i j : pushNeighbor agents i j ≠ Throws.
Proof. unfold pushNeighbor. by destruct (agents !! i). Qed.

Lemma eraseNeighbor_never_throws agents i j :
  eraseNeighbor agents i j ≠ Throws.
Proof. unfold eraseNeighbor. by destruct (agents !! i). Qed.

Lemma pickTarget_never_throws N i current fuel : ∀ rng,
  pickTarget fuel N i current rng ≠ Throws.
Proof.
  induction fuel as [|fuel IH]; intros rng; simpl; [discriminate|].
  destruct (uniform_int_distribution 0 (u32 (N - 1)) rng) as [z rng1].
  destruct (decide (Z.to_nat z = i ∨ Z.to_nat z ∈ current));
    [apply IH|discriminate].
Qed.

Lemma initAgent_never_throws cfg i st : initAgent cfg i st ≠ Throws.
Proof.
  destruct st as [[agents ri] rng]. unfold Kernel.initAgent.
  repeat match goal with
         | |- context [uniform_int_distribution ?a ?b ?r] =>
             destruct (uniform_int_distribution a b r)
         | |- context [uniform_real_distribution ?a ?b ?r] =>
             destruct (uniform_real_distribution a b r)
         | |- context [normal_distribution ?a ?b ?r] =>
             destruct (normal_distribution a b r)
         | |- context [Kernel.drawBeliefs ?f ?T ?n ?r] =>
             destruct (Kernel.drawBeliefs f T n r) as [[? ?] ?]
         end.
  match goal with
  | |- context [?l !! ?n] => by destruct (l !! n)
  end.
Qed.

Lemma rewireEdge_never_throws fuel cfg i d st :
  rewireEdge fuel cfg i d st ≠ Throws.
Proof.
  destruct st as [[agents rng] current]. unfold Kernel.rewireEdge.
  destruct (uniform_real_distribution 0.0 1.0 rng) as [r rng1].
  destruct (Rlt_dec r (rewireProb cfg)); [|discriminate].
  intros [H|(ag1 & _ & H)]%bind_Throws;
    [by apply eraseNeighbor_never_throws in H|].
  apply bind_Throws in H as [H|(ag2 & _ & H)];
    [by apply eraseNeighbor_never_throws in H|].
  apply bind_Throws in H as [H|([newJ rng2] & _ & H)];
    [by apply pickTarget_never_throws in H|].
  apply bind_Throws in H as [H|(ag3 & _ & H)];
    [by apply pushNeighbor_never_throws in H|].
  apply bind_Throws in H as [H|(ag4 & _ & H)];
    [by apply pushNeighbor_never_throws in H|discriminate].
Qed.

Lemma rewireNode_never_throws fuel cfg halfK i st :
  rewireNode fuel cfg halfK i st ≠ Throws.
Proof.
  destruct st as [agents rng]. unfold Kernel.rewireNode.
  destruct (agents !! i) as [ai|]; [|discriminate].
  intros [H|([[a1 g1] c1] & _ & H)]%bind_Throws; [|discriminate].
  revert H. apply foldM_never_throws.
  intros a b. apply rewireEdge_never_throws.
Qed.

Lemma buildSmallWorld_never_throws fuel cfg st :
  buildSmallWorld fuel cfg st ≠ Throws.
Proof.
  destruct st as [agents rng]. unfold Kernel.buildSmallWorld.
  intros [H|(ag1 & _ & H)]%bind_Throws.
  - revert H. apply foldM_never_throws. intros a i.
    apply foldM_never_throws. intros a' d. unfold latticeEdge.
    intros [H|(ag & _ & H)]%bind_Throws;
      by apply pushNeighbor_never_throws in H.
  - apply bind_Throws in H as [H|([ag2 rng2] & _ & H)]; [|discriminate].
    revert H. apply foldM_never_throws.
    intros a b. apply rewireNode_never_throws.
Qed.

Lemma reset_never_throws fuel cfg : reset fuel cfg ≠ Throws.
Proof.
  unfold Kernel.reset.
  intros [H|([[ag0 ri] rng0] & _ & H)]%bind_Throws.
  - revert H. apply foldM_never_throws.
    intros a b. apply initAgent_never_throws.
  - apply bind_Throws in H as [H|([ag1 rng1] & _ & H)]; [|discriminate].
    by apply buildSmallWorld_never_throws in H.
Qed.


End WithRandom.

End GraphFacts.

(** ** Facts about the [run] command *)

Module CliFacts.

Import Kernel Cli CsvSpec GraphFacts.

Lemma append_assoc (a b c : string) : (a +:+ b) +:+ c = a +:+ (b +:+ c).
Proof.
  induction a as [|ch a IH]; [reflexivity|].
  change (String ch ((a +:+ b) +:+ c) = String ch (a +:+ (b +:+ c))).
  by rewrite IH.
Qed.

Lemma append_empty_r (a : string) : a +:+ "" = a.
Proof.
  induction a as [|ch a IH]; [reflexivity|].
  change (String ch (a +:+ "") = String ch a). by rewrite IH.
Qed.

Lemma csvHeader_kernelHeader : csvHeader = kernelHeader +:+ newline.
Proof. reflexivity. Qed.

Section WithShell.

Variable fastTanh : R → R.
Variable RngState : Type.
Variable logMetrics : State RngState → string.
Variable writable : string → bool.

Local Abbreviation step := (step fastTanh RngState).
Local Abbreviation stepLoop := (stepLoop fastTanh RngState).
Local Abbreviation stepN := (stepN fastTanh RngState).
Local Abbreviation trajectory := (trajectory fastTanh RngState).
Local Abbreviation runTick := (runTick fastTanh RngState logMetrics).
Local Abbreviation run := (run fastTanh RngState logMetrics writable).
Local Abbreviation rowsOf := (rowsOf RngState logMetrics).

Lemma rowsOf_cons k ks : rowsOf (k :: ks) = logMetrics k +:+ rowsOf ks.
Proof. reflexivity. Qed.

Lemma stepLoop_trajectory n : ∀ k k',
  stepLoop n k = Returns k' →
  ∃ ks, trajectory n k = Returns ks ∧ length ks = n ∧ last ks = 
        match n with O => None | S _ => Some k' end.
Proof.
  induction n as [|n IH]; intros k k' Hrun; simpl in Hrun.
  - exists []. by repeat split.
  - apply bind_Returns in Hrun as (k1 & Hk1 & Hrest).
    destruct (IH _ _ Hrest) as (ks & Hks & Hlen & Hlast).
    exists (k1 :: ks). simpl. rewrite Hk1. simpl. rewrite Hks. simpl.
    split; [reflexivity|]. split; [by rewrite Hlen|].
    destruct n as [|n].
    + destruct ks; [|discriminate]. injection Hrest as <-. reflexivity.
    + rewrite last_cons, Hlast. reflexivity.
Qed.

Lemma runLoop_rows logEvery n : ∀ t0 k text ks,
  logEvery ≠ 0%Z →
  trajectory n k = Returns ks →
  foldM (runTick logEvery) (k, mkStream true text) (seq t0 n)
  = Returns (default k (last ks),
             mkStream true (text +:+ rowsOf (logged RngState logEvery t0 ks))).
Proof.
  induction n as [|n IH]; intros t0 k text ks HL Htraj; simpl in Htraj.
  - injection Htraj as <-. simpl. unfold rowsOf. simpl.
    by rewrite append_empty_r.
  - apply bind_Returns in Htraj as (k1 & Hk1 & Htraj).
    apply bind_Returns in Htraj as (rest & Hrest & Hret).
    injection Hret as <-.
    assert (runTick logEvery (k, mkStream true text) t0
            = Returns (k1, if (Z.rem (Z.of_nat t0) logEvery =? 0)%Z
                           then mkStream true (text +:+ logMetrics k1)
                           else mkStream true text)) as Hhead.
    { unfold Cli.runTick. rewrite Hk1. simpl.
      destruct (Z.eqb_spec logEvery 0) as [?|_]; [contradiction|].
      by destruct (Z.rem (Z.of_nat t0) logEvery =? 0)%Z. }
    cbn [seq foldM]. rewrite Hhead. simpl.
    assert (default k (last (k1 :: rest)) = default k1 (last rest)) as ->.
    { rewrite last_cons. by destruct (last rest). }
    destruct (Z.rem (Z.of_nat t0) logEvery =? 0)%Z.
    + rewrite (IH (S t0) k1 _ rest HL Hrest).
      by rewrite rowsOf_cons, append_assoc.
    + by rewrite (IH (S t0) k1 _ rest HL Hrest).
Qed.

(** C8, as amended. For every [T] and every [logEvery ≠ 0], when the [T]
    ticks return and [data/metrics.csv] can be opened, [run T logEvery]
    leaves the kernel that [T] steps lead to and writes to
    [data/metrics.csv] the header row
    [generation,polarization_mean,polarization_std,avg_openness,avg_conformity]
    followed by one row for every tick [t] in [0, T) that [logEvery]
    divides, taken from the kernel after that tick's step. *)
Theorem run_writes_metrics T logEvery k k' files :
  logEvery ≠ 0%Z →
  writable metricsPath = true →
  stepN T k = Returns k' →
  ∃ ks, trajectory (Z.to_nat T) k = Returns ks
        ∧ run T logEvery k files
          = Returns (k', <[metricsPath :=
                             kernelHeader +:+ newline
                             +:+ rowsOf (logged RngState logEvery 0 ks)]>
                           files).
Proof.
  intros HL Hw Hsteps. unfold Kernel.stepN in Hsteps.
  destruct (stepLoop_trajectory _ _ _ Hsteps) as (ks & Hks & Hlen & Hlast).
  exists ks. split; [exact Hks|]. unfold Cli.run. rewrite Hw.
  unfold put at 1. simpl.
  rewrite (runLoop_rows logEvery _ 0 k _ ks HL Hks). simpl.
  unfold close. simpl. rewrite csvHeader_kernelHeader, append_assoc.
  do 3 f_equal. rewrite Hlast. destruct (Z.to_nat T); simpl.
  - simpl in Hsteps. congruence.
  - reflexivity.
Qed.

End WithShell.

End CliFacts.

(** ** Facts about checkpoints *)

Module SerializationFacts.

Import Serialization CheckpointSpec.

Local Open Scope Z_scope.

Lemma field_prefix off len (got rest : list byte) :
  (off + len ≤ length got)%nat → field off len (got ++ rest) = field off len got.
Proof.
  intros Hlen. unfold field. rewrite drop_app_le by lia.
  rewrite take_app_le by (rewrite length_drop; lia). reflexivity.
Qed.

Lemma field_take off len m (bs : list byte) :
  (off + len ≤ m)%nat → field off len (take m bs) = field off len bs.
Proof.
  intros Hlen. unfold field. rewrite skipn_firstn_comm, take_take.
  by rewrite Nat.min_l by lia.
Qed.

(** A file of at least [off + len] bytes fills the header field at
    [off] with its own bytes. *)
Lemma readHeader_field off len bytes :
  (off + len ≤ 40)%nat → (off + len ≤ length bytes)%nat →
  field off len
    (take 40 bytes ++ drop (length (take 40 bytes)) (headerBytes defaultHeader))
  = field off len bytes.
Proof.
  intros H40 Hlen. rewrite field_prefix by (rewrite length_take; lia).
  by apply field_take.
Qed.

Lemma readHeader_magic bytes :
  (4 ≤ length bytes)%nat →
  magic (readHeader (mkIn bytes true)).1 = le_combine (take 4 bytes).
Proof.
  intros Hlen. unfold readHeader, read. simpl.
  rewrite (readHeader_field 0 4) by lia. reflexivity.
Qed.

Lemma readHeader_version bytes :
  (8 ≤ length bytes)%nat →
  version (readHeader (mkIn bytes true)).1 = le_combine (take 4 (drop 4 bytes)).
Proof.
  intros Hlen. unfold readHeader, read. simpl.
  rewrite (readHeader_field 4 4) by lia. reflexivity.
Qed.

Section WithKernel.

Context {K : Type}.
Variable can_allocate : Z → bool.
Variable defaultAgent : Agent.

Local Abbreviation loadCheckpoint :=
  (loadCheckpoint (K := K) can_allocate defaultAgent).

(** Whatever [loadCheckpoint] returns, the kernel it returns with is the
    kernel it was given. *)
Lemma loadCheckpoint_frame kernel filepath files b kernel' :
  loadCheckpoint kernel filepath files = Returns (b, kernel') →
  kernel' = kernel.
Proof.
  unfold Serialization.loadCheckpoint.
  destruct (files !! filepath) as [bytes|]; [|congruence].
  destruct (readHeader (mkIn bytes true)) as [header input].
  destruct (negb (magic header =? CHECKPOINT_MAGIC)); [congruence|].
  destruct (negb (version header =? CHECKPOINT_VERSION)); [congruence|].
  destruct (readBody can_allocate defaultAgent header input);
    congruence.
Qed.

(** A file that is too short to hold the magic number and the version
    keeps the values the default header starts with, and is accepted: the
    empty file loads as a checkpoint with no agent and no region. *)
Lemma load_accepts_empty_file (kernel : K) filepath :
  can_allocate 0 = true →
  loadCheckpoint kernel filepath {[filepath := []]} = Returns (true, kernel).
Proof.
  intros Halloc. unfold Serialization.loadCheckpoint.
  rewrite lookup_singleton_eq. unfold readHeader, read, readBody.
  change (good (mkIn [] true)) with true. cbv iota.
  change (take 40 (unread (mkIn [] true))) with (@nil byte).
  replace (headerOfBytes ([] ++ drop (length (@nil byte))
                            (headerBytes defaultHeader)))
    with defaultHeader by (vm_compute; reflexivity).
  simpl. rewrite Halloc. reflexivity.
Qed.


(** C10. [loadCheckpoint] never changes the kernel it is given: whatever
    the file, and whether it returns [false] or [true], the kernel after
    the call is the kernel before it.  The agents and the region index it
    decodes stay in its local vectors. *)
Theorem load_leaves_kernel_unchanged (kernel : K) filepath files b kernel' :
  loadCheckpoint kernel filepath files = Returns (b, kernel') →
  kernel' = kernel.
Proof. apply loadCheckpoint_frame. Qed.

End WithKernel.

(** *** Reading back what was written *)

(** A read of [n] bytes from a stream that holds them takes exactly
    those and leaves the stream good. *)
Lemma read_exact n (old bs rest : list byte) :
  length bs = n → length old = n →
  read n old (mkIn (bs ++ rest) true) = (bs, mkIn rest true).
Proof.
  intros Hbs Hold. unfold read. simpl.
  rewrite take_app_length' by done. rewrite drop_app_length' by done.
  rewrite Hbs, drop_ge by lia. rewrite app_nil_r.
  rewrite bool_decide_true by (rewrite length_app; lia). reflexivity.
Qed.

(** What [writeBinary] wrote, [readBinary] reads back. *)
Lemma readBinary_write n old v rest :
  fits n v →
  readBinary n old (mkIn (writeBinary n v ++ rest) true)
  = Returns (v, mkIn rest true).
Proof.
  intros Hv. unfold readBinary, writeBinary.
  rewrite read_exact by apply length_le_split.
  rewrite le_combine_split, Z.mod_small by exact Hv. reflexivity.
Qed.

Lemma length_concat_le_split n (vs : list Z) :
  length (concat (le_split n <$> vs)) = (length vs * n)%nat.
Proof.
  induction vs as [|v vs IH]; [reflexivity|].
  rewrite fmap_cons, concat_cons, length_app, length_le_split, IH.
  simpl. lia.
Qed.

Lemma unpack_concat n (vs : list Z) :
  Forall (fits n) vs →
  unpack n (length vs) (concat (le_split n <$> vs)) = vs.
Proof.
  induction 1 as [|v vs Hv Hvs IH]; [reflexivity|].
  rewrite fmap_cons, concat_cons. cbn [length unpack].
  rewrite take_app_length' by (by rewrite length_le_split).
  rewrite drop_app_length' by (by rewrite length_le_split).
  rewrite le_combine_split, Z.mod_small by exact Hv. by rewrite IH.
Qed.

Lemma take_pad {A} count (vs : list A) (pad : A) :
  length vs = count → take count (vs ++ replicate count pad) = vs.
Proof. intros <-. apply take_app_length. Qed.

Lemma length_writeBinaryArray n count vs :
  length (writeBinaryArray n count vs) = (count * n)%nat.
Proof.
  unfold writeBinaryArray. rewrite length_concat_le_split, length_take.
  rewrite length_app, length_replicate. lia.
Qed.

Lemma readBinaryArray_write n count old vs rest :
  length vs = count → Forall (fits n) vs →
  readBinaryArray n count old (mkIn (writeBinaryArray n count vs ++ rest) true)
  = Returns (vs, mkIn rest true).
Proof.
  intros Hlen Hvs. unfold readBinaryArray.
  rewrite read_exact by apply length_writeBinaryArray.
  unfold writeBinaryArray. rewrite take_pad by done.
  rewrite <- Hlen, unpack_concat by done. reflexivity.
Qed.

Section Decode.

Variable can_allocate : Z → bool.
Variable defaultAgent : Agent.
Hypothesis allocates : ∀ n, can_allocate n = true.

(** A vector is read back whatever the vector it is read into held. *)
Lemma readBinaryVector_write n old vs rest :
  wf_vector n vs →
  readBinaryVector can_allocate n old
    (mkIn (writeBinaryVector n vs ++ rest) true)
  = Returns (vs, mkIn rest true).
Proof.
  intros [Hlen Hvs]. unfold readBinaryVector, writeBinaryVector, writeBinary.
  assert (u32 (Z.of_nat (length vs)) = Z.of_nat (length vs)) as ->
    by (unfold u32; apply Z.mod_small; lia).
  rewrite Nat2Z.id, firstn_all. rewrite <- app_assoc.
  cbn [good unread andb].
  rewrite bool_decide_true
    by (rewrite length_app, length_le_split; unfold sz_u32; lia).
  rewrite take_app_length' by (by rewrite length_le_split).
  rewrite drop_app_length' by (by rewrite length_le_split).
  rewrite le_combine_split, Z.mod_small by (unfold sz_u32; simpl; lia).
  rewrite allocates, Nat2Z.id.
  destruct (Z.ltb_spec 0 (Z.of_nat (length vs))) as [Hpos|Hzero].
  - rewrite read_exact.
    + by rewrite unpack_concat.
    + apply length_concat_le_split.
    + rewrite length_concat_le_split, length_take, length_app,
        length_replicate. lia.
  - destruct vs; [|simpl in Hzero; lia]. reflexivity.
Qed.

Lemma bind_returns {A B} (m : Reader A) (f : A → Reader B) input a input' :
  m input = Returns (a, input') → (m ≫= f) input = f a input'.
Proof. unfold mbind, Reader_bind. by intros ->. Qed.

(** The twenty-two fields of an agent, read back in the order written. *)
Lemma readAgent_write old a rest :
  wf_agent a →
  readAgent can_allocate old (mkIn (writeAgent a ++ rest) true)
  = Returns (a, mkIn rest true).
Proof.
  intros (?&?&?&?&?&?&?&?&?&?&?&?&?&?&?&[??]&[??]&?&?&?&?&?).
  unfold readAgent, writeAgent. rewrite <- !app_assoc.
  repeat first
    [ erewrite bind_returns by (by apply readBinary_write)
    | erewrite bind_returns by (by apply readBinaryArray_write)
    | erewrite bind_returns by (by apply readBinaryVector_write) ].
  by destruct a.
Qed.

Lemma readAgents_write (agents : list Agent) rest :
  Forall wf_agent agents →
  readAgents can_allocate defaultAgent (length agents)
    (mkIn (concat (writeAgent <$> agents) ++ rest) true)
  = Returns (agents, mkIn rest true).
Proof.
  induction 1 as [|a agents Ha Hagents IH]; [reflexivity|].
  rewrite fmap_cons, concat_cons, <- app_assoc. cbn [length readAgents].
  erewrite bind_returns by (by apply readAgent_write).
  erewrite bind_returns by exact IH. reflexivity.
Qed.

Lemma readRegionIndex_write (index : list (list Z)) rest :
  Forall (wf_vector sz_u32) index →
  readRegionIndex can_allocate (length index)
    (mkIn (concat (writeBinaryVector sz_u32 <$> index) ++ rest) true)
  = Returns (index, mkIn rest true).
Proof.
  induction 1 as [|r index Hr Hindex IH]; [reflexivity|].
  rewrite fmap_cons, concat_cons, <- app_assoc. cbn [length readRegionIndex].
  erewrite bind_returns by (by apply readBinaryVector_write).
  erewrite bind_returns by exact IH. reflexivity.
Qed.

End Decode.

Lemma field_skip k off len (a bs : list byte) :
  length a = k → field (k + off) len (a ++ bs) = field off len bs.
Proof.
  intros Ha. unfold field.
  by rewrite <- drop_drop, drop_app_length' by done.
Qed.

Lemma field_here len v (rest : list byte) :
  field 0 len (le_split len v ++ rest) = v mod 2 ^ (Z.of_nat len * 8).
Proof.
  unfold field. rewrite drop_0, take_app_length' by (by rewrite length_le_split).
  apply le_combine_split.
Qed.

Lemma length_headerBytes h : length (headerBytes h) = 40%nat.
Proof. unfold headerBytes. by rewrite !length_app, !length_le_split. Qed.

(** The forty bytes of a header decode to the header, each field cut to
    its width. *)
Lemma headerOfBytes_headerBytes h :
  headerOfBytes (headerBytes h) = wrapHeader h.
Proof.
  rewrite <- (app_nil_r (headerBytes h)).
  unfold headerOfBytes, headerBytes. rewrite <- !app_assoc.
  unfold wrapHeader. f_equal.
  - apply field_here.
  - rewrite (field_skip 4 0) by apply length_le_split. apply field_here.
  - rewrite (field_skip 4 4), (field_skip 4 0) by apply length_le_split.
    apply field_here.
  - rewrite (field_skip 4 12), (field_skip 4 8), (field_skip 8 0)
      by apply length_le_split.
    apply field_here.
  - rewrite (field_skip 4 16), (field_skip 4 12), (field_skip 8 4),
      (field_skip 4 0) by apply length_le_split.
    apply field_here.
  - rewrite (field_skip 4 20), (field_skip 4 16), (field_skip 8 8),
      (field_skip 4 4), (field_skip 4 0) by apply length_le_split.
    apply field_here.
  - rewrite (field_skip 4 28), (field_skip 4 24), (field_skip 8 16),
      (field_skip 4 12), (field_skip 4 8), (field_skip 8 0)
      by apply length_le_split.
    apply field_here.
Qed.

Lemma readHeader_write h rest :
  readHeader (mkIn (headerBytes h ++ rest) true)
  = (wrapHeader h, mkIn rest true).
Proof.
  unfold readHeader.
  rewrite read_exact by apply length_headerBytes.
  by rewrite headerOfBytes_headerBytes.
Qed.

Section RoundTrip.

Context {K : Type} `{KernelView K}.
Variable writable : string → bool.
Variable now : Z.
Variable can_allocate : Z → bool.
Variable defaultAgent : Agent.
Hypothesis allocates : ∀ n, can_allocate n = true.

(** X9. Loading what [saveCheckpoint] wrote: the header is read back, the
    body decodes to the saved kernel's agents and region index, the call
    returns [true], and the kernel it was given is returned as it was:
    what was decoded is dropped with the local vectors. *)
Lemma load_decodes_and_drops (saved target : K) filepath files :
  wf_kernel saved → writable filepath = true →
  ∃ bytes header input rest,
    saveCheckpoint writable now saved filepath files
    = (true, <[filepath := bytes]> files)
    ∧ readHeader (mkIn bytes true) = (header, input)
    ∧ readBody can_allocate defaultAgent header input
      = Returns ((agents_of saved, regionIndex_of saved), mkIn rest true)
    ∧ loadCheckpoint can_allocate defaultAgent target filepath
        (<[filepath := bytes]> files)
      = Returns (true, target).
Proof.
  intros (Hagents & Hregions & Hwf & Hindex) Hopen.
  unfold saveCheckpoint. rewrite Hopen.
  eexists _, _, _, _. split; [reflexivity|].
  unfold checkpointBytes.
  assert (u32 (Z.of_nat (length (agents_of saved)))
          = Z.of_nat (length (agents_of saved))) as ->
    by (unfold u32; apply Z.mod_small; lia).
  assert (u32 (Z.of_nat (length (regionIndex_of saved)))
          = Z.of_nat (length (regionIndex_of saved))) as ->
    by (unfold u32; apply Z.mod_small; lia).
  cbn [num_agents num_regions].
  assert (Hbody : ∀ rest,
    readBody can_allocate defaultAgent
      (wrapHeader
         (mkHeader CHECKPOINT_MAGIC CHECKPOINT_VERSION (generation_of saved)
            (Z.of_nat (length (agents_of saved)))
            (Z.of_nat (length (regionIndex_of saved))) 0 (u64 now)))
      (mkIn (concat (writeAgent <$> agents_of saved)
             ++ concat (writeBinaryVector sz_u32 <$> regionIndex_of saved)
             ++ rest) true)
    = Returns ((agents_of saved, regionIndex_of saved), mkIn rest true)).
  { intros rest. unfold readBody, wrapHeader. cbn [num_agents num_regions].
    rewrite !allocates.
    assert (u32 (Z.of_nat (length (agents_of saved)))
            = Z.of_nat (length (agents_of saved))) as ->
      by (unfold u32; apply Z.mod_small; lia).
    assert (u32 (Z.of_nat (length (regionIndex_of saved)))
            = Z.of_nat (length (regionIndex_of saved))) as ->
      by (unfold u32; apply Z.mod_small; lia).
    rewrite !Nat2Z.id.
    erewrite bind_returns by (by apply readAgents_write).
    erewrite bind_returns by (by apply readRegionIndex_write).
    reflexivity. }
  split; [apply readHeader_write|]. split; [apply Hbody|].
  unfold loadCheckpoint. rewrite lookup_insert_eq, readHeader_write.
  rewrite Hbody. reflexivity.
Qed.
End RoundTrip.

End SerializationFacts.

(** ** Facts about construction and ticks *)

Module KernelFacts.

Import Kernel GraphFacts.

Local Open Scope R_scope.

(** What the graph construction and the belief update never write. *)
Definition persona (a : Agent) :=
  (id a, region a, primaryLang a, (fluency a, openness a, conformity a),
   (assertiveness a, sociality a),
   (m_comm a, m_susceptibility a, m_mobility a)).

(** The ranges [initAgents] leaves the traits in. *)
Definition traits_ok (a : Agent) : Prop :=
  0.3 <= fluency a <= 1
  ∧ 0 <= openness a <= 1 ∧ 0 <= conformity a <= 1
  ∧ 0 <= assertiveness a <= 1 ∧ 0 <= sociality a <= 1
  ∧ m_comm a = 1
  ∧ m_susceptibility a = 0.4 + 0.6 * openness a
  ∧ m_mobility a = 0.8 + 0.4 * sociality a.

Lemma traits_ok_persona a a' : persona a' = persona a → traits_ok a → traits_ok a'.
Proof.
  unfold persona, traits_ok. intros [= ? ? ? ? ? ? ? ? ? ? ?].
  destruct a, a'; simpl in *; subst. tauto.
Qed.

(** Every agent is listed once, in the list of its own region. *)
Definition index_ok (agents : list Agent) (regionIndex : list (list nat))
    : Prop :=
  (∀ i a, agents !! i = Some a →
          ∃ ids, regionIndex !! Z.to_nat (region a) = Some ids ∧ i ∈ ids)
  ∧ (∀ r ids, regionIndex !! r = Some ids →
              NoDup ids
              ∧ ∀ i, i ∈ ids →
                     ∃ a, agents !! i = Some a ∧ Z.to_nat (region a) = r).

(** Everything of an agent but its neighbours. *)
Definition look (a : Agent) := (persona a, x a, B a).

(** Two tables that agree, agent by agent, on what [f] shows. *)
Definition same_by {A : Type} (f : Agent → A) (agents agents' : list Agent)
    : Prop :=
  f <$> agents' = f <$> agents.

Lemma same_by_lookup_r {A} (f : Agent → A) agents agents' i a' :
  same_by f agents agents' → agents' !! i = Some a' →
  ∃ a, agents !! i = Some a ∧ f a' = f a.
Proof.
  intros Hsame Ha'. apply (f_equal (.!! i)) in Hsame.
  rewrite !list_lookup_fmap, Ha' in Hsame.
  destruct (agents !! i) as [a|]; [|discriminate].
  exists a. split; [reflexivity|]. simpl in Hsame. congruence.
Qed.

Lemma same_by_lookup_l {A} (f : Agent → A) agents agents' i a :
  same_by f agents agents' → agents !! i = Some a →
  ∃ a', agents' !! i = Some a' ∧ f a' = f a.
Proof.
  intros Hsame Ha. apply (f_equal (.!! i)) in Hsame.
  rewrite !list_lookup_fmap, Ha in Hsame.
  destruct (agents' !! i) as [a'|]; [|discriminate].
  exists a'. split; [reflexivity|]. simpl in Hsame. congruence.
Qed.

Lemma same_by_elem_of {A} (f : Agent → A) agents agents' a' :
  same_by f agents agents' → a' ∈ agents' → ∃ a, a ∈ agents ∧ f a' = f a.
Proof.
  intros Hsame [i Hi]%list_elem_of_lookup.
  destruct (same_by_lookup_r f _ _ _ _ Hsame Hi) as (a & Ha & Hf).
  exists a. split; [by eapply list_elem_of_lookup_2|assumption].
Qed.

Lemma same_by_length {A} (f : Agent → A) agents agents' :
  same_by f agents agents' → length agents' = length agents.
Proof. intros H%(f_equal length). by rewrite !length_fmap in H. Qed.

Lemma same_looks_personas agents agents' :
  same_by look agents agents' → same_by persona agents agents'.
Proof.
  unfold same_by. intros H%(f_equal (fmap (λ l, l.1.1))).
  by rewrite <- !list_fmap_compose in H.
Qed.

Lemma same_looks_insert agents i a ns :
  agents !! i = Some a →
  same_by look agents (<[i := set_neighbors a ns]> agents).
Proof.
  intros Hi. unfold same_by. rewrite list_fmap_insert.
  apply list_insert_id. by rewrite list_lookup_fmap, Hi.
Qed.

Lemma pushNeighbor_looks agents i j agents' :
  pushNeighbor agents i j = Returns agents' → same_by look agents agents'.
Proof.
  unfold pushNeighbor. destruct (agents !! i) as [a|] eqn:Hi; [|discriminate].
  intros [= <-]. by apply same_looks_insert.
Qed.

Lemma eraseNeighbor_looks agents i j agents' :
  eraseNeighbor agents i j = Returns agents' → same_by look agents agents'.
Proof.
  unfold eraseNeighbor. destruct (agents !! i) as [a|] eqn:Hi; [|discriminate].
  intros [= <-]. by apply same_looks_insert.
Qed.

Lemma dedupe_looks agents : same_by look agents (dedupe agents).
Proof.
  unfold same_by, dedupe. rewrite <- list_fmap_compose.
  apply list_fmap_ext. intros i a _. reflexivity.
Qed.

Lemma index_ok_personas agents agents' ri :
  same_by persona agents agents' → index_ok agents ri → index_ok agents' ri.
Proof.
  intros Hsame [H1 H2]. split.
  - intros i a' Ha'.
    destruct (same_by_lookup_r persona _ _ _ _ Hsame Ha') as (a & Ha & Hp).
    destruct (H1 i a Ha) as (ids & Hids & Hin). exists ids.
    injection Hp as _ Hr _. by rewrite Hr.
  - intros r ids Hr. destruct (H2 r ids Hr) as [Hnd Hmem].
    split; [assumption|]. intros i Hi. destruct (Hmem i Hi) as (a & Ha & Hra).
    destruct (same_by_lookup_l persona _ _ _ _ Hsame Ha) as (a' & Ha' & Hp).
    exists a'. split; [assumption|]. injection Hp as _ Hr' _. by rewrite Hr'.
Qed.

Lemma latticeEdge_looks N i d agents agents' :
  latticeEdge N i d agents = Returns agents' → same_by look agents agents'.
Proof.
  unfold latticeEdge. intros (ag1 & H1 & H2)%bind_Returns.
  unfold same_by.
  rewrite (pushNeighbor_looks _ _ _ _ H2). by apply pushNeighbor_looks in H1.
Qed.

Lemma ringLattice_looks N halfK agents agents' :
  ringLattice N halfK agents = Returns agents' → same_by look agents agents'.
Proof.
  unfold ringLattice. intros Hrun.
  apply (foldM_invariant (same_by look agents)) in Hrun;
    [exact Hrun|reflexivity|].
  intros ag1 i ag2 H1 _ Hinner.
  apply (foldM_invariant (same_by look agents)) in Hinner;
    [exact Hinner|exact H1|].
  intros ag3 d ag4 H3 _ Hedge. unfold same_by.
  rewrite (latticeEdge_looks _ _ _ _ _ Hedge). exact H3.
Qed.

Section WithRandom.

Variable fastTanh : R → R.
Variable RngState : Type.
Variable rng_seed : Z → RngState.
Variable normal_distribution : R → R → RngState → R * RngState.
Variable uniform_real_distribution : R → R → RngState → R * RngState.
Variable uniform_int_distribution : Z → Z → RngState → Z * RngState.

Local Abbreviation initAgent :=
  (initAgent fastTanh RngState normal_distribution uniform_real_distribution
             uniform_int_distribution).
Local Abbreviation initAgents :=
  (initAgents fastTanh RngState normal_distribution uniform_real_distribution
              uniform_int_distribution).
Local Abbreviation rewireEdge :=
  (rewireEdge RngState uniform_real_distribution uniform_int_distribution).
Local Abbreviation rewireNode :=
  (rewireNode RngState uniform_real_distribution uniform_int_distribution).
Local Abbreviation rewire :=
  (rewire RngState uniform_real_distribution uniform_int_distribution).
Local Abbreviation buildSmallWorld :=
  (buildSmallWorld RngState uniform_real_distribution
                   uniform_int_distribution).
Local Abbreviation reset :=
  (reset fastTanh RngState rng_seed normal_distribution
         uniform_real_distribution uniform_int_distribution).
Local Abbreviation step := (step fastTanh RngState).
Local Abbreviation stepLoop := (stepLoop fastTanh RngState).
Local Abbreviation stepN := (stepN fastTanh RngState).

(** [B[k] = fastTanh(x[k])] for every [k]. *)
Definition follows (a : Agent) : Prop :=
  ∀ k, (k < 4)%nat → vnth (B a) k = fastTanh (vnth (x a) k).

Lemma drawBeliefs_follows rng xv bv rng' :
  drawBeliefs fastTanh RngState normal_distribution rng = (xv, bv, rng') →
  ∀ k, (k < 4)%nat → vnth bv k = fastTanh (vnth xv k).
Proof.
  unfold drawBeliefs. simpl.
  repeat match goal with
         | |- context [normal_distribution ?a ?b ?r] =>
             destruct (normal_distribution a b r)
         end.
  intros [= <- <- _] k Hk.
  destruct k as [|[|[|[|k]]]]; try lia; reflexivity.
Qed.

Lemma initAgent_spec cfg i agents ri rng agents' ri' rng' :
  initAgent cfg i (agents, ri, rng) = Returns (agents', ri', rng') →
  ∃ a ids,
    agents' = agents ++ [a] ∧ id a = i ∧ neighbors a = []
    ∧ ri !! Z.to_nat (region a) = Some ids
    ∧ ri' = <[Z.to_nat (region a) := ids ++ [i]]> ri
    ∧ traits_ok a ∧ follows a.
Proof.
  unfold Kernel.initAgent.
  repeat match goal with
         | |- context [uniform_int_distribution ?a ?b ?r] =>
             destruct (uniform_int_distribution a b r)
         | |- context [uniform_real_distribution ?a ?b ?r] =>
             destruct (uniform_real_distribution a b r)
         | |- context [normal_distribution ?a ?b ?r] =>
             destruct (normal_distribution a b r)
         end.
  match goal with
  | |- context [Kernel.drawBeliefs ?f ?T ?n ?r] =>
      destruct (Kernel.drawBeliefs f T n r) as [[xv bv] rngb] eqn:Hdraw
  end.
  match goal with
  | |- context [?l !! ?n] => destruct (l !! n) as [ids|] eqn:Hids; [|discriminate]
  end.
  intros [= <- <- _]. eexists _, ids. split; [reflexivity|]. simpl.
  split; [reflexivity|]. split; [reflexivity|]. split; [exact Hids|].
  split; [reflexivity|]. split.
  - unfold traits_ok. simpl.
    repeat match goal with
           | |- context [std_clamp ?v 0.0 1.0] =>
               let H := fresh "Hc" in
               pose proof (BeliefFacts.std_clamp_range v 0.0 1.0 ltac:(lra)) as H;
               generalize dependent (std_clamp v 0.0 1.0); intros
           end.
    match goal with
    | |- context [std_clamp ?v 0.3 1.0] =>
        pose proof (BeliefFacts.std_clamp_range v 0.3 1.0 ltac:(lra))
    end.
    repeat split; try lra.
    unfold std_clamp.
    repeat match goal with
           | |- context [Rlt_dec ?a ?b] => destruct (Rlt_dec a b)
           end; lra.
  - intros k Hk. simpl. by eapply drawBeliefs_follows.
Qed.

(** What [initAgents] establishes, agent after agent. *)
Lemma initAgents_spec cfg rng agents ri rng' :
  initAgents cfg rng = Returns (agents, ri, rng') →
  length ri = Z.to_nat (regions cfg)
  ∧ index_ok agents ri
  ∧ (∀ a, a ∈ agents → traits_ok a ∧ follows a).
Proof.
  unfold Kernel.initAgents. intros Hrun.
  pose (P := λ (n : nat) (st : list Agent * list (list nat) * RngState),
          length st.1.1 = n
          ∧ length st.1.2 = Z.to_nat (regions cfg)
          ∧ index_ok st.1.1 st.1.2
          ∧ ∀ a, a ∈ st.1.1 → traits_ok a ∧ follows a).
  apply (foldM_seq_invariant P) in Hrun; [apply Hrun| |].
  - unfold P. simpl. split; [reflexivity|]. split; [apply length_replicate|].
    split; [split|].
    + intros i a Hi. by rewrite lookup_nil in Hi.
    + intros r ids Hr. apply lookup_replicate in Hr as [-> _].
      split; [constructor|]. intros i Hi. by apply elem_of_nil in Hi.
    + intros a Ha. by apply elem_of_nil in Ha.
  - intros i [[ags ri0] rng0] [[ags' ri1] rng1] _ (Hlen & Hri & [H1 H2] & Hall)
      Hstep.
    simpl in *.
    apply initAgent_spec in Hstep
      as (a & ids & -> & Hid & _ & Hids & -> & Htr & Hfo).
    assert (Z.to_nat (region a) < length ri0)%nat as Hlt
      by (by eapply lookup_lt_Some).
    unfold P. simpl. split; [rewrite length_app; simpl; lia|].
    split; [by rewrite length_insert|]. split; [split|].
    + intros j b Hj. apply lookup_app_Some in Hj as [Hj|[Hge Hj]].
      * destruct (H1 j b Hj) as (ids' & Hids' & Hin).
        destruct (decide (Z.to_nat (region b) = Z.to_nat (region a))) as [He|Hne].
        -- exists (ids ++ [i]). rewrite He, list_lookup_insert_eq by assumption.
           split; [reflexivity|]. apply elem_of_app. left. congruence.
        -- exists ids'. by rewrite list_lookup_insert_ne by congruence.
      * apply list_lookup_singleton_Some in Hj as [Hj <-].
        exists (ids ++ [i]). rewrite list_lookup_insert_eq by assumption.
        split; [reflexivity|]. apply elem_of_app. right.
        apply list_elem_of_singleton. lia.
    + intros r ids' Hr.
      destruct (decide (r = Z.to_nat (region a))) as [->|Hne].
      * rewrite list_lookup_insert_eq in Hr by assumption. injection Hr as <-.
        destruct (H2 _ _ Hids) as [Hnd Hmem]. split.
        -- apply NoDup_app. split; [assumption|]. split; [|apply NoDup_singleton].
           intros j Hj ->%list_elem_of_singleton.
           destruct (Hmem _ Hj) as (b & Hb%lookup_lt_Some & _). lia.
        -- intros j [Hj| ->%list_elem_of_singleton]%elem_of_app.
           ++ destruct (Hmem _ Hj) as (b & Hb & Hrb). exists b.
              split; [by apply lookup_app_l_Some|assumption].
           ++ exists a. split; [|reflexivity].
              rewrite lookup_app_r by lia. by rewrite Hlen, Nat.sub_diag.
      * rewrite list_lookup_insert_ne in Hr by congruence.
        destruct (H2 _ _ Hr) as [Hnd Hmem]. split; [assumption|].
        intros j Hj. destruct (Hmem _ Hj) as (b & Hb & Hrb). exists b.
        split; [by apply lookup_app_l_Some|assumption].
    + intros b [Hb| ->%list_elem_of_singleton]%elem_of_app; [by apply Hall|].
      by split.
Qed.

Lemma rewireEdge_looks fuel cfg i d st st' :
  rewireEdge fuel cfg i d st = Returns st' → same_by look st.1.1 st'.1.1.
Proof.
  destruct st as [[agents rng] current]. unfold Kernel.rewireEdge. simpl.
  destruct (uniform_real_distribution 0.0 1.0 rng) as [r rng1].
  destruct (Rlt_dec r (rewireProb cfg)); [|by intros [= <-]].
  intros (ag1 & H1 & Hrun)%bind_Returns.
  apply bind_Returns in Hrun as (ag2 & H2 & Hrun).
  apply bind_Returns in Hrun as ([newJ rng2] & _ & Hrun).
  apply bind_Returns in Hrun as (ag3 & H3 & Hrun).
  apply bind_Returns in Hrun as (ag4 & H4 & Hrun).
  injection Hrun as <-. simpl. unfold same_by.
  rewrite (pushNeighbor_looks _ _ _ _ H4), (pushNeighbor_looks _ _ _ _ H3),
    (eraseNeighbor_looks _ _ _ _ H2).
  by apply eraseNeighbor_looks in H1.
Qed.

Lemma rewire_looks fuel cfg halfK st st' :
  rewire fuel cfg halfK st = Returns st' → same_by look st.1 st'.1.
Proof.
  unfold Kernel.rewire. intros Hrun.
  pose (P := λ s : list Agent * RngState, same_by look st.1 s.1).
  apply (foldM_invariant P) in Hrun; [exact Hrun|reflexivity|].
  intros [ag1 rng1] i [ag2 rng2] H1 _ Hnode. unfold P in *. simpl in *.
  unfold Kernel.rewireNode in Hnode.
  destruct (ag1 !! i) as [ai|]; [|discriminate].
  apply bind_Returns in Hnode as ([[ag3 rng3] cur3] & Hloop & Hret).
  injection Hret as <- _.
  pose (Q := λ s : list Agent * RngState * gset nat, same_by look st.1 s.1.1).
  apply (foldM_invariant Q) in Hloop; [exact Hloop|exact H1|].
  intros x d y Hx _ Hedge. unfold Q in *. unfold same_by.
  rewrite (rewireEdge_looks _ _ _ _ _ _ Hedge). exact Hx.
Qed.

Lemma buildSmallWorld_looks fuel cfg agents rng agents' rng' :
  buildSmallWorld fuel cfg (agents, rng) = Returns (agents', rng') →
  same_by look agents agents'.
Proof.
  unfold Kernel.buildSmallWorld.
  intros (ag1 & Hring & Hrun)%bind_Returns.
  apply bind_Returns in Hrun as ([ag2 rng2] & Hrew & Hret).
  injection Hret as <- _. unfold same_by.
  rewrite (dedupe_looks ag2). apply rewire_looks in Hrew. simpl in Hrew.
  rewrite Hrew. by apply ringLattice_looks in Hring.
Qed.

Lemma moved_same_by {A} (f : Agent → A) cfg agents agents' :
  (∀ a d, f (applyDelta fastTanh a d) = f a) →
  updateBeliefs fastTanh cfg agents = Some agents' →
  same_by f agents agents'.
Proof.
  intros Hf Hup%BeliefFacts.updateBeliefs_moved. unfold same_by.
  induction Hup as [|a a' l l' (d & _ & ->) _ IH]; [reflexivity|].
  rewrite !fmap_cons, IH, Hf. reflexivity.
Qed.

(** What holds of a kernel from [reset] on. *)
Definition kernel_ok (cfg : KernelConfig) (s : State RngState) : Prop :=
  cfg_ s = cfg
  ∧ graph_ok (agents_ s)
  ∧ length (agents_ s) = Z.to_nat (population cfg)
  ∧ length (regionIndex_ s) = Z.to_nat (regions cfg)
  ∧ index_ok (agents_ s) (regionIndex_ s)
  ∧ (∀ a, a ∈ agents_ s → traits_ok a ∧ follows a)
  ∧ generation_ s = u64 (generation_ s).

Lemma reset_kernel_ok fuel cfg s :
  reset fuel cfg = Returns s → kernel_ok cfg s ∧ generation_ s = 0%Z.
Proof.
  intros Hreset. pose proof Hreset as Hgraph. apply reset_graph_ok in Hgraph.
  unfold Kernel.reset in Hreset.
  apply bind_Returns in Hreset as ([[ag0 ri] rng0] & Hinit & Hrun).
  apply bind_Returns in Hrun as ([ag1 rng1] & Hbuild & Hret).
  injection Hret as <-. simpl in *.
  pose proof Hinit as Hlen. apply initAgents_table in Hlen as (Hlen & _ & _).
  destruct (initAgents_spec _ _ _ _ _ Hinit) as (Hri & Hidx & Hall).
  apply buildSmallWorld_looks in Hbuild.
  split; [|reflexivity].
  split; [reflexivity|]. split; [assumption|]. simpl.
  split; [by rewrite (same_by_length _ _ _ Hbuild)|].
  split; [assumption|].
  split; [apply (index_ok_personas ag0);
          [by apply same_looks_personas|assumption]|].
  split; [|reflexivity].
  intros a Ha.
  destruct (same_by_elem_of _ _ _ _ Hbuild Ha) as (a0 & Ha0 & Hlook).
  pose proof (f_equal (λ l, l.1.1) Hlook) as Hp.
  pose proof (f_equal (λ l, l.1.2) Hlook) as Hx.
  pose proof (f_equal snd Hlook) as HB. simpl in Hp, Hx, HB.
  split.
  - eapply traits_ok_persona; [exact Hp|]. by apply Hall.
  - intros k Hk. rewrite HB, Hx. by apply Hall.
Qed.

Lemma step_kernel_ok cfg s :
  kernel_ok cfg s →
  ∃ s', step s = Returns s' ∧ kernel_ok cfg s'
        ∧ generation_ s' = u64 (generation_ s + 1).
Proof.
  intros (Hcfg & Hgraph & Hlen & Hri & Hidx & Hall & Hgen).
  destruct (step_graph_ok fastTanh RngState s Hgraph) as (s' & Hstep & Hgraph').
  exists s'. split; [assumption|]. unfold Kernel.step in Hstep.
  destruct (updateBeliefs fastTanh (cfg_ s) (agents_ s)) as [agents'|] eqn:Hup;
    [|discriminate].
  injection Hstep as <-. simpl in *.
  pose proof (moved_same_by persona _ _ _ (λ _ _, eq_refl) Hup) as Hsame.
  split; [|reflexivity].
  split; [assumption|]. split; [assumption|]. simpl.
  split; [by rewrite (same_by_length _ _ _ Hsame)|].
  split; [assumption|].
  split; [by apply (index_ok_personas (agents_ s))|].
  split; [|unfold u64; by rewrite Z.mod_mod].
  intros a Ha. split.
  - destruct (same_by_elem_of _ _ _ _ Hsame Ha) as (a0 & Ha0 & Hp).
    eapply traits_ok_persona; [exact Hp|]. by apply Hall.
  - apply list_elem_of_lookup in Ha as [i Hi].
    destruct (Forall2_lookup_r _ _ _ _ _
                (BeliefFacts.updateBeliefs_moved _ _ _ _ Hup) Hi)
      as (a0 & _ & d & _ & ->).
    intros k Hk.
    by rewrite BeliefFacts.applyDelta_B, BeliefFacts.applyDelta_x.
Qed.

Lemma stepLoop_kernel_ok cfg n : ∀ s,
  kernel_ok cfg s →
  ∃ s', stepLoop n s = Returns s' ∧ kernel_ok cfg s'
        ∧ generation_ s' = u64 (generation_ s + Z.of_nat n).
Proof.
  induction n as [|n IH]; intros s Hok.
  - exists s. split; [reflexivity|]. split; [assumption|].
    rewrite Z.add_0_r. apply Hok.
  - destruct (step_kernel_ok cfg s Hok) as (s1 & Hs1 & Hok1 & Hg1).
    destruct (IH s1 Hok1) as (s' & Hs' & Hok' & Hg').
    exists s'. split; [simpl; by rewrite Hs1|]. split; [assumption|].
    rewrite Hg', Hg1. unfold u64.
    rewrite Zplus_mod_idemp_l. f_equal. lia.
Qed.

(** X1. After [reset], and after any number of ticks from there, the
    agent table holds [population] agents and the region index
    [regions] lists; the agent at index [i] has id [i] and is listed in
    the list of its region; and every list names, without repeats, only
    agents of its region. *)
Theorem reset_fills_table_and_index fuel cfg s :
  reset fuel cfg = Returns s →
  ∀ n, ∃ s',
    stepN n s = Returns s'
    ∧ length (agents_ s') = Z.to_nat (population cfg)
    ∧ length (regionIndex_ s') = Z.to_nat (regions cfg)
    ∧ (∀ i a, agents_ s' !! i = Some a →
              id a = i
              ∧ ∃ ids, regionIndex_ s' !! Z.to_nat (region a) = Some ids
                       ∧ i ∈ ids)
    ∧ (∀ r ids, regionIndex_ s' !! r = Some ids →
                NoDup ids
                ∧ ∀ i, i ∈ ids →
                       ∃ a, agents_ s' !! i = Some a
                            ∧ Z.to_nat (region a) = r).
Proof.
  intros [Hok _]%reset_kernel_ok n.
  destruct (stepLoop_kernel_ok cfg (Z.to_nat n) s Hok)
    as (s' & Hs' & (_ & Hgraph & Hlen & Hri & [H1 H2] & _) & _).
  exists s'. split; [exact Hs'|]. split; [assumption|]. split; [assumption|].
  split; [|assumption].
  intros i a Ha. split; [|by apply H1].
  destruct Hgraph as ([Hids _] & _). by apply Hids.
Qed.

(** X2. After [reset], and after any number of ticks from there, every
    agent has a fluency in [0.3, 1], its four traits in [0, 1], and the
    multipliers [m_comm = 1], [m_susceptibility = 0.4 + 0.6 * openness]
    (the clamp to [0.4, 1.2] never acts) and
    [m_mobility = 0.8 + 0.4 * sociality]. *)
Theorem traits_stay_in_range fuel cfg s :
  reset fuel cfg = Returns s →
  ∀ n, ∃ s',
    stepN n s = Returns s'
    ∧ ∀ a, a ∈ agents_ s' →
           0.3 <= fluency a <= 1
           ∧ 0 <= openness a <= 1 ∧ 0 <= conformity a <= 1
           ∧ 0 <= assertiveness a <= 1 ∧ 0 <= sociality a <= 1
           ∧ m_comm a = 1
           ∧ m_susceptibility a = 0.4 + 0.6 * openness a
           ∧ m_mobility a = 0.8 + 0.4 * sociality a.
Proof.
  intros [Hok _]%reset_kernel_ok n.
  destruct (stepLoop_kernel_ok cfg (Z.to_nat n) s Hok)
    as (s' & Hs' & (_ & _ & _ & _ & _ & Hall & _) & _).
  exists s'. split; [exact Hs'|]. intros a Ha. by apply Hall.
Qed.

(** X4. After [reset], and after any number of ticks from there, the
    beliefs of every agent are the image of its internal state:
    [B[k] = fastTanh(x[k])] for [k] in 0..3. *)
Theorem beliefs_follow_internal_state fuel cfg s :
  reset fuel cfg = Returns s →
  ∀ n, ∃ s',
    stepN n s = Returns s'
    ∧ ∀ a k, a ∈ agents_ s' → (k < 4)%nat →
             vnth (B a) k = fastTanh (vnth (x a) k).
Proof.
  intros [Hok _]%reset_kernel_ok n.
  destruct (stepLoop_kernel_ok cfg (Z.to_nat n) s Hok)
    as (s' & Hs' & (_ & _ & _ & _ & _ & Hall & _) & _).
  exists s'. split; [exact Hs'|]. intros a k Ha. by apply Hall.
Qed.

Lemma step_frame s s' :
  step s = Returns s' →
  cfg_ s' = cfg_ s ∧ rng_ s' = rng_ s ∧ regionIndex_ s' = regionIndex_ s
  ∧ generation_ s' = u64 (generation_ s + 1)
  ∧ same_by (λ a, (persona a, neighbors a)) (agents_ s) (agents_ s').
Proof.
  unfold Kernel.step.
  destruct (updateBeliefs fastTanh (cfg_ s) (agents_ s)) as [agents'|] eqn:Hup;
    [|discriminate].
  intros [= <-]. simpl. repeat split.
  by apply (moved_same_by _ (cfg_ s)).
Qed.

Lemma stepLoop_frame n : ∀ s s',
  stepLoop n s = Returns s' →
  cfg_ s' = cfg_ s ∧ rng_ s' = rng_ s ∧ regionIndex_ s' = regionIndex_ s
  ∧ u64 (generation_ s') = u64 (generation_ s + Z.of_nat n)
  ∧ same_by (λ a, (persona a, neighbors a)) (agents_ s) (agents_ s').
Proof.
  induction n as [|n IH]; intros s s' Hrun; simpl in Hrun.
  - injection Hrun as <-. rewrite Z.add_0_r. by repeat split.
  - apply bind_Returns in Hrun as (s1 & Hs1 & Hrun).
    apply step_frame in Hs1 as (Hc1 & Hr1 & Hi1 & Hg1 & Ha1).
    apply IH in Hrun as (Hc & Hr & Hi & Hg & Ha).
    split; [congruence|]. split; [congruence|]. split; [congruence|]. split.
    + rewrite Hg, Hg1. unfold u64. rewrite Zplus_mod_idemp_l. f_equal. lia.
    + unfold same_by in *. congruence.
Qed.

(** X3. Ticks change nothing but the beliefs and the counter: [stepN]
    leaves the configuration, the engine state and the region index as
    they were, adds the number of ticks to the generation (modulo 2^64),
    and leaves every agent its id, region, language, fluency, traits,
    multipliers and neighbours. *)
Theorem ticks_change_beliefs_only n s s' :
  stepN n s = Returns s' →
  cfg_ s' = cfg_ s ∧ rng_ s' = rng_ s ∧ regionIndex_ s' = regionIndex_ s
  ∧ u64 (generation_ s') = u64 (generation_ s + Z.max 0 n)
  ∧ Forall2 (λ a a',
               id a' = id a ∧ region a' = region a
               ∧ primaryLang a' = primaryLang a ∧ fluency a' = fluency a
               ∧ openness a' = openness a ∧ conformity a' = conformity a
               ∧ assertiveness a' = assertiveness a
               ∧ sociality a' = sociality a ∧ m_comm a' = m_comm a
               ∧ m_susceptibility a' = m_susceptibility a
               ∧ m_mobility a' = m_mobility a
               ∧ neighbors a' = neighbors a)
            (agents_ s) (agents_ s').
Proof.
  unfold Kernel.stepN. intros (Hc & Hr & Hi & Hg & Ha)%stepLoop_frame.
  split; [assumption|]. split; [assumption|]. split; [assumption|].
  split; [rewrite Hg; f_equal; lia|].
  apply Forall2_same_length_lookup. split; [symmetry; by eapply same_by_length|].
  intros i a a' Hia Hia'.
  destruct (same_by_lookup_r _ _ _ _ _ Ha Hia') as (a0 & Ha0 & Heq).
  assert (a0 = a) as -> by congruence.
  unfold persona in Heq. injection Heq as -> -> -> -> -> -> -> -> -> -> -> ->.
  by repeat split.
Qed.

End WithRandom.

(** *** The similarity gate *)

Import PairwiseSpec.

Lemma cauchy_schwarz4 u v : dot4 u v * dot4 u v <= dot4 u u * dot4 v v.
Proof.
  unfold dot4. destruct u as [u0 u1 u2 u3], v as [v0 v1 v2 v3]. simpl.
  assert (∀ a : R, 0 <= a * a) as Hsq by (intros; nra).
  pose proof (Hsq (u0 * v1 - u1 * v0)). pose proof (Hsq (u0 * v2 - u2 * v0)).
  pose proof (Hsq (u0 * v3 - u3 * v0)). pose proof (Hsq (u1 * v2 - u2 * v1)).
  pose proof (Hsq (u1 * v3 - u3 * v1)). pose proof (Hsq (u2 * v3 - u3 * v2)).
  replace ((u0 * u0 + u1 * u1 + u2 * u2 + u3 * u3)
           * (v0 * v0 + v1 * v1 + v2 * v2 + v3 * v3))
    with ((u0 * v0 + u1 * v1 + u2 * v2 + u3 * v3)
          * (u0 * v0 + u1 * v1 + u2 * v2 + u3 * v3)
          + (u0 * v1 - u1 * v0) * (u0 * v1 - u1 * v0)
          + (u0 * v2 - u2 * v0) * (u0 * v2 - u2 * v0)
          + (u0 * v3 - u3 * v0) * (u0 * v3 - u3 * v0)
          + (u1 * v2 - u2 * v1) * (u1 * v2 - u2 * v1)
          + (u1 * v3 - u3 * v1) * (u1 * v3 - u3 * v1)
          + (u2 * v3 - u3 * v2) * (u2 * v3 - u3 * v2)) by ring.
  lra.
Qed.

Lemma cosine_range u v : -1 <= cosine u v <= 1.
Proof.
  unfold cosine, norm4.
  destruct (Rlt_dec 0 (dot4 u u)) as [Hu|Hu];
    [destruct (Rlt_dec 0 (dot4 v v)) as [Hv|Hv]|].
  - pose proof (sqrt_lt_R0 _ Hu) as Hsu. pose proof (sqrt_lt_R0 _ Hv) as Hsv.
    pose proof (sqrt_sqrt (dot4 u u) ltac:(lra)) as Hqu.
    pose proof (sqrt_sqrt (dot4 v v) ltac:(lra)) as Hqv.
    pose proof (cauchy_schwarz4 u v) as Hcs.
    apply BeliefFacts.quotient_in_unit; [nra|].
    assert (dot4 u v * dot4 u v
            <= (sqrt (dot4 u u) * sqrt (dot4 v v))
               * (sqrt (dot4 u u) * sqrt (dot4 v v))) as Hle.
    { replace ((sqrt (dot4 u u) * sqrt (dot4 v v))
               * (sqrt (dot4 u u) * sqrt (dot4 v v)))
        with ((sqrt (dot4 u u) * sqrt (dot4 u u))
              * (sqrt (dot4 v v) * sqrt (dot4 v v))) by ring.
      by rewrite Hqu, Hqv. }
    assert (0 < sqrt (dot4 u u) * sqrt (dot4 v v)) as Hq by nra.
    split; nra.
  - rewrite (BeliefFacts.dot4_comm u v), (BeliefFacts.dot4_zero_l _ _ Hv).
    unfold Rdiv. lra.
  - rewrite (BeliefFacts.dot4_zero_l _ _ Hu). unfold Rdiv. lra.
Qed.

(** X6. The similarity gate is symmetric in the two agents, never below
    [simFloor] and never negative, and at most 1 once [simFloor] is. *)
Theorem similarityGate_range cfg i j :
  similarityGate cfg i j = similarityGate cfg j i
  ∧ simFloor cfg <= similarityGate cfg i j
  ∧ 0 <= similarityGate cfg i j
  ∧ (simFloor cfg <= 1 → similarityGate cfg i j <= 1).
Proof.
  rewrite !BeliefFacts.similarityGate_spec. unfold sim.
  assert (cosine (B i) (B j) = cosine (B j) (B i)) as Hsym.
  { unfold cosine. rewrite (BeliefFacts.dot4_comm (B i) (B j)).
    f_equal. apply Rmult_comm. }
  pose proof (cosine_range (B i) (B j)) as Hc.
  split; [by rewrite Hsym|]. unfold Rmax.
  destruct (Rle_dec (0.5 * (1 + cosine (B i) (B j))) (simFloor cfg));
    repeat split; intros; lra.
Qed.

(** *** Consensus *)

Section Consensus.

Variable th : R → R.
Variable cfg : KernelConfig.
Hypothesis th_0 : th 0 = 0.

Lemma accumulate_same_beliefs ai aj acc :
  B aj = B ai → accumulate th cfg ai aj acc = acc.
Proof.
  intros HB. apply VecFacts.vec4_eq. intros k Hk.
  rewrite BeliefFacts.accumulate_nth by assumption.
  unfold contribution. rewrite HB, Rminus_diag, th_0. lra.
Qed.

Lemma neighborLoop_same_beliefs agents ai jids : ∀ acc,
  (∀ j, j ∈ jids → ∃ aj, agents !! j = Some aj ∧ B aj = B ai) →
  neighborLoop th cfg agents ai jids acc = Some acc.
Proof.
  induction jids as [|j rest IH]; intros acc Hall; simpl; [reflexivity|].
  destruct (Hall j) as (aj & -> & HB); [apply list_elem_of_here|].
  rewrite accumulate_same_beliefs by assumption.
  apply IH. intros j' Hj'. by apply Hall, list_elem_of_further.
Qed.

Lemma applyDelta_zero a :
  (∀ k, (k < 4)%nat → vnth (B a) k = th (vnth (x a) k)) →
  applyDelta th a zero = a.
Proof.
  intros Hfo.
  pose proof (Hfo 0%nat ltac:(lia)) as H0. pose proof (Hfo 1%nat ltac:(lia)) as H1.
  pose proof (Hfo 2%nat ltac:(lia)) as H2. pose proof (Hfo 3%nat ltac:(lia)) as H3.
  destruct a as [? ? ? ? ? ? ? ? [x0 x1 x2 x3] [b0 b1 b2 b3] ? ? ? ?].
  simpl in *. unfold applyDelta. simpl. rewrite !Rplus_0_r.
  by rewrite <- H0, <- H1, <- H2, <- H3.
Qed.

(** X5. Consensus is a fixed point of the belief update: when the
    activation function maps 0 to 0, every agent holds the beliefs of
    each of its neighbours, and [B = fastTanh(x)] holds to begin with,
    [updateBeliefs] returns the table it was given. *)
Theorem consensus_is_a_fixed_point agents :
  (∀ a j, a ∈ agents → j ∈ neighbors a →
          ∃ aj, agents !! j = Some aj ∧ B aj = B a) →
  (∀ a k, a ∈ agents → (k < 4)%nat → vnth (B a) k = th (vnth (x a) k)) →
  updateBeliefs th cfg agents = Some agents.
Proof.
  intros Hnb Hfo. rewrite BeliefFacts.updateBeliefs_perAgent.
  unfold BeliefFacts.perAgent. apply mapM_Some_2, Forall_Forall2_diag.
  apply Forall_forall. intros a Ha. unfold agentDelta.
  rewrite neighborLoop_same_beliefs by (intros j Hj; by apply Hnb).
  simpl. f_equal. apply applyDelta_zero. intros k Hk. by apply Hfo.
Qed.

End Consensus.

End KernelFacts.

(** ** Facts about the metrics *)

Module MetricsFacts.

Import Kernel GraphFacts KernelFacts.

Local Open Scope R_scope.

Lemma sum_between {A} (f : A → R) lo hi (l : list A) : ∀ s0,
  (∀ a, a ∈ l → lo <= f a <= hi) →
  s0 + INR (length l) * lo <= foldl (λ s a, s + f a) s0 l
  <= s0 + INR (length l) * hi.
Proof.
  induction l as [|a l IH]; intros s0 Hall.
  - simpl. lra.
  - cbn [foldl length]. rewrite S_INR.
    pose proof (Hall a (list_elem_of_here _ _)) as Ha.
    specialize (IH (s0 + f a) (λ b Hb, Hall b (list_elem_of_further _ _ _ Hb))).
    nra.
Qed.

Lemma mean_between {A} (f : A → R) lo hi (l : list A) :
  l ≠ [] → (∀ a, a ∈ l → lo <= f a <= hi) →
  lo <= foldl (λ s a, s + f a) 0 l / INR (length l) <= hi.
Proof.
  intros Hne Hall. pose proof (sum_between f lo hi l 0 Hall) as Hsum.
  assert (0 < INR (length l)) as Hpos.
  { apply lt_0_INR. destruct l; [congruence|simpl; lia]. }
  split; apply (Rmult_le_reg_r (INR (length l))); try lra;
    unfold Rdiv; rewrite Rmult_assoc, Rinv_l by lra; lra.
Qed.

(** Every component is between [-m] and [m]. *)
Definition within (m : R) (c : Vec4) : Prop :=
  ∀ k, (k < 4)%nat → - m <= vnth c k <= m.

Lemma addBeliefs_within agents ids : ∀ c c' m,
  (∀ a, a ∈ agents → within 1 (B a)) →
  within m c →
  foldM (addBeliefs agents) c ids = Returns c' →
  within (m + INR (length ids)) c'.
Proof.
  induction ids as [|i ids IH]; intros c c' m HB Hc Hrun.
  - injection Hrun as <-. simpl. by rewrite Rplus_0_r.
  - simpl in Hrun. apply bind_Returns in Hrun as (c1 & Hadd & Hrun).
    unfold addBeliefs in Hadd.
    destruct (agents !! i) as [a|] eqn:Hi; [|discriminate].
    injection Hadd as <-.
    cbn [length]. rewrite S_INR.
    replace (m + (INR (length ids) + 1)) with ((m + 1) + INR (length ids))
      by ring.
    eapply IH; [exact HB| |exact Hrun].
    pose proof (HB a (list_elem_of_lookup_2 _ _ _ Hi)) as Ha.
    intros k Hk. specialize (Hc k Hk). specialize (Ha k Hk).
    destruct c as [c0 c1' c2 c3], (B a) as [b0 b1 b2 b3].
    destruct k as [|[|[|[|k]]]]; try lia; simpl in *; lra.
Qed.

Lemma addBeliefs_returns agents ids : ∀ c,
  (∀ i, i ∈ ids → (i < length agents)%nat) →
  ∃ c', foldM (addBeliefs agents) c ids = Returns c'.
Proof.
  induction ids as [|i ids IH]; intros c Hin; [by eexists|].
  assert (∃ c1, addBeliefs agents c i = Returns c1) as [c1 Hc1].
  { unfold addBeliefs.
    destruct (lookup_lt_is_Some_2 agents i) as [a ->];
      [apply Hin, list_elem_of_here|]. by eexists. }
  cbn [foldM]. rewrite Hc1. simpl. apply IH. intros j Hj. by apply Hin, list_elem_of_further.
Qed.

Lemma scale_within n c :
  0 < n → within n c →
  within 1 (foldl (λ c k, vset c k (vnth c k / n)) c dims).
Proof.
  intros Hn Hc.
  pose proof (Hc 0%nat ltac:(lia)) as H0. pose proof (Hc 1%nat ltac:(lia)) as H1.
  pose proof (Hc 2%nat ltac:(lia)) as H2. pose proof (Hc 3%nat ltac:(lia)) as H3.
  destruct c as [c0 c1' c2 c3]. simpl in *.
  intros k Hk.
  destruct k as [|[|[|[|k]]]]; try lia; simpl;
    apply BeliefFacts.quotient_in_unit; lra.
Qed.

Lemma to_int_small (n : nat) : (Z.of_nat n < 2 ^ 31)%Z → to_int (Z.of_nat n) = Z.of_nat n.
Proof. intros Hn. unfold to_int. rewrite Z.mod_small; lia. Qed.

(** What the first loop stores for a region: a centroid within the unit
    cube, unless the region is empty (and its count 0). *)
Definition centroid_ok (cn : Vec4 * Z) : Prop := cn.2 = 0%Z ∨ within 1 cn.1.

Lemma regionCentroid_ok agents ri r ids :
  (∀ a, a ∈ agents → within 1 (B a)) →
  ri !! r = Some ids →
  (∀ i, i ∈ ids → (i < length agents)%nat) →
  (Z.of_nat (length ids) < 2 ^ 31)%Z →
  ∃ cn, regionCentroid agents ri r = Returns cn ∧ centroid_ok cn.
Proof.
  intros HB Hr Hin Hsmall. unfold regionCentroid. rewrite Hr.
  destruct (addBeliefs_returns agents ids zero Hin) as [c Hc]. rewrite Hc.
  simpl. eexists. split; [reflexivity|]. rewrite to_int_small by assumption.
  unfold centroid_ok. simpl.
  destruct (Z.ltb_spec 0 (Z.of_nat (length ids))) as [Hpos|Hzero].
  - right. apply scale_within; [apply IZR_lt in Hpos; exact Hpos|].
    rewrite <- INR_IZR_INZ.
    replace (INR (length ids)) with (0 + INR (length ids)) by ring.
    eapply addBeliefs_within; [exact HB| |exact Hc].
    intros k Hk. destruct k as [|[|[|[|k]]]]; try lia; simpl; lra.
  - left. lia.
Qed.

Lemma centroidDistance_range ci cj :
  within 1 ci → within 1 cj → 0 <= centroidDistance ci cj <= 4.
Proof.
  intros Hi Hj. unfold centroidDistance. split; [apply sqrt_pos|].
  pose proof (Hi 0%nat ltac:(lia)). pose proof (Hi 1%nat ltac:(lia)).
  pose proof (Hi 2%nat ltac:(lia)). pose proof (Hi 3%nat ltac:(lia)).
  pose proof (Hj 0%nat ltac:(lia)). pose proof (Hj 1%nat ltac:(lia)).
  pose proof (Hj 2%nat ltac:(lia)). pose proof (Hj 3%nat ltac:(lia)).
  destruct ci as [a0 a1 a2 a3], cj as [b0 b1 b2 b3]. simpl in *.
  rewrite <- (sqrt_square 4) by lra. apply sqrt_le_1_alt. nra.
Qed.

Lemma distancesFrom_range ci later : ∀ dists,
  within 1 ci → Forall centroid_ok later →
  Forall (λ d, 0 <= d <= 4) dists →
  Forall (λ d, 0 <= d <= 4)
         (foldl (λ dists '(cj, nj),
                   if (nj =? 0)%Z then dists
                   else dists ++ [centroidDistance ci cj])
                dists later).
Proof.
  induction later as [|[cj nj] later IH]; intros dists Hi Hl Hd; [exact Hd|].
  simpl. apply Forall_cons in Hl as [Hcj Hl].
  apply IH; [assumption|assumption|].
  destruct (Z.eqb_spec nj 0) as [_|Hne]; [assumption|].
  apply Forall_app. split; [assumption|]. apply Forall_singleton.
  destruct Hcj as [Hz|Hw]; [simpl in Hz; lia|].
  by apply centroidDistance_range.
Qed.

Lemma pairwiseDistances_range cs :
  Forall centroid_ok cs → Forall (λ d, 0 <= d <= 4) (pairwiseDistances cs).
Proof.
  induction cs as [|[ci ni] cs IH]; intros Hall; [constructor|].
  apply Forall_cons in Hall as [Hci Hcs]. simpl. apply Forall_app.
  split; [|by apply IH].
  destruct (Z.eqb_spec ni 0) as [_|Hne]; [constructor|].
  destruct Hci as [Hz|Hw]; [simpl in Hz; lia|].
  by apply distancesFrom_range.
Qed.

Lemma centroids_ok agents ri rs : ∀ filled,
  (∀ a, a ∈ agents → within 1 (B a)) →
  (∀ r, r ∈ rs →
        ∃ ids, ri !! r = Some ids
               ∧ (∀ i, i ∈ ids → (i < length agents)%nat)
               ∧ (Z.of_nat (length ids) < 2 ^ 31)%Z) →
  Forall centroid_ok filled →
  ∃ cs,
    foldM (λ filled r,
             cn ← regionCentroid agents ri r; Returns (filled ++ [cn]))
          filled rs = Returns cs
    ∧ Forall centroid_ok cs.
Proof.
  induction rs as [|r rs IH]; intros filled HB Hrs Hfilled; [by eexists|].
  destruct (Hrs r (list_elem_of_here _ _)) as (ids & Hr & Hin & Hsmall).
  destruct (regionCentroid_ok agents ri r ids HB Hr Hin Hsmall)
    as (cn & Hcn & Hok).
  cbn [foldM]. rewrite Hcn. simpl. apply IH; [assumption| |].
  - intros r' Hr'. by apply Hrs, list_elem_of_further.
  - apply Forall_app. split; [assumption|by apply Forall_singleton].
Qed.

Lemma NoDup_below_length (ids : list nat) n :
  NoDup ids → (∀ i, i ∈ ids → (i < n)%nat) → (length ids <= n)%nat.
Proof.
  intros Hnd Hin. transitivity (length (seq 0 n)); [|by rewrite length_seq].
  apply submseteq_length.
  apply NoDup_submseteq; [assumption|].
  intros i Hi. apply elem_of_seq. specialize (Hin i Hi). lia.
Qed.

Section WithRandom.

Variable fastTanh : R → R.
Variable RngState : Type.
Variable rng_seed : Z → RngState.
Variable normal_distribution : R → R → RngState → R * RngState.
Variable uniform_real_distribution : R → R → RngState → R * RngState.
Variable uniform_int_distribution : Z → Z → RngState → Z * RngState.
Variable defaultMetrics : Metrics.

Local Abbreviation reset :=
  (reset fastTanh RngState rng_seed normal_distribution
         uniform_real_distribution uniform_int_distribution).
Local Abbreviation stepN := (stepN fastTanh RngState).
Local Abbreviation computeMetrics := (computeMetrics RngState defaultMetrics).

Hypothesis fastTanh_range : ∀ v, -1 <= fastTanh v <= 1.

Lemma computeMetrics_ok cfg s :
  (0 < population cfg < 2 ^ 31)%Z →
  kernel_ok fastTanh RngState cfg s →
  ∃ m, computeMetrics s = Returns m
       ∧ 0 <= avgOpenness m <= 1 ∧ 0 <= avgConformity m <= 1
       ∧ ((polarizationMean m = polarizationMean defaultMetrics
           ∧ polarizationStd m = polarizationStd defaultMetrics)
          ∨ (0 <= polarizationMean m <= 4 ∧ 0 <= polarizationStd m)).
Proof.
  intros Hpop (Hcfg & Hgraph & Hlen & Hri & [H1 H2] & Hall & _).
  assert (∀ a, a ∈ agents_ s → within 1 (B a)) as HB.
  { intros a Ha k Hk. destruct (Hall a Ha) as [_ Hfo].
    rewrite Hfo by assumption. replace (- (1)) with (-1) by ring.
    apply fastTanh_range. }
  destruct (centroids_ok (agents_ s) (regionIndex_ s)
              (seq 0 (Z.to_nat (regions (cfg_ s)))) [] HB) as (cs & Hcs & Hok).
  { intros r Hr%elem_of_seq.
    destruct (lookup_lt_is_Some_2 (regionIndex_ s) r) as [ids Hids];
      [rewrite Hri, <- Hcfg; lia|].
    exists ids. split; [assumption|].
    destruct (H2 r ids Hids) as [Hnd Hmem].
    assert (∀ i, i ∈ ids → (i < length (agents_ s))%nat) as Hin.
    { intros i Hi. destruct (Hmem i Hi) as (a & Ha & _).
      by eapply lookup_lt_Some. }
    split; [assumption|].
    pose proof (NoDup_below_length ids _ Hnd Hin). lia. }
  { constructor. }
  assert (agents_ s ≠ []) as Hne.
  { intros Hnil. rewrite Hnil in Hlen. simpl in Hlen. lia. }
  assert (0 <= foldl (λ s a, s + openness a) 0.0 (agents_ s)
               / INR (length (agents_ s)) <= 1) as Hop.
  { replace 0.0 with 0 by lra. apply (mean_between openness); [assumption|].
    intros a Ha. apply Hall in Ha as [Ht _]. unfold traits_ok in Ht. tauto. }
  assert (0 <= foldl (λ s a, s + conformity a) 0.0 (agents_ s)
               / INR (length (agents_ s)) <= 1) as Hco.
  { replace 0.0 with 0 by lra. apply (mean_between conformity); [assumption|].
    intros a Ha. apply Hall in Ha as [Ht _]. unfold traits_ok in Ht. tauto. }
  pose proof (pairwiseDistances_range cs Hok) as Hd.
  assert (pairwiseDistances cs ≠ [] →
          0 <= foldl Rplus 0.0 (pairwiseDistances cs)
               / INR (length (pairwiseDistances cs)) <= 4) as Hmean.
  { intros Hnd. replace 0.0 with 0 by lra.
    apply (mean_between (λ d : R, d)); [assumption|].
    intros d Hdin. by apply (proj1 (Forall_forall _ _) Hd). }
  unfold Kernel.computeMetrics, Kernel.centroids. rewrite Hcs.
  change (Returns cs ≫= ?f) with (f cs). cbv beta zeta.
  destruct (agents_ s) as [|a0 rest]; [congruence|].
  destruct (pairwiseDistances cs) as [|d0 ds].
  - eexists. split; [reflexivity|]. cbn [avgOpenness avgConformity
      polarizationMean polarizationStd].
    split; [exact Hop|]. split; [exact Hco|]. by left.
  - eexists. split; [reflexivity|]. cbn [avgOpenness avgConformity
      polarizationMean polarizationStd].
    split; [exact Hop|]. split; [exact Hco|]. right.
    split; [by apply Hmean|apply sqrt_pos].
Qed.

(** X8. With at least one agent (and fewer than 2^31), and an activation
    function with values in [-1, 1], [computeMetrics] returns after
    [reset] and after any number of ticks; the average openness and
    conformity lie in [0, 1]; and the polarisation is either left as the
    default [Metrics] has it (fewer than two regions with agents) or its
    mean lies in [0, 4] and its deviation is not negative. *)
Theorem metrics_stay_in_range fuel cfg s :
  (0 < population cfg < 2 ^ 31)%Z →
  reset fuel cfg = Returns s →
  ∀ n, ∃ s' m,
    stepN n s = Returns s'
    ∧ computeMetrics s' = Returns m
    ∧ 0 <= avgOpenness m <= 1 ∧ 0 <= avgConformity m <= 1
    ∧ ((polarizationMean m = polarizationMean defaultMetrics
        ∧ polarizationStd m = polarizationStd defaultMetrics)
       ∨ (0 <= polarizationMean m <= 4 ∧ 0 <= polarizationStd m)).
Proof.
  intros Hpop Hreset n. apply reset_kernel_ok in Hreset as [Hok _].
  destruct (stepLoop_kernel_ok fastTanh RngState cfg (Z.to_nat n) s Hok)
    as (s' & Hs' & Hok' & _).
  destruct (computeMetrics_ok cfg s' Hpop Hok') as (m & Hm & Hrest).
  exists s', m. split; [exact Hs'|]. split; [exact Hm|exact Hrest].
Qed.

End WithRandom.

End MetricsFacts.

(** ** The ring lattice *)

Module RingFacts.

Import Kernel GraphFacts KernelFacts.

Local Open Scope R_scope.

(** The two entries a ring edge adds: [j] to the list of [i] and [i] to
    the list of [j], for [j = (i + d) % N]. *)
Definition ringEdge (N : Z) (i d a b : nat) : Prop :=
  (a = i ∧ b = ringTarget N i d) ∨ (a = ringTarget N i d ∧ b = i).

Lemma latticeEdge_nbr N i d agents agents' :
  latticeEdge N i d agents = Returns agents' →
  ∀ a b, nbr agents' a b ↔ nbr agents a b ∨ ringEdge N i d a b.
Proof.
  unfold latticeEdge. intros (ag1 & H1 & H2)%bind_Returns a b.
  rewrite (pushNeighbor_nbr _ _ _ _ H2), (pushNeighbor_nbr _ _ _ _ H1).
  unfold ringEdge. tauto.
Qed.

Lemma ringLattice_nbr N halfK agents agents' :
  ringLattice N halfK agents = Returns agents' →
  ∀ a b, nbr agents' a b
         ↔ nbr agents a b
           ∨ ∃ i d, (i < Z.to_nat N)%nat ∧ (1 <= d <= halfK)%nat
                    ∧ ringEdge N i d a b.
Proof.
  unfold ringLattice. intros Hrun.
  pose (P := λ (n : nat) (ag : list Agent),
          ∀ a b, nbr ag a b
                 ↔ nbr agents a b
                   ∨ ∃ i d, (i < n)%nat ∧ (1 <= d <= halfK)%nat
                            ∧ ringEdge N i d a b).
  apply (foldM_seq_invariant P) in Hrun; [exact Hrun| |].
  - intros a b. split; [by left|]. intros [?|(i & d & ? & _)]; [assumption|lia].
  - intros i ag ag' _ Hag Hinner.
    pose (Q := λ (m : nat) (ag1 : list Agent),
            ∀ a b, nbr ag1 a b
                   ↔ nbr ag a b
                     ∨ ∃ d, (1 <= d < m)%nat ∧ ringEdge N i d a b).
    apply (foldM_seq_invariant Q) in Hinner.
    + intros a b. rewrite (Hinner a b), (Hag a b). split.
      * intros [[?|(i' & d & ? & ? & ?)]|(d & ? & ?)].
        -- by left.
        -- right. exists i', d. split; [lia|]. by split.
        -- right. exists i, d. split; [lia|]. split; [lia|assumption].
      * intros [?|(i' & d & Hi' & Hd & He)]; [by left; left|].
        destruct (decide (i' = i)) as [->|Hne].
        -- right. exists d. split; [lia|assumption].
        -- left. right. exists i', d. split; [lia|]. by split.
    + intros a b. split; [by left|]. intros [?|(d & ? & _)]; [assumption|lia].
    + intros d ag1 ag2 Hd Hag1 Hedge a b.
      rewrite (latticeEdge_nbr _ _ _ _ _ Hedge a b), (Hag1 a b). split.
      * intros [[?|(d' & ? & ?)]|?].
        -- by left.
        -- right. exists d'. split; [lia|assumption].
        -- right. exists d. split; [lia|assumption].
      * intros [?|(d' & Hd' & He)]; [by left; left|].
        destruct (decide (d' = d)) as [->|Hne]; [by right|].
        left. right. exists d'. split; [lia|assumption].
Qed.

Lemma foldM_ext {A B : Type} (f g : A → B → Outcome A) (l : list B) :
  (∀ a b, f a b = g a b) → ∀ a, foldM f a l = foldM g a l.
Proof.
  intros Hfg. induction l as [|b l IH]; intros a; [reflexivity|].
  simpl. rewrite Hfg. destruct (g a b); simpl; auto.
Qed.

Section WithRandom.

Variable fastTanh : R → R.
Variable RngState : Type.
Variable rng_seed : Z → RngState.
Variable normal_distribution : R → R → RngState → R * RngState.
Variable uniform_real_distribution : R → R → RngState → R * RngState.
Variable uniform_int_distribution : Z → Z → RngState → Z * RngState.

Local Abbreviation initAgents :=
  (initAgents fastTanh RngState normal_distribution uniform_real_distribution
              uniform_int_distribution).
Local Abbreviation rewireEdge :=
  (rewireEdge RngState uniform_real_distribution uniform_int_distribution).
Local Abbreviation rewireNode :=
  (rewireNode RngState uniform_real_distribution uniform_int_distribution).
Local Abbreviation rewire :=
  (rewire RngState uniform_real_distribution uniform_int_distribution).
Local Abbreviation buildSmallWorld :=
  (buildSmallWorld RngState uniform_real_distribution
                   uniform_int_distribution).
Local Abbreviation reset :=
  (reset fastTanh RngState rng_seed normal_distribution
         uniform_real_distribution uniform_int_distribution).

Variable cfg : KernelConfig.
Hypothesis never_rewires : rewireProb cfg <= 0.
Hypothesis draws_from_unit :
  ∀ rng, 0 <= (uniform_real_distribution 0.0 1.0 rng).1.

Lemma rewireEdge_skips fuel i d agents rng current :
  rewireEdge fuel cfg i d (agents, rng, current)
  = Returns (agents, (uniform_real_distribution 0.0 1.0 rng).2, current).
Proof.
  unfold Kernel.rewireEdge. pose proof (draws_from_unit rng) as Hr.
  destruct (uniform_real_distribution 0.0 1.0 rng) as [r rng1]. simpl in *.
  destruct (Rlt_dec r (rewireProb cfg)); [lra|reflexivity].
Qed.

Lemma rewireNode_fuel fuel halfK i st :
  rewireNode fuel cfg halfK i st = rewireNode 0 cfg halfK i st.
Proof.
  destruct st as [agents rng]. unfold Kernel.rewireNode.
  destruct (agents !! i) as [ai|]; [|reflexivity].
  f_equal. apply foldM_ext. intros [[ag r] cur] d.
  by rewrite !rewireEdge_skips.
Qed.

Lemma rewireNode_same fuel halfK i st st' :
  rewireNode fuel cfg halfK i st = Returns st' → st'.1 = st.1.
Proof.
  destruct st as [agents rng]. unfold Kernel.rewireNode.
  destruct (agents !! i) as [ai|]; [|discriminate].
  intros ([[ag1 rng1] cur1] & Hloop & Hret)%bind_Returns.
  injection Hret as <-. simpl.
  pose (P := λ s : list Agent * RngState * gset nat, s.1.1 = agents).
  apply (foldM_invariant P) in Hloop; [exact Hloop|reflexivity|].
  intros [[ag r] cur] d y Hx _ Hstep. rewrite rewireEdge_skips in Hstep.
  injection Hstep as <-. exact Hx.
Qed.

Lemma rewire_same fuel halfK st st' :
  rewire fuel cfg halfK st = Returns st' → st'.1 = st.1.
Proof.
  unfold Kernel.rewire. intros Hrun.
  pose (P := λ s : list Agent * RngState, s.1 = st.1).
  apply (foldM_invariant P) in Hrun; [exact Hrun|reflexivity|].
  intros x i y Hx _ Hstep. unfold P in *.
  rewrite (rewireNode_same _ _ _ _ _ Hstep). exact Hx.
Qed.

Lemma reset_fuel fuel : reset fuel cfg = reset 0 cfg.
Proof.
  unfold Kernel.reset.
  destruct (initAgents cfg (rng_seed (seed cfg))) as [[[ag ri] rng]| | |];
    try reflexivity.
  simpl. f_equal. unfold Kernel.buildSmallWorld.
  destruct (ringLattice _ _ ag) as [ag1| | |]; try reflexivity. simpl.
  f_equal. unfold Kernel.rewire. apply foldM_ext. intros st i.
  apply rewireNode_fuel.
Qed.

(** X7. Without rewiring the graph is the ring lattice.  When
    [rewireProb] is not positive (and the draws from [0, 1) are not
    negative), [reset] returns without a single search for a new target,
    so with no fuel at all, and [b] is a neighbour of [a] exactly when
    they differ and one is [d] places after the other on the ring, for a
    [d] from 1 to half the (evened) number of connections. *)
Theorem ring_without_rewiring fuel s :
  reset fuel cfg = Returns s →
  reset 0 cfg = Returns s
  ∧ ∀ a b ai,
      agents_ s !! a = Some ai →
      (b ∈ neighbors ai
       ↔ b ≠ a
         ∧ ∃ d,
             (1 <= d
              <= Z.to_nat ((if Z.odd (avgConnections cfg)
                            then u32 (avgConnections cfg + 1)
                            else avgConnections cfg) / 2))%nat
             ∧ (b = ringTarget (population cfg) a d
                ∨ (a = ringTarget (population cfg) b d
                   ∧ (b < Z.to_nat (population cfg))%nat))).
Proof.
  intros Hreset. split; [by rewrite <- (reset_fuel fuel)|].
  unfold Kernel.reset in Hreset.
  apply bind_Returns in Hreset as ([[ag0 ri] rng0] & Hinit & Hrun).
  apply bind_Returns in Hrun as ([ag1 rng1] & Hbuild & Hret).
  injection Hret as <-. simpl.
  pose proof Hinit as Htab. apply initAgents_table in Htab as (Hlen & Hids & Hnone).
  unfold Kernel.buildSmallWorld in Hbuild.
  apply bind_Returns in Hbuild as (ag2 & Hring & Hrun).
  apply bind_Returns in Hrun as ([ag3 rng3] & Hrew & Hret).
  injection Hret as <- _. apply rewire_same in Hrew. simpl in Hrew. subst ag3.
  pose proof (ringLattice_inv _ _ _ _ Hring (initAgents_inv _ _ _ _ _ _ _ _ _ _ Hinit))
    as [Hids2 _].
  pose proof (ringLattice_nbr _ _ _ _ Hring) as Hnbr.
  pose proof (same_by_length _ _ _ (ringLattice_looks _ _ _ _ Hring)) as Hlen2.
  intros a b ai Ha.
  assert (a < Z.to_nat (population cfg))%nat as Hlt.
  { apply lookup_lt_Some in Ha. unfold dedupe in Ha.
    rewrite length_fmap in Ha. lia. }
  transitivity (nbr (dedupe ag2) a b).
  { unfold nbr. split; [intros Hb; by exists ai|].
    intros (ai' & Ha' & Hb). congruence. }
  rewrite (dedupe_nbr _ _ _ Hids2), (Hnbr a b). split.
  - intros [[(a0 & Ha0 & Hb)|(i & d & Hi & Hd & He)] Hne].
    + rewrite (Hnone a0) in Hb by (by eapply list_elem_of_lookup_2).
      by apply elem_of_nil in Hb.
    + split; [assumption|]. exists d. split; [assumption|].
      destruct He as [[-> ->]|[-> ->]]; [by left|by right].
  - intros [Hne (d & Hd & He)]. split; [|assumption]. right.
    destruct He as [->|[-> Hb]].
    + exists a, d. split; [assumption|]. split; [assumption|by left].
    + exists b, d. split; [assumption|]. split; [assumption|by right].
Qed.

End WithRandom.

End RingFacts.

(** ** Facts about the [run] and [step] commands *)

Module ShellFacts.

Import Kernel Cli CsvSpec GraphFacts CliFacts.

Local Open Scope Z_scope.

(** How far the tick [t0] is from the next tick that [p] divides. *)
Definition ahead (p : Z) (t0 : nat) : nat :=
  Z.to_nat ((p - Z.of_nat t0 mod p) mod p).

Lemma rem_zero_mod_abs a b : b ≠ 0 → 0 ≤ a → (Z.rem a b = 0 ↔ a mod Z.abs b = 0).
Proof.
  intros Hb Ha. rewrite Z.rem_divide by assumption.
  rewrite Z.mod_divide by lia. symmetry. apply Z.divide_abs_l.
Qed.

Lemma ahead_zero p t0 : 0 < p → Z.of_nat t0 mod p = 0 → ahead p t0 = 0%nat.
Proof.
  intros Hp Hm. unfold ahead. rewrite Hm, Z.sub_0_r, Z.mod_same by lia.
  reflexivity.
Qed.

Lemma ahead_succ p t0 :
  0 < p →
  ahead p (S t0)
  = if decide (Z.of_nat t0 mod p = 0) then Z.to_nat (p - 1)
    else (ahead p t0 - 1)%nat.
Proof.
  intros Hp. unfold ahead.
  pose proof (Z.mod_pos_bound (Z.of_nat t0) p Hp) as Hr.
  assert (Z.of_nat (S t0) mod p
          = if decide (Z.of_nat t0 mod p + 1 = p) then 0
            else Z.of_nat t0 mod p + 1) as ->.
  { rewrite Nat2Z.inj_succ. unfold Z.succ.
    rewrite <- Zplus_mod_idemp_l.
    destruct (decide (Z.of_nat t0 mod p + 1 = p)) as [->|Hne].
    - apply Z.mod_same. lia.
    - apply Z.mod_small. lia. }
  generalize dependent (Z.of_nat t0 mod p). intros r Hr.
  destruct (decide (r = 0)) as [H0|H0].
  - rewrite H0. destruct (decide (0 + 1 = p)) as [Hone|Hne].
    + rewrite Z.sub_0_r, Z.mod_same by lia; lia.
    + rewrite Z.mod_small by lia. f_equal; lia.
  - destruct (decide (r + 1 = p)) as [He|Hne].
    + rewrite Z.sub_0_r, Z.mod_same by lia.
      rewrite (Z.mod_small (p - _)) by lia. lia.
    + rewrite !Z.mod_small by lia. lia.
Qed.

Section WithShell.

Variable fastTanh : R → R.
Variable RngState : Type.
Variable logMetrics : State RngState → string.
Variable writable : string → bool.

Local Abbreviation step := (step fastTanh RngState).
Local Abbreviation stepLoop := (stepLoop fastTanh RngState).
Local Abbreviation stepN := (stepN fastTanh RngState).
Local Abbreviation trajectory := (trajectory fastTanh RngState).
Local Abbreviation runTick := (runTick fastTanh RngState logMetrics).
Local Abbreviation run := (run fastTanh RngState logMetrics writable).
Local Abbreviation rowsOf := (rowsOf RngState logMetrics).
Local Abbreviation logged := (logged RngState).
Local Abbreviation stepCommand := (stepCommand fastTanh RngState).

(** The rows logged are every [|logEvery|]-th kernel of the trajectory. *)
Lemma logged_lookup logEvery ks : ∀ t0 i,
  logEvery ≠ 0 →
  logged logEvery t0 ks !! i
  = ks !! (ahead (Z.abs logEvery) t0 + i * Z.to_nat (Z.abs logEvery))%nat.
Proof.
  intros t0 i HL. revert t0 i.
  assert (0 < Z.abs logEvery) as Hp by lia.
  induction ks as [|k ks IH]; intros t0 i; [by rewrite !lookup_nil|].
  cbn [CsvSpec.logged].
  destruct (Z.eqb_spec (Z.rem (Z.of_nat t0) logEvery) 0) as [Hz|Hnz].
  - apply rem_zero_mod_abs in Hz; [|assumption|lia].
    rewrite ahead_zero by assumption.
    destruct i as [|i]; [reflexivity|].
    cbn [lookup list_lookup]. rewrite (IH (S t0)), ahead_succ by assumption.
    rewrite decide_True by assumption.
    replace (0 + S i * Z.to_nat (Z.abs logEvery))%nat
      with (S (Z.to_nat (Z.abs logEvery - 1) + i * Z.to_nat (Z.abs logEvery)))
      by lia.
    reflexivity.
  - rewrite rem_zero_mod_abs in Hnz by lia.
    rewrite (IH (S t0)), ahead_succ by assumption.
    rewrite decide_False by assumption.
    assert (0 < ahead (Z.abs logEvery) t0)%nat as Hpos.
    { unfold ahead.
      pose proof (Z.mod_pos_bound (Z.of_nat t0) (Z.abs logEvery) Hp).
      rewrite Z.mod_small by lia. lia. }
    replace (ahead (Z.abs logEvery) t0 + i * Z.to_nat (Z.abs logEvery))%nat
      with (S (ahead (Z.abs logEvery) t0 - 1
               + i * Z.to_nat (Z.abs logEvery))) by lia.
    reflexivity.
Qed.

Lemma trajectory_lookup n : ∀ k ks t kt,
  trajectory n k = Returns ks → ks !! t = Some kt →
  stepLoop (S t) k = Returns kt.
Proof.
  induction n as [|n IH]; intros k ks t kt Htraj Ht; simpl in Htraj.
  - injection Htraj as <-. by rewrite lookup_nil in Ht.
  - apply bind_Returns in Htraj as (k1 & Hk1 & Htraj).
    apply bind_Returns in Htraj as (rest & Hrest & Hret).
    injection Hret as <-. cbn [Kernel.stepLoop]. rewrite Hk1. simpl.
    destruct t as [|t].
    + by injection Ht as <-.
    + by apply (IH k1 rest).
Qed.

Lemma logged_length logEvery ks :
  logEvery ≠ 0 →
  Z.of_nat (length (logged logEvery 0 ks))
  = (Z.of_nat (length ks) + Z.abs logEvery - 1) / Z.abs logEvery.
Proof.
  intros HL. assert (0 < Z.abs logEvery) as Hp by lia.
  assert (∀ i, (i < length (logged logEvery 0 ks))%nat
               ↔ (i * Z.to_nat (Z.abs logEvery) < length ks)%nat) as Hlt.
  { intros i. rewrite <- !lookup_lt_is_Some, logged_lookup by assumption.
    rewrite ahead_zero by (try apply Z.mod_0_l; lia). reflexivity. }
  set (m := length (logged logEvery 0 ks)) in *.
  assert (Z.of_nat (length ks) ≤ Z.of_nat m * Z.abs logEvery) as Hup.
  { destruct (Hlt m) as [_ H]. 
    destruct (decide (m * Z.to_nat (Z.abs logEvery) < length ks)%nat) as [Hc|Hc];
      [apply H in Hc; lia|nia]. }
  assert (Z.of_nat m * Z.abs logEvery
          < Z.of_nat (length ks) + Z.abs logEvery) as Hlow.
  { destruct m as [|m']; [lia|].
    destruct (Hlt m') as [H _]. specialize (H ltac:(lia)). nia. }
  apply (Z.div_unique_pos _ _ _
           (Z.of_nat (length ks) + Z.abs logEvery - 1
            - Z.of_nat m * Z.abs logEvery)); lia.
Qed.

(** X10. Which ticks [run] logs.  For [logEvery ≠ 0], when the ticks
    return and the file can be opened, the rows under the header are
    ⌈T / |logEvery|⌉ in number, and row [i] (from 0) is written from the
    kernel after [i·|logEvery| + 1] ticks: the first row shows the kernel
    after its first tick, not the kernel the command started from. *)
Theorem run_logs_every_nth_tick T logEvery k k' files :
  logEvery ≠ 0 →
  writable metricsPath = true →
  stepN T k = Returns k' →
  ∃ rows,
    run T logEvery k files
    = Returns (k', <[metricsPath := Cli.csvHeader +:+ rowsOf rows]> files)
    ∧ Z.of_nat (length rows)
      = (Z.max 0 T + Z.abs logEvery - 1) / Z.abs logEvery
    ∧ ∀ i ki, rows !! i = Some ki →
              stepN (Z.of_nat i * Z.abs logEvery + 1) k = Returns ki.
Proof.
  intros HL Hw Hsteps. unfold Kernel.stepN in Hsteps.
  destruct (stepLoop_trajectory _ _ _ _ _ Hsteps) as (ks & Hks & Hlen & Hlast).
  exists (logged logEvery 0 ks). split; [|split].
  - unfold Cli.run. rewrite Hw. unfold put at 1. simpl.
    rewrite (runLoop_rows _ _ _ logEvery _ 0 k _ ks HL Hks). simpl.
    unfold close. simpl. do 2 f_equal. rewrite Hlast.
    destruct (Z.to_nat T); simpl; [simpl in Hsteps; congruence|reflexivity].
  - rewrite logged_length, Hlen by assumption. do 2 f_equal. lia.
  - intros i ki Hi. rewrite logged_lookup in Hi by assumption.
    rewrite ahead_zero in Hi by (try apply Z.mod_0_l; lia).
    apply (trajectory_lookup _ _ _ _ _ Hks) in Hi. unfold Kernel.stepN.
    replace (Z.to_nat (Z.of_nat i * Z.abs logEvery + 1))
      with (S (0 + i * Z.to_nat (Z.abs logEvery))) by lia.
    exact Hi.
Qed.

Lemma runLoop_closed logEvery n : ∀ t0 k k' out,
  logEvery ≠ 0 → is_open out = false →
  stepLoop n k = Returns k' →
  foldM (runTick logEvery) (k, out) (seq t0 n) = Returns (k', out).
Proof.
  induction n as [|n IH]; intros t0 k k' out HL Hout Hrun; simpl in Hrun.
  - by injection Hrun as <-.
  - apply bind_Returns in Hrun as (k1 & Hk1 & Hrun).
    assert (runTick logEvery (k, out) t0 = Returns (k1, out)) as Hhead.
    { unfold Cli.runTick. rewrite Hk1. simpl.
      destruct (Z.eqb_spec logEvery 0) as [?|_]; [contradiction|].
      unfold put. rewrite Hout.
      by destruct (Z.rem (Z.of_nat t0) logEvery =? 0)%Z. }
    cbn [seq foldM]. rewrite Hhead. simpl. by apply IH.
Qed.

(** X11. [run] does not check that the metrics file was opened: when it
    was not, the kernel is still advanced by the [T] ticks, nothing is
    written and no file is changed. *)
Theorem run_without_file T logEvery k k' files :
  logEvery ≠ 0 →
  writable metricsPath = false →
  stepN T k = Returns k' →
  run T logEvery k files = Returns (k', files).
Proof.
  intros HL Hw Hsteps. unfold Cli.run. rewrite Hw. unfold put at 1. simpl.
  rewrite (runLoop_closed logEvery _ 0 k k') by done. reflexivity.
Qed.

Lemma stepCommand_loop n : ∀ k start,
  foldM (λ k _, step k) k (seq start n) = stepLoop n k.
Proof.
  induction n as [|n IH]; intros k start; [reflexivity|].
  cbn [seq foldM Kernel.stepLoop]. destruct (step k); simpl; auto.
Qed.

(** X12. The [step] command runs at least one tick: with a count below 1
    it behaves as [step 1], otherwise as [stepN] of the count, and the
    generation advances by the larger of 1 and the count (modulo 2^64). *)
Theorem step_command_runs_at_least_once n k :
  stepCommand n k = stepN (Z.max 1 n) k
  ∧ ∀ k', stepCommand n k = Returns k' →
          u64 (generation_ k') = u64 (generation_ k + Z.max 1 n).
Proof.
  assert (stepCommand n k = stepN (Z.max 1 n) k) as Heq.
  { unfold Cli.stepCommand, Kernel.stepN. rewrite stepCommand_loop.
    f_equal. destruct (Z.ltb_spec n 1); lia. }
  split; [exact Heq|]. intros k' Hrun. rewrite Heq in Hrun.
  unfold Kernel.stepN in Hrun.
  apply KernelFacts.stepLoop_frame in Hrun as (_ & _ & _ & Hg & _).
  rewrite Hg. f_equal. lia.
Qed.

End WithShell.

End ShellFacts.

(** ** Facts about the binary codec *)

Module CodecFacts.

Import Serialization CheckpointSpec SerializationFacts.

Local Open Scope Z_scope.

(** A stream that cannot serve [m] more bytes: it has failed already, or
    holds fewer. *)
Definition short (m : nat) (input : ifstream) : Prop :=
  good input = false ∨ (length (unread input) < m)%nat.

Lemma read_short n m old input :
  short (n + m) input → short m (read n old input).2.
Proof.
  unfold short, read. intros Hshort.
  destruct (good input) eqn:Hgood; simpl; [|by left].
  destruct Hshort as [?|Hlen]; [discriminate|].
  destruct (bool_decide_reflect (n ≤ length (unread input))%nat) as [Hn|Hn].
  - right. rewrite length_drop. lia.
  - by left.
Qed.

Lemma readBinary_short n m old input :
  short (n + m) input →
  ∃ v input', readBinary n old input = Returns (v, input') ∧ short m input'.
Proof.
  intros Hshort. unfold readBinary.
  pose proof (read_short n m (le_split n old) input Hshort) as H.
  destruct (read n (le_split n old) input) as [bs input'].
  by eexists _, _.
Qed.

Lemma readBinaryArray_short n count m old input :
  short (count * n + m) input →
  ∃ v input',
    readBinaryArray n count old input = Returns (v, input') ∧ short m input'.
Proof.
  intros Hshort. unfold readBinaryArray.
  pose proof (read_short (count * n) m (writeBinaryArray n count old) input
                Hshort) as H.
  destruct (read (count * n) (writeBinaryArray n count old) input)
    as [bs input'].
  by eexists _, _.
Qed.

Section Decode.

Variable can_allocate : Z → bool.
Variable defaultAgent : Agent.

Lemma readBinaryVector_short n old input :
  short sz_u32 input →
  readBinaryVector can_allocate n old input = Undefined.
Proof.
  unfold short, readBinaryVector. intros [->|Hlen]; [reflexivity|].
  rewrite bool_decide_false by lia. by rewrite andb_false_r.
Qed.

(** The bytes of an agent record before the elements of [neighbors]. *)
Definition agentRecord : nat :=
  sz_u32 + (sz_u32 + (sz_bool + (sz_int + (sz_bool + (sz_u32 + (sz_u32
  + (sz_u32 + (sz_u8 + (sz_u8 + (sz_double + (sz_double + (sz_double
  + (sz_double + (sz_double + (kDims * sz_double + (kDims * sz_double
  + (sz_double + (sz_double + (sz_double + (sz_double + sz_u32)))))))))))))))))))).

Lemma readAgent_short old input :
  short agentRecord input → readAgent can_allocate old input = Undefined.
Proof.
  intros Hshort. unfold readAgent, agentRecord in *.
  repeat
    (match goal with
     | |- (readBinary ?n ?o ≫= _) ?i = _ =>
         destruct (readBinary_short n _ o i Hshort)
           as (? & ? & Heq & Hshort')
     | |- (readBinaryArray ?n ?c ?o ≫= _) ?i = _ =>
         destruct (readBinaryArray_short n c _ o i Hshort)
           as (? & ? & Heq & Hshort')
     end;
     erewrite bind_returns by exact Heq;
     clear Heq Hshort; rename Hshort' into Hshort).
  unfold mbind, Reader_bind.
  by rewrite readBinaryVector_short.
Qed.

Lemma readBinaryVector_written n old vs rest :
  wf_vector n vs →
  can_allocate (Z.of_nat (length vs)) = true →
  readBinaryVector can_allocate n old
    (mkIn (writeBinaryVector n vs ++ rest) true)
  = Returns (vs, mkIn rest true).
Proof.
  intros [Hlen Hvs] Halloc.
  unfold readBinaryVector, writeBinaryVector, writeBinary.
  assert (u32 (Z.of_nat (length vs)) = Z.of_nat (length vs)) as ->
    by (unfold u32; apply Z.mod_small; lia).
  rewrite Nat2Z.id, firstn_all. rewrite <- app_assoc.
  cbn [good unread andb].
  rewrite bool_decide_true
    by (rewrite length_app, length_le_split; unfold sz_u32; lia).
  rewrite take_app_length' by (by rewrite length_le_split).
  rewrite drop_app_length' by (by rewrite length_le_split).
  rewrite le_combine_split, Z.mod_small by (unfold sz_u32; simpl; lia).
  rewrite Halloc, Nat2Z.id.
  destruct (Z.ltb_spec 0 (Z.of_nat (length vs))) as [Hpos|Hzero].
  - rewrite read_exact.
    + by rewrite unpack_concat.
    + apply length_concat_le_split.
    + rewrite length_concat_le_split, length_take, length_app,
        length_replicate. lia.
  - destruct vs; [|simpl in Hzero; lia]. reflexivity.
Qed.

(** X13. What [writeBinaryVector] wrote, [readBinaryVector] reads back:
    for a vector of fewer than 2^32 elements that fit their width, and
    whatever the vector read into held before, the result is the vector
    written and the stream is left at the byte after it. *)
Theorem vector_read_back n old vs rest :
  wf_vector n vs →
  can_allocate (Z.of_nat (length vs)) = true →
  readBinaryVector can_allocate n old
    (mkIn (writeBinaryVector n vs ++ rest) true)
  = Returns (vs, mkIn rest true).
Proof. apply readBinaryVector_written. Qed.

(** X14. What [writeBinaryString] wrote, [readBinaryString] reads back,
    whatever the string read into held before. *)
Theorem string_read_back old (str rest : list byte) :
  Z.of_nat (length str) < 2 ^ 32 →
  can_allocate (Z.of_nat (length str)) = true →
  readBinaryString can_allocate old (mkIn (writeBinaryString str ++ rest) true)
  = Returns (str, mkIn rest true).
Proof.
  intros Hlen Halloc. unfold readBinaryString, writeBinaryString, writeBinary.
  assert (u32 (Z.of_nat (length str)) = Z.of_nat (length str)) as ->
    by (unfold u32; apply Z.mod_small; lia).
  rewrite Nat2Z.id, firstn_all. rewrite <- app_assoc.
  cbn [good unread andb].
  rewrite bool_decide_true
    by (rewrite length_app, length_le_split; unfold sz_u32; lia).
  rewrite take_app_length' by (by rewrite length_le_split).
  rewrite drop_app_length' by (by rewrite length_le_split).
  rewrite le_combine_split, Z.mod_small by (unfold sz_u32; simpl; lia).
  rewrite Halloc, Nat2Z.id.
  destruct (Z.ltb_spec 0 (Z.of_nat (length str))) as [Hpos|Hzero].
  - rewrite read_exact; [reflexivity|reflexivity|].
    rewrite length_take, length_app, length_replicate. lia.
  - destruct str; [|simpl in Hzero; lia]. reflexivity.
Qed.

Lemma readAgent_written old a rest :
  wf_agent a →
  can_allocate (Z.of_nat (length (neighbors a))) = true →
  readAgent can_allocate old (mkIn (writeAgent a ++ rest) true)
  = Returns (a, mkIn rest true).
Proof.
  intros (?&?&?&?&?&?&?&?&?&?&?&?&?&?&?&[??]&[??]&?&?&?&?&?) Halloc.
  unfold readAgent, writeAgent. rewrite <- !app_assoc.
  repeat first
    [ erewrite bind_returns by (by apply readBinary_write)
    | erewrite bind_returns by (by apply readBinaryArray_write)
    | erewrite bind_returns by (by apply readBinaryVector_written) ].
  by destruct a.
Qed.

(** X15. What [writeAgent] wrote, [readAgent] reads back, field by
    field in the order written: for an agent whose fields hold values of
    their types, and whatever the agent read into held before, the
    result is the agent written and the stream is left at the byte after
    its record. *)
Theorem agent_read_back old a rest :
  wf_agent a →
  can_allocate (Z.of_nat (length (neighbors a))) = true →
  readAgent can_allocate old (mkIn (writeAgent a ++ rest) true)
  = Returns (a, mkIn rest true).
Proof. apply readAgent_written. Qed.

(** X19. An agent record is 168 bytes and four more for every
    neighbour. *)
Theorem agent_record_size a :
  Z.of_nat (length (neighbors a)) < 2 ^ 32 →
  length (writeAgent a) = (168 + 4 * length (neighbors a))%nat.
Proof.
  intros Hlen. unfold writeAgent, writeBinaryVector, writeBinary.
  assert (u32 (Z.of_nat (length (neighbors a)))
          = Z.of_nat (length (neighbors a))) as ->
    by (unfold u32; apply Z.mod_small; lia).
  rewrite Nat2Z.id, firstn_all.
  rewrite !length_app, !length_le_split, !length_writeBinaryArray,
    length_concat_le_split.
  unfold sz_u32, sz_bool, sz_int, sz_u8, sz_double, kDims. lia.
Qed.

Section Load.

Context {K : Type}.

Local Abbreviation loadCheckpoint :=
  (loadCheckpoint (K := K) can_allocate defaultAgent).

(** X17. A file that stops inside the header keeps the default header's
    values for what it does not hold.  So every prefix of the 40 bytes
    of a default header, the empty file included, is accepted as the
    checkpoint of a kernel without agents and regions: the load returns
    [true]. *)
Theorem load_accepts_header_prefix n (kernel : K) filepath files :
  can_allocate 0 = true →
  files !! filepath = Some (take n (headerBytes defaultHeader)) →
  loadCheckpoint kernel filepath files = Returns (true, kernel).
Proof.
  intros Halloc Hfile. unfold Serialization.loadCheckpoint. rewrite Hfile.
  assert (readHeader (mkIn (take n (headerBytes defaultHeader)) true)
          = (defaultHeader,
             mkIn (drop 40 (take n (headerBytes defaultHeader)))
                  (bool_decide (40 ≤ length (take n (headerBytes defaultHeader)))%nat)))
    as ->.
  { unfold readHeader, read. cbn [good unread].
    rewrite (take_ge (take n _)) by (rewrite length_take, length_headerBytes; lia).
    rewrite length_take, length_headerBytes.
    assert (take n (headerBytes defaultHeader)
            ++ drop (n `min` 40) (headerBytes defaultHeader)
            = headerBytes defaultHeader) as ->.
    { destruct (Nat.le_gt_cases n 40) as [Hn|Hn].
      - rewrite Nat.min_l by assumption. apply take_drop.
      - rewrite Nat.min_r by lia.
        rewrite take_ge, drop_ge by (rewrite length_headerBytes; lia).
        apply app_nil_r. }
    rewrite headerOfBytes_headerBytes. reflexivity. }
  cbn [magic version defaultHeader]. rewrite !Z.eqb_refl. cbn [negb].
  unfold readBody. cbn [num_agents num_regions defaultHeader].
  rewrite Halloc. reflexivity.
Qed.

(** X18. A checkpoint cut short inside the record of its first agent
    makes the load undefined: [readBinaryVector] uses the size it could
    not read.  (A record holds 168 bytes before the neighbour ids.) *)
Theorem load_of_truncated_checkpoint (kernel : K) filepath files h body :
  files !! filepath = Some (headerBytes h ++ body) →
  magic h = CHECKPOINT_MAGIC →
  version h = CHECKPOINT_VERSION →
  0 < num_agents h < 2 ^ 32 →
  can_allocate (num_agents h) = true →
  (length body < 168)%nat →
  loadCheckpoint kernel filepath files = Undefined.
Proof.
  intros Hfile Hmagic Hversion Hnum Halloc Hbody.
  unfold Serialization.loadCheckpoint. rewrite Hfile, readHeader_write.
  cbn [magic version wrapHeader]. rewrite Hmagic, Hversion.
  change (negb (u32 CHECKPOINT_MAGIC =? CHECKPOINT_MAGIC)) with false.
  change (negb (u32 CHECKPOINT_VERSION =? CHECKPOINT_VERSION)) with false.
  cbv iota. unfold readBody. cbn [num_agents wrapHeader].
  assert (u32 (num_agents h) = num_agents h) as ->
    by (unfold u32; apply Z.mod_small; lia).
  rewrite Halloc.
  destruct (Z.to_nat (num_agents h)) as [|count] eqn:Hcount; [lia|].
  cbn [readAgents]. unfold mbind at 1, Reader_bind at 1.
  unfold mbind at 1, Reader_bind at 1.
  rewrite readAgent_short; [reflexivity|].
  right. simpl. exact Hbody.
Qed.

End Load.

End Decode.

End CodecFacts.

(** ** Facts about the event log *)

Module EventLogFacts.

Import EventLog EventLogSpec.

Lemma collect_filter {A} (f : A → bool) (P : A → Prop)
    `{∀ x, Decision (P x)} (l : list A) :
  (∀ x, f x = true ↔ P x) →
  ∀ result,
    foldl (λ result e, if f e then result ++ [e] else result) result l
    = result ++ filter P l.
Proof.
  intros HfP. induction l as [|e l IH]; intros result; simpl.
  - by rewrite app_nil_r.
  - rewrite IH, filter_cons. destruct (f e) eqn:Hf.
    + rewrite decide_True by (by apply HfP). by rewrite <- app_assoc.
    + rewrite decide_False; [reflexivity|].
      intros HP%HfP. congruence.
Qed.

Lemma collect_decide {A} (P : A → Prop) `{∀ x, Decision (P x)} (l : list A) :
  ∀ result,
    foldl (λ result e, if decide (P e) then result ++ [e] else result) result l
    = result ++ filter P l.
Proof.
  induction l as [|e l IH]; intros result; simpl.
  - by rewrite app_nil_r.
  - rewrite IH, filter_cons. destruct (decide (P e)); [|reflexivity].
    by rewrite <- app_assoc.
Qed.

Lemma getEventsByType_filter log t :
  getEventsByType log t = filter (λ e, type e = t) (events_ log).
Proof. unfold getEventsByType. by rewrite collect_decide. Qed.

Lemma getEventsByTickRange_filter log a b :
  getEventsByTickRange log a b
  = filter (λ e, (a ≤ tick e)%N ∧ (tick e ≤ b)%N) (events_ log).
Proof.
  unfold getEventsByTickRange.
  rewrite <- (app_nil_l (filter _ _)).
  apply (collect_filter (λ e, (a <=? tick e)%N && (tick e <=? b)%N)).
  intros e. rewrite andb_true_iff, !N.leb_le. reflexivity.
Qed.

Section Logging.

Variable writable : string → bool.
Variable fixed : nat → R → string.

Local Abbreviation row := (row fixed).
Local Abbreviation init := (init writable).
Local Abbreviation logEvent := (logEvent fixed).
Local Abbreviation exportCSV := (exportCSV writable fixed).

Local Abbreviation logAll := (logAll fixed).

Lemma logAll_spec evs : ∀ log,
  events_ (logAll log evs) = events_ log ++ evs
  ∧ file_initialized_ (logAll log evs) = file_initialized_ log
  ∧ log_file_ (logAll log evs)
    = if file_initialized_ log
      then (λ f, mkLogStream (path f)
                   (foldl (λ text e, text +:+ row e) (sent f) evs))
           <$> log_file_ log
      else log_file_ log.
Proof.
  induction evs as [|e evs IH]; intros log.
  - simpl. rewrite app_nil_r. split; [reflexivity|]. split; [reflexivity|].
    destruct (file_initialized_ log); [|reflexivity].
    by destruct (log_file_ log) as [[??]|].
  - cbn [EventLogSpec.logAll foldl]. fold (logAll (logEvent log (tick e) (type e) (agent_id e)
      (region_id e) (details e) (magnitude e)) evs).
    destruct (IH (logEvent log (tick e) (type e) (agent_id e) (region_id e)
                    (details e) (magnitude e))) as (He & Hi & Hf).
    rewrite He, Hi, Hf. cbn [EventLog.logEvent events_ file_initialized_ log_file_].
    split; [by rewrite <- app_assoc; destruct e|]. split; [reflexivity|].
    destruct (file_initialized_ log); [|reflexivity].
    destruct (log_file_ log) as [[p s]|]; [|reflexivity]. simpl.
    by destruct e.
Qed.

(** X20. The live log file and the export agree.  After an [init] that
    succeeds on a log with no event yet, and any sequence of [logEvent]
    calls, a [flush] leaves in the log file exactly the text that
    [exportCSV] writes: the header row and one row for every event, in
    the order logged. *)
Theorem log_file_matches_export log filepath files log1 files1 evs :
  events_ log = [] →
  init log filepath files = Normal (log1, files1) →
  flush (logAll log1 evs) files1 !! filepath
  = Some (foldl (λ text e, text +:+ row e) csvHeader evs)
  ∧ ∀ out files',
      writable out = true →
      exportCSV (logAll log1 evs) out files'
      = Normal (<[out := foldl (λ text e, text +:+ row e) csvHeader evs]>
                  files').
Proof.
  intros Hempty Hinit. unfold EventLog.init in Hinit.
  destruct (writable filepath); [|discriminate].
  injection Hinit as <- <-.
  destruct (logAll_spec evs
              (mkLog (events_ log)
                     (send (Some (mkLogStream filepath "")) csvHeader) true))
    as (He & _ & Hf).
  cbn [events_ file_initialized_ log_file_] in He, Hf.
  change (send (Some (mkLogStream filepath "")) csvHeader)
    with (Some (mkLogStream filepath ("" +:+ csvHeader))) in He, Hf.
  split.
  - unfold flush. rewrite Hf. simpl. by rewrite lookup_insert_eq.
  - intros out files' Hout. unfold EventLog.exportCSV.
    by rewrite Hout, He, Hempty.
Qed.

(** X21. [getEventsByType] returns the events of the type in the order
    logged, and the types partition the log: the lists of the twelve
    types hold [size()] events together. *)
Theorem events_partition_by_type log :
  (∀ t, getEventsByType log t = filter (λ e, type e = t) (events_ log))
  ∧ size log
    = sum_list ((λ t, length (getEventsByType log t)) <$> eventTypes).
Proof.
  split; [apply getEventsByType_filter|]. unfold size.
  assert (∀ t, length (getEventsByType log t)
               = length (filter (λ e, type e = t) (events_ log))) as Hlen
    by (intros t; by rewrite getEventsByType_filter).
  unfold eventTypes. cbn [fmap list_fmap]. rewrite !Hlen. clear Hlen.
  induction (events_ log) as [|e l IH]; [reflexivity|].
  rewrite !filter_cons. cbn [length]. rewrite IH.
  destruct (type e); simpl; lia.
Qed.

(** X22. Tick ranges compose: a range whose end is before its start is
    empty, and for [a ≤ m + 1] and [m ≤ b] the events of the ticks
    [a..b] are those of [a..m] together with those of [m+1..b]. *)
Theorem tick_ranges_compose log a m b :
  (a ≤ m + 1)%N → (m ≤ b)%N →
  getEventsByTickRange log a b
  ≡ₚ getEventsByTickRange log a m ++ getEventsByTickRange log (m + 1) b
  ∧ ∀ lo hi, (hi < lo)%N → getEventsByTickRange log lo hi = [].
Proof.
  intros Ham Hmb. rewrite !getEventsByTickRange_filter. split.
  - induction (events_ log) as [|e l IH]; [reflexivity|].
    rewrite !filter_cons.
    destruct (decide ((a ≤ tick e)%N ∧ (tick e ≤ b)%N)) as [[??]|Hn].
    + destruct (decide ((a ≤ tick e)%N ∧ (tick e ≤ m)%N)) as [[??]|Hn1].
      * rewrite decide_False by lia. simpl. by apply Permutation_skip.
      * rewrite decide_True by lia.
        etransitivity; [apply Permutation_skip; exact IH|].
        apply Permutation_middle.
    + rewrite !decide_False by lia. exact IH.
  - intros lo hi Hlt. rewrite getEventsByTickRange_filter.
    induction (events_ log) as [|e l IH]; [reflexivity|].
    rewrite filter_cons, decide_False by lia. exact IH.
Qed.

(** X23. A failed [init] stops the file, not the log.  When the new file
    cannot be opened [init] throws, having closed the stream it had
    (what was sent to it is in its file) and left the events as they
    were; every later [logEvent] still records its event, but no stream
    is open any more and a [flush] changes no file. *)
Theorem failed_init_stops_the_file log filepath files evs :
  writable filepath = false →
  ∃ log',
    init log filepath files
    = Raised runtime_error (log', settle (log_file_ log) files)
    ∧ events_ log' = events_ log
    ∧ size (logAll log' evs) = (size log + length evs)%nat
    ∧ log_file_ (logAll log' evs) = None
    ∧ ∀ files', flush (logAll log' evs) files' = files'.
Proof.
  intros Hw. unfold EventLog.init. rewrite Hw. eexists.
  split; [reflexivity|]. split; [reflexivity|].
  destruct (logAll_spec evs
              (mkLog (events_ log) None (file_initialized_ log)))
    as (He & _ & Hf).
  cbn [events_ file_initialized_ log_file_] in He, Hf.
  assert (log_file_ (logAll (mkLog (events_ log) None (file_initialized_ log))
                       evs) = None) as Hnone
    by (rewrite Hf; by destruct (file_initialized_ log)).
  split; [unfold size; by rewrite He, length_app|].
  split; [exact Hnone|]. intros files'. unfold flush. by rewrite Hnone.
Qed.

End Logging.

End EventLogFacts.

(** ** Facts about the run-time checks *)

Module ValidationFacts.

Import Kernel Validation.

Local Open Scope R_scope.

Lemma belief_accepted b :
  negb (isFinite b) = false
  ∧ lt b (Finite (-1.0)) || gt b (Finite 1.0) = false
  ↔ ∃ r, b = Finite r ∧ -1 <= r <= 1.
Proof.
  split.
  - intros [Hfin Hrange]. destruct b as [r| | |]; try discriminate.
    exists r. split; [reflexivity|]. unfold gt, lt in Hrange.
    destruct (Rlt_dec r (-1.0)); [discriminate|].
    destruct (Rlt_dec 1.0 r); [discriminate|]. lra.
  - intros (r & -> & Hr). split; [reflexivity|]. unfold gt, lt.
    destruct (Rlt_dec r (-1.0)); [lra|].
    destruct (Rlt_dec 1.0 r); [lra|]. reflexivity.
Qed.

Lemma checkBeliefsFrom_passes count : ∀ beliefs,
  (count <= length beliefs)%nat →
  (checkBeliefsFrom beliefs count = Passed
   ↔ ∀ b, b ∈ take count beliefs → ∃ r, b = Finite r ∧ -1 <= r <= 1)
  ∧ checkBeliefsFrom beliefs count ≠ OutOfBounds.
Proof.
  induction count as [|count IH]; intros beliefs Hlen.
  - simpl. split; [|intros Hx; discriminate Hx]. split; [|reflexivity].
    intros _ b Hb. rewrite take_0 in Hb. by apply elem_of_nil in Hb.
  - destruct beliefs as [|b rest]; [simpl in Hlen; lia|].
    simpl in Hlen. destruct (IH rest ltac:(lia)) as [IHp IHo].
    cbn [checkBeliefsFrom take].
    destruct (negb (isFinite b)) eqn:Hfin.
    + split; [|intros Hx; discriminate Hx]. split; [discriminate|].
      intros Hall. destruct (Hall b (list_elem_of_here _ _)) as (r & -> & _).
      discriminate.
    + destruct (lt b (Finite (-1.0)) || gt b (Finite 1.0)) eqn:Hrange.
      * split; [|intros Hx; discriminate Hx]. split; [discriminate|].
        intros Hall.
        destruct (proj2 (belief_accepted b) (Hall b (list_elem_of_here _ _)))
          as [_ Hr].
        congruence.
      * split; [|exact IHo]. rewrite IHp. split.
        -- intros Hall b' [->|Hb']%elem_of_cons; [|by apply Hall].
           by apply belief_accepted.
        -- intros Hall b' Hb'. by apply Hall, list_elem_of_further.
Qed.

(** X24. [checkBeliefs] on an array that holds at least [count] values
    never reads outside it, and, when the checks are compiled in, returns
    without throwing exactly when each of the first [count] values is
    finite and within [-1, 1]; when they are compiled out it always
    returns. *)
Theorem checkBeliefs_accepts_unit_interval beliefs count :
  (count <= length beliefs)%nat →
  (checkBeliefs true beliefs count = Passed
   ↔ ∀ b, b ∈ take count beliefs → ∃ r, b = Finite r ∧ -1 <= r <= 1)
  ∧ (∃ e, checkBeliefs true beliefs count = Passed
          ∨ checkBeliefs true beliefs count = Thrown e)
  ∧ checkBeliefs false beliefs count = Passed.
Proof.
  intros Hlen. destruct (checkBeliefsFrom_passes count beliefs Hlen) as [Hp Ho].
  unfold checkBeliefs. split; [exact Hp|]. split; [|reflexivity].
  destruct (checkBeliefsFrom beliefs count) as [|e|]; [| |congruence].
  - exists runtime_error. by left.
  - exists e. by right.
Qed.

(** X25. The trade check misreads negative totals.  With a positive
    tolerance, totals that are equal and not negative always pass; but
    when both totals are negative the check throws whatever they are,
    even when they are equal; and the check does not depend on the order
    of its two totals. *)
Theorem trade_check_rejects_negative_totals tolerance :
  0 < tolerance →
  (∀ total, 0 <= total →
            checkTradeConservation true total total tolerance = Passed)
  ∧ (∀ total_exports total_imports,
       total_exports < 0 → total_imports < 0 →
       checkTradeConservation true total_exports total_imports tolerance
       = Thrown runtime_error)
  ∧ (∀ total_exports total_imports,
       checkTradeConservation true total_exports total_imports tolerance
       = checkTradeConservation true total_imports total_exports tolerance).
Proof.
  intros Htol. unfold checkTradeConservation, std_max. repeat split.
  - intros total Htotal. rewrite Rminus_diag, Rabs_R0.
    destruct (Rlt_dec total total); [lra|].
    destruct (Rlt_dec (tolerance * total) 0); [nra|reflexivity].
  - intros e i He Hi. pose proof (Rabs_pos (e - i)) as Habs.
    destruct (Rlt_dec e i);
      (destruct (Rlt_dec _ (Rabs (e - i))) as [_|Hn]; [reflexivity|nra]).
  - intros e i. rewrite (Rabs_minus_sym e i).
    destruct (Rlt_dec e i), (Rlt_dec i e); try lra; try reflexivity.
    assert (e = i) as -> by lra. reflexivity.
Qed.

(** X26. The checks are nested: a value that passes [checkPositive]
    passes [checkNonNegative], one that passes [checkNonNegative] passes
    [checkFinite], and one that passes [checkRange] for any bounds passes
    [checkFinite]; and a range whose lower bound lies above its upper
    bound accepts no value. *)
Theorem checks_are_nested enabled value :
  (checkPositive enabled value = Passed →
   checkNonNegative enabled value = Passed)
  ∧ (checkNonNegative enabled value = Passed →
     checkFinite enabled value = Passed)
  ∧ (∀ min max, checkRange enabled value min max = Passed →
                checkFinite enabled value = Passed)
  ∧ (∀ lo hi, hi < lo →
              checkRange true value (Finite lo) (Finite hi)
              = Thrown runtime_error).
Proof.
  unfold checkPositive, checkNonNegative, checkFinite, checkRange.
  destruct enabled; repeat split; try reflexivity.
  - destruct value as [r| | |]; simpl; try discriminate.
    destruct (Rle_dec r 0.0); [discriminate|].
    destruct (Rlt_dec r 0.0); [lra|reflexivity].
  - destruct value as [r| | |]; simpl; try discriminate. reflexivity.
  - intros min max. destruct value as [r| | |]; simpl; try discriminate.
    reflexivity.
  - intros lo hi Hlt. destruct value as [r| | |]; simpl; try reflexivity.
    unfold gt. simpl.
    destruct (Rlt_dec r lo); [reflexivity|].
    destruct (Rlt_dec hi r); [reflexivity|lra].
  - intros lo hi Hlt. destruct value as [r| | |]; simpl; try reflexivity.
    unfold gt. simpl.
    destruct (Rlt_dec r lo); [reflexivity|].
    destruct (Rlt_dec hi r); [reflexivity|lra].
Qed.

End ValidationFacts.

(** ** Facts about the GPU kernel *)

Module GpuFacts.

Import Kernel GpuWorker GraphFacts.

Local Open Scope R_scope.

Lemma cube_sign t : 0 <= t * t * t ↔ 0 <= t.
Proof.
  split; intros H.
  - destruct (Rle_dec 0 t) as [|Hn]; [assumption|].
    assert (0 < (- t) * (t * t)) by (apply Rmult_lt_0_compat; nra). nra.
  - assert (0 <= t * t) by nra. nra.
Qed.

Lemma quotient_le_one p q : 0 < q → (p / q <= 1 ↔ p <= q).
Proof.
  intros Hq. unfold Rdiv. pose proof (Rinv_0_lt_compat q Hq) as Hi.
  assert (q * / q = 1) as Hone by (apply Rinv_r; lra).
  split; intros H.
  - assert (p = p * / q * q) as -> by (rewrite Rmult_assoc, (Rmult_comm (/ q)), Hone; ring).
    nra.
  - nra.
Qed.

(** X27. The rational approximation of the kernel is odd, and it stays
    within [-1, 1] exactly for arguments within [-3, 3]: its value is at
    most 1 if and only if the argument is at most 3, and at least -1 if
    and only if the argument is at least -3. *)
Theorem fastTanh_unit_range x :
  (fastTanh x <= 1 ↔ x <= 3)
  ∧ (-1 <= fastTanh x ↔ -3 <= x)
  ∧ fastTanh (- x) = - fastTanh x.
Proof.
  assert (∀ y, fastTanh (- y) = - fastTanh y) as Hodd.
  { intros y. unfold fastTanh. cbv zeta. field. nra. }
  assert (∀ y, fastTanh y <= 1 ↔ y <= 3) as Hup.
  { intros y. unfold fastTanh. cbv zeta.
    rewrite quotient_le_one by nra.
    pose proof (cube_sign (3 - y)) as Hc.
    split; intros H.
    - assert (0 <= (3 - y) * (3 - y) * (3 - y)) by nra. lra.
    - assert (0 <= (3 - y) * (3 - y) * (3 - y)) by (apply Hc; lra). nra. }
  split; [apply Hup|]. split; [|apply Hodd].
  specialize (Hup (- x)). rewrite Hodd in Hup. split; intros H.
  - assert (- x <= 3) by (apply Hup; lra). lra.
  - assert (- fastTanh x <= 1) by (apply Hup; lra). lra.
Qed.

Lemma clamp_range v : -1 <= clamp v <= 1.
Proof.
  unfold clamp. destruct (Rlt_dec v (-1.0)); [lra|].
  destruct (Rlt_dec 1.0 v); lra.
Qed.


Local Open Scope Z_scope.

Lemma block_indices (f : Z → Z → Z) b T len : ∀ start,
  (∀ t, (t < T)%nat → f (Z.of_nat b) (Z.of_nat t) = Z.of_nat (b * T + t)) →
  (start + len <= T)%nat →
  (t ← Z.of_nat <$> seq start len; [f (Z.of_nat b) t])
  = Z.of_nat <$> seq (b * T + start) len.
Proof.
  induction len as [|len IH]; intros start Hf Hs; [reflexivity|].
  cbn [seq fmap list_fmap]. rewrite bind_cons. cbn [app].
  rewrite Hf by lia. f_equal.
  replace (S (b * T + start)) with (b * T + S start)%nat by lia.
  apply IH; [assumption|lia].
Qed.

Lemma grid_indices (f : Z → Z → Z) T B :
  (∀ b t, (b < B)%nat → (t < T)%nat →
          f (Z.of_nat b) (Z.of_nat t) = Z.of_nat (b * T + t)) →
  (b ← Z.of_nat <$> seq 0 B; t ← Z.of_nat <$> seq 0 T; [f b t])
  = Z.of_nat <$> seq 0 (B * T).
Proof.
  induction B as [|B IH]; intros Hf; [reflexivity|].
  rewrite seq_S, fmap_app, bind_app, IH by (intros; apply Hf; lia).
  cbn [fmap list_fmap]. rewrite bind_cons.
  change (@nil Z ≫= _) with (@nil Z). rewrite app_nil_r.
  rewrite (block_indices f (0 + B) T T 0) by (intros; try apply Hf; lia).
  rewrite (Nat.mul_succ_l B T), seq_app, fmap_app. do 3 f_equal. lia.
Qed.

Lemma filter_keeps_all z len : ∀ start,
  Z.of_nat (start + len) ≤ z →
  filter (λ i, i < z) (Z.of_nat <$> seq start len)
  = Z.of_nat <$> seq start len.
Proof.
  induction len as [|len IH]; intros start Hs; [reflexivity|].
  cbn [seq fmap list_fmap]. rewrite filter_cons, decide_True by lia.
  f_equal. apply IH. lia.
Qed.

Lemma filter_drops_all z len : ∀ start,
  z ≤ Z.of_nat start →
  filter (λ i, i < z) (Z.of_nat <$> seq start len) = [].
Proof.
  induction len as [|len IH]; intros start Hs; [reflexivity|].
  cbn [seq fmap list_fmap]. rewrite filter_cons, decide_False by lia.
  apply IH. lia.
Qed.

Lemma filter_below z m :
  0 ≤ z → (Z.to_nat z <= m)%nat →
  filter (λ i, i < z) (Z.of_nat <$> seq 0 m) = Z.of_nat <$> seq 0 (Z.to_nat z).
Proof.
  intros Hz Hnm. replace m with (Z.to_nat z + (m - Z.to_nat z))%nat by lia.
  rewrite seq_app, fmap_app, filter_app.
  rewrite filter_keeps_all, filter_drops_all by lia. apply app_nil_r.
Qed.

Lemma to_int_id z : - 2 ^ 31 ≤ z < 2 ^ 31 → to_int z = z.
Proof. intros Hz. unfold to_int. rewrite Z.mod_small; lia. Qed.

Lemma blocks_spec n :
  0 ≤ n < 2 ^ 31 - 255 → blocks n = (n + 255) / 256.
Proof.
  intros Hn. unfold blocks, threads, u64.
  replace (n + 256 - 1) with (n + 255) by lia.
  rewrite (Z.mod_small (n + 255)) by lia.
  apply to_int_id.
  pose proof (Z.div_pos (n + 255) 256 ltac:(lia) ltac:(lia)).
  pose proof (Z.div_le_upper_bound (n + 255) 256 (2 ^ 31 - 1) ltac:(lia)
                ltac:(lia)).
  lia.
Qed.

(** X16. The launch covers every agent once: for fewer than 2^31 - 255
    agents, the threads of the [⌈nAgents / 256⌉] blocks that pass the
    test [i >= view.count] have exactly the indices 0, 1, ...,
    [nAgents - 1], each once. *)
Theorem launch_covers_every_agent nAgents :
  0 ≤ nAgents < 2 ^ 31 - 255 →
  working nAgents = Z.of_nat <$> seq 0 (Z.to_nat nAgents)
  ∧ (nAgents ≤ blocks nAgents * threads < nAgents + threads).
Proof.
  intros Hn. pose proof (blocks_spec nAgents Hn) as Hb.
  assert (nAgents ≤ blocks nAgents * threads < nAgents + threads) as Hcover.
  { rewrite Hb. unfold threads.
    pose proof (Z.div_mod (nAgents + 255) 256 ltac:(lia)).
    pose proof (Z.mod_pos_bound (nAgents + 255) 256 ltac:(lia)). lia. }
  split; [|exact Hcover]. unfold working, grid.
  assert (∀ b t, (b < Z.to_nat (blocks nAgents))%nat →
                 (t < Z.to_nat threads)%nat →
                 threadIndex (Z.of_nat b) (Z.of_nat t)
                 = Z.of_nat (b * Z.to_nat threads + t)) as Hidx.
  { intros b t Hbb Ht. unfold threadIndex, u32, threads in *.
    rewrite Z.mod_small by lia. rewrite to_int_id by lia. lia. }
  rewrite (grid_indices threadIndex) by assumption.
  apply filter_below; [lia|]. unfold threads in *. lia.
Qed.

End GpuFacts.

(** ** The theorems at work on the small world *)

Module Witnesses.

Import Kernel Demo.

Local Open Scope R_scope.

(** The left-hand side of the goal, reduced until its head shows. *)
Ltac whnf_lhs :=
  with_strategy transparent [gmap_empty]
    (match goal with
     | |- ?l = _ => let l' := eval lazy head in l in change l with l'
     end).

(** Every draw of [uniformReal 0 1] is below the rewiring probability 1. *)
Ltac settle_rewire :=
  match goal with
  | |- context [Rlt_dec ?a (rewireProb ?c)] =>
      destruct (Rlt_dec a (rewireProb c)) as [_|Hn];
      [|exfalso; apply Hn; unfold cfgRing; simpl; lra]
  end.

(** Four draws are enough for every rewiring of the three-agent ring. *)
Lemma resetDemo_returns fuel :
  (4 <= fuel)%nat → ∃ s, resetDemo fuel cfgRing = Returns s.
Proof.
  intros Hfuel. do 4 (destruct fuel as [|fuel]; [lia|]). clear Hfuel.
  eexists. unfold resetDemo.
  do 3 (whnf_lhs; settle_rewire).
  whnf_lhs. reflexivity.
Qed.

(** C1 on the pair: what [right_agent] adds to the delta of [left_agent]. *)
Lemma pairwise_contribution_witness :
  vnth (accumulate TanhSpec.fastTanh cfgRing left_agent right_agent zero) 0
  = vnth zero 0
    + PairwiseSpec.contribution TanhSpec.fastTanh cfgRing
        left_agent right_agent 0
  ∧ agentDelta TanhSpec.fastTanh cfgRing pair left_agent
    = PairwiseSpec.delta TanhSpec.fastTanh cfgRing pair left_agent.
Proof.
  split.
  - apply (proj1 (BeliefFacts.pairwise_contribution
                    TanhSpec.fastTanh cfgRing)). lia.
  - apply (proj2 (BeliefFacts.pairwise_contribution
                    TanhSpec.fastTanh cfgRing)).
Defined.


(** What C2 rests on: were the activation function the rational
    approximation without the clamp, the update would leave the belief of
    [hermit] at 172/171. *)
Lemma unclamped_update_leaves_unit_interval :
  ∃ a',
    updateBeliefs TanhSpec.rationalTanh cfgRing [hermit] = Some [a']
    ∧ 1 < vnth (B a') 0.
Proof.
  eexists. split; [reflexivity|]. simpl.
  replace (4 + 0) with 4 by lra. apply BeliefFacts.rationalTanh_leaves_unit.
Qed.

(** C3 on the pair, both passes run from the last agent to the first. *)
Lemma updateBeliefs_two_phase_witness :
  updateBeliefs TanhSpec.fastTanh cfgRing pair
  = TwoPhaseSpec.twoPhase TanhSpec.fastTanh cfgRing pair
  ∧ updateBeliefsIn TanhSpec.fastTanh cfgRing [1; 0]%nat [1; 0]%nat pair
    = updateBeliefs TanhSpec.fastTanh cfgRing pair.
Proof.
  apply (BeliefFacts.updateBeliefs_two_phase TanhSpec.fastTanh cfgRing pair);
    apply perm_swap.
Defined.

(** C4 on the three-agent ring, built twice and stepped three times. *)
Lemma same_config_same_trajectory_witness :
  ∃ s1 s2 s',
    resetDemo 4 cfgRing = Returns s1
    ∧ resetDemo 9 cfgRing = Returns s2
    ∧ stepN TanhSpec.fastTanh Rng 3 s1 = Returns s'
    ∧ stepN TanhSpec.fastTanh Rng 3 s2 = Returns s'.
Proof.
  destruct (resetDemo_returns 4 ltac:(lia)) as [s1 H1].
  destruct (resetDemo_returns 9 ltac:(lia)) as [s2 H2].
  destruct (GraphFacts.same_config_same_trajectory
              TanhSpec.fastTanh Rng seedRng normal uniformReal uniformInt
              4 9 cfgRing cfgRing s1 s2 eq_refl H1 H2 3) as (s' & Hs1 & Hs2).
  exists s1, s2, s'. auto.
Defined.

(** C5 on the three-agent ring, after [reset] and after five ticks. *)
Lemma neighbor_graph_stays_simple_witness :
  ∃ s s',
    resetDemo 4 cfgRing = Returns s
    ∧ GraphSpec.simple_graph (agents_ s)
    ∧ stepN TanhSpec.fastTanh Rng 5 s = Returns s'
    ∧ GraphSpec.simple_graph (agents_ s').
Proof.
  destruct (resetDemo_returns 4 ltac:(lia)) as [s Hs].
  destruct (GraphFacts.neighbor_graph_stays_simple
              TanhSpec.fastTanh Rng seedRng normal uniformReal uniformInt
              4 cfgRing s Hs) as [Hgraph Hsteps].
  destruct (Hsteps 5%Z) as (s' & Hs' & Hgraph').
  exists s, s'. auto.
Defined.


(** A single agent whose one ring edge, a loop on itself, is rewired: the
    search for a new target never ends, whatever the bound. *)
Lemma reset_of_single_agent_never_returns fuel :
  resetDemo fuel (mkConfig 1 1 2 1 0.15 0.05 7) = Unfinished.
Proof.
  unfold resetDemo. whnf_lhs.
  match goal with
  | |- context [Rlt_dec ?a ?b] =>
      destruct (Rlt_dec a b) as [_|Hn]; [|exfalso; apply Hn; simpl; lra]
  end.
  with_strategy opaque [pickTarget] whnf_lhs.
  match goal with
  | |- context [pickTarget _ _ ?f ?N ?i ?c ?r] =>
      change (pickTarget Rng uniformInt f N i c r)
        with (pickTarget Rng uniformInt fuel 1 0 c r);
      rewrite (GraphFacts.pickTarget_single_agent Rng uniformInt fuel c r)
  end.
  - reflexivity.
  - intros rng'. unfold uniformInt. simpl. rewrite Z.mod_1_r. reflexivity.
Qed.

(** With an agent to place and no region to place it in, [initAgents]
    writes outside the empty region index. *)
Lemma reset_without_regions_is_undefined :
  resetDemo 0 (mkConfig 1 0 8 0.05 0.15 0.05 7) = Undefined.
Proof. unfold resetDemo. whnf_lhs. reflexivity. Qed.


(** C8, as amended, on [run 3 2] from the empty kernel. *)
Lemma run_writes_metrics_witness :
  ∃ ks,
    CsvSpec.trajectory TanhSpec.fastTanh Rng (Z.to_nat 3) emptyKernel
    = Returns ks
    ∧ runDemo 3 2 emptyKernel ∅
      = Returns (mkState cfgEmpty 3 (seedRng 7) [] [],
                 <[Cli.metricsPath :=
                     CsvSpec.kernelHeader +:+ Cli.newline
                     +:+ CsvSpec.rowsOf Rng logLine
                           (CsvSpec.logged Rng 2 0 ks)]> ∅).
Proof.
  apply (CliFacts.run_writes_metrics TanhSpec.fastTanh Rng logLine
           (λ _, true) 3 2 emptyKernel); [lia|reflexivity|reflexivity].
Defined.

(** With [logEvery == 0] the first tick already computes [t % 0]. *)
Lemma run_with_zero_interval_is_undefined :
  runDemo 1 0 emptyKernel ∅ = Undefined.
Proof. reflexivity. Qed.

(** C8 does not hold as stated: the header row that [run 1 1] writes has
    the five columns of the kernel's metrics, not the ten listed. *)
Lemma run_header_has_five_columns :
  ∃ text,
    runDemo 1 1 emptyKernel ∅
    = Returns (mkState cfgEmpty 1 (seedRng 7) [] [],
               <[Cli.metricsPath := text]> ∅)
    ∧ CsvSpec.firstLine text = CsvSpec.kernelHeader
    ∧ CsvSpec.firstLine text ≠ CsvSpec.specHeader.
Proof.
  eexists. split; [reflexivity|]. split; [reflexivity|]. discriminate.
Qed.

End Witnesses.

(** ** The checkpoint theorems at work *)

Module CheckpointWitnesses.

Import Serialization CheckpointDemo.

Local Open Scope Z_scope.

(** C6 fails on this input. The checkpoint of [saved] is written, the
    loader accepts it into [fresh], decodes the agents and the region
    index of [saved] from it and returns [true]; the kernel it was given
    is still [fresh], with no agent and no region. *)
Theorem load_after_save_restores_nothing :
  ∃ files,
    save saved ∅ = (true, files)
    ∧ (∃ bytes header input rest,
         files !! path = Some bytes
         ∧ readHeader (mkIn bytes true) = (header, input)
         ∧ readBody (λ _, true) blankAgent header input
           = Returns (agents_ saved, regionIndex_ saved, rest))
    ∧ load fresh files = Returns (true, fresh)
    ∧ agents_ fresh ≠ agents_ saved
    ∧ regionIndex_ fresh ≠ regionIndex_ saved.
Proof.
  eexists. split; [reflexivity|]. split.
  - eexists _, _, _, _. split; [vm_compute; reflexivity|].
    split; vm_compute; reflexivity.
  - split; [vm_compute; reflexivity|]. split; discriminate.
Qed.

(** The saved kernel holds values of their types, so the loader decodes
    all of it, and drops it. *)
Lemma saved_well_formed : CheckpointSpec.wf_kernel saved.
Proof.
  unfold CheckpointSpec.wf_kernel, CheckpointSpec.wf_agent,
    CheckpointSpec.wf_vector, CheckpointSpec.fits.
  repeat first [split | apply Forall_cons | apply Forall_nil];
    vm_compute; first [reflexivity | discriminate].
Qed.

Lemma load_decodes_and_drops_saved :
  ∃ bytes header input rest,
    save saved ∅ = (true, <[path := bytes]> ∅)
    ∧ readHeader (mkIn bytes true) = (header, input)
    ∧ readBody (λ _, true) blankAgent header input
      = Returns ((agents_ saved, regionIndex_ saved), mkIn rest true)
    ∧ loadCheckpoint (λ _, true) blankAgent fresh path (<[path := bytes]> ∅)
      = Returns (true, fresh).
Proof.
  apply (SerializationFacts.load_decodes_and_drops
           (λ _, true) 1700000000 (λ _, true) blankAgent (λ _, eq_refl)
           saved fresh path ∅ saved_well_formed eq_refl).
Defined.


(** C10 on the checkpoint of [saved], loaded into [fresh]. *)
Lemma load_leaves_kernel_unchanged_witness :
  ∃ b kernel',
    load fresh (save saved ∅).2 = Returns (b, kernel') ∧ kernel' = fresh.
Proof.
  assert (load fresh (save saved ∅).2 = Returns (true, fresh)) as Hload
    by (vm_compute; reflexivity).
  exists true, fresh. split; [exact Hload|].
  exact (SerializationFacts.load_leaves_kernel_unchanged
           (λ _, true) blankAgent fresh path (save saved ∅).2 true fresh Hload).
Defined.

End CheckpointWitnesses.

(** ** The remaining code on concrete inputs *)

Module Examples.

Import Kernel Demo Samples Witnesses.

Local Open Scope R_scope.

(** The draws of [uniformReal 0 1] are never below the probability 0. *)
Ltac settle_still :=
  match goal with
  | |- context [Rlt_dec ?a (rewireProb ?c)] =>
      destruct (Rlt_dec a (rewireProb c)) as [Hlt|_];
      [exfalso; unfold cfgStill in Hlt; simpl in Hlt; lra|]
  end.

Lemma resetStill_returns : ∃ s, resetDemo 0 cfgStill = Returns s.
Proof.
  eexists. unfold resetDemo.
  do 3 (whnf_lhs; settle_still).
  whnf_lhs. reflexivity.
Qed.

(** X1 on the three-agent ring, after [reset] and two ticks. *)
Lemma reset_fills_table_and_index_witness :
  ∃ s s',
    resetDemo 4 cfgRing = Returns s
    ∧ stepN TanhSpec.fastTanh Rng 2 s = Returns s'
    ∧ length (agents_ s') = 3%nat
    ∧ length (regionIndex_ s') = 2%nat.
Proof.
  destruct (resetDemo_returns 4 ltac:(lia)) as [s Hs].
  destruct (KernelFacts.reset_fills_table_and_index
              TanhSpec.fastTanh Rng seedRng normal uniformReal uniformInt
              4 cfgRing s Hs 2%Z) as (s' & Hs' & Hlen & Hri & _).
  exists s, s'. auto.
Defined.

(** X2 on the three-agent ring, after [reset] and two ticks. *)
Lemma traits_stay_in_range_witness :
  ∃ s s',
    resetDemo 4 cfgRing = Returns s
    ∧ stepN TanhSpec.fastTanh Rng 2 s = Returns s'
    ∧ ∀ a, a ∈ agents_ s' →
           0.3 <= fluency a <= 1
           ∧ 0 <= openness a <= 1 ∧ 0 <= conformity a <= 1
           ∧ 0 <= assertiveness a <= 1 ∧ 0 <= sociality a <= 1
           ∧ m_comm a = 1
           ∧ m_susceptibility a = 0.4 + 0.6 * openness a
           ∧ m_mobility a = 0.8 + 0.4 * sociality a.
Proof.
  destruct (resetDemo_returns 4 ltac:(lia)) as [s Hs].
  destruct (KernelFacts.traits_stay_in_range
              TanhSpec.fastTanh Rng seedRng normal uniformReal uniformInt
              4 cfgRing s Hs 2%Z) as (s' & Hs' & Hall).
  exists s, s'. auto.
Defined.

(** X3 on the pair, stepped once. *)
Lemma ticks_change_beliefs_only_witness :
  ∃ s',
    stepN TanhSpec.fastTanh Rng 1 pairKernel = Returns s'
    ∧ cfg_ s' = cfgRing ∧ rng_ s' = seedRng 7
    ∧ regionIndex_ s' = [[0; 1]%nat]
    ∧ u64 (generation_ s') = u64 (0 + Z.max 0 1).
Proof.
  eexists. split; [reflexivity|].
  destruct (KernelFacts.ticks_change_beliefs_only
              TanhSpec.fastTanh Rng 1 pairKernel _ eq_refl)
    as (Hc & Hr & Hi & Hg & _).
  auto.
Defined.

(** X4 on the three-agent ring, after [reset] and two ticks. *)
Lemma beliefs_follow_internal_state_witness :
  ∃ s s',
    resetDemo 4 cfgRing = Returns s
    ∧ stepN TanhSpec.fastTanh Rng 2 s = Returns s'
    ∧ ∀ a k, a ∈ agents_ s' → (k < 4)%nat →
             vnth (B a) k = TanhSpec.fastTanh (vnth (x a) k).
Proof.
  destruct (resetDemo_returns 4 ltac:(lia)) as [s Hs].
  destruct (KernelFacts.beliefs_follow_internal_state
              TanhSpec.fastTanh Rng seedRng normal uniformReal uniformInt
              4 cfgRing s Hs 2%Z) as (s' & Hs' & Hall).
  exists s, s'. auto.
Defined.

Lemma fastTanh_0 : TanhSpec.fastTanh 0 = 0.
Proof.
  unfold TanhSpec.fastTanh, TanhSpec.rationalTanh, std_clamp.
  replace (0 * (27 + 0 * 0) / (27 + 9 * (0 * 0))) with 0 by (field; lra).
  destruct (Rlt_dec 0 (-1)); [lra|]. destruct (Rlt_dec 1 0); [lra|reflexivity].
Qed.

(** X5 on two agents without beliefs. *)
Lemma consensus_is_a_fixed_point_witness :
  updateBeliefs TanhSpec.fastTanh cfgRing calm = Some calm.
Proof.
  apply (KernelFacts.consensus_is_a_fixed_point TanhSpec.fastTanh cfgRing
           fastTanh_0 calm).
  - intros a j Ha Hj. unfold calm in Ha.
    apply elem_of_cons in Ha as [->|Ha];
      [|apply list_elem_of_singleton in Ha as ->];
      apply list_elem_of_singleton in Hj as ->; eexists;
      (split; [reflexivity|reflexivity]).
  - intros a k Ha Hk. unfold calm in Ha.
    apply elem_of_cons in Ha as [->|Ha];
      [|apply list_elem_of_singleton in Ha as ->];
      destruct k as [|[|[|[|k]]]]; try lia; simpl; by rewrite fastTanh_0.
Defined.

(** X7 on the three-agent ring with no edge rewired. *)
Lemma ring_without_rewiring_witness :
  ∃ s,
    resetDemo 0 cfgStill = Returns s
    ∧ ∀ a b ai,
        agents_ s !! a = Some ai →
        (b ∈ neighbors ai
         ↔ b ≠ a
           ∧ ∃ d,
               (1 <= d <= 1)%nat
               ∧ (b = ringTarget 3 a d
                  ∨ (a = ringTarget 3 b d ∧ (b < 3)%nat))).
Proof.
  destruct resetStill_returns as [s Hs]. exists s.
  assert (Hnever : rewireProb cfgStill <= 0) by (unfold cfgStill; simpl; lra).
  assert (Hunit : ∀ rng, 0 <= (uniformReal 0.0 1.0 rng).1).
  { intros rng. unfold uniformReal. simpl. lra. }
  destruct (RingFacts.ring_without_rewiring
              TanhSpec.fastTanh Rng seedRng normal uniformReal uniformInt
              cfgStill Hnever Hunit 0 s Hs) as [_ Hring].
  split; [exact Hs|]. exact Hring.
Defined.

(** X8 on the three-agent ring, after [reset] and two ticks. *)
Lemma metrics_stay_in_range_witness :
  ∃ s s' m,
    resetDemo 4 cfgRing = Returns s
    ∧ stepN TanhSpec.fastTanh Rng 2 s = Returns s'
    ∧ computeMetrics Rng zeroMetrics s' = Returns m
    ∧ 0 <= avgOpenness m <= 1 ∧ 0 <= avgConformity m <= 1.
Proof.
  destruct (resetDemo_returns 4 ltac:(lia)) as [s Hs].
  destruct (MetricsFacts.metrics_stay_in_range
              TanhSpec.fastTanh Rng seedRng normal uniformReal uniformInt
              zeroMetrics BeliefFacts.fastTanh_in_unit 4 cfgRing s
              ltac:(unfold cfgRing; simpl; lia) Hs 2%Z)
    as (s' & m & Hs' & Hm & Ho & Hc & _).
  exists s, s', m. auto.
Defined.

Lemma ring_ticks n :
  ∃ s k', resetDemo 4 cfgRing = Returns s
          ∧ stepN TanhSpec.fastTanh Rng (Z.of_nat n) s = Returns k'.
Proof.
  destruct (resetDemo_returns 4 ltac:(lia)) as [s Hs].
  pose proof Hs as Hok. apply KernelFacts.reset_kernel_ok in Hok as [Hok _].
  edestruct KernelFacts.stepLoop_kernel_ok with (n := n) as (k' & Hk & _);
    [exact Hok|].
  exists s, k'. split; [exact Hs|]. unfold stepN. rewrite Nat2Z.id. exact Hk.
Qed.

(** X10 on [run 3 2] from the three-agent ring. *)
Lemma run_logs_every_nth_tick_witness :
  ∃ s k' rows,
    resetDemo 4 cfgRing = Returns s
    ∧ runDemo 3 2 s ∅
      = Returns (k', <[Cli.metricsPath :=
                         Cli.csvHeader +:+ CsvSpec.rowsOf Rng logLine rows]> ∅)
    ∧ Z.of_nat (length rows) = ((Z.max 0 3 + Z.abs 2 - 1) / Z.abs 2)%Z
    ∧ ∀ i ki, rows !! i = Some ki →
              stepN TanhSpec.fastTanh Rng (Z.of_nat i * Z.abs 2 + 1) s
              = Returns ki.
Proof.
  destruct (ring_ticks 3) as (s & k' & Hs & Hk).
  destruct (ShellFacts.run_logs_every_nth_tick
              TanhSpec.fastTanh Rng logLine (λ _, true) 3 2 s k' ∅
              ltac:(lia) eq_refl Hk) as (rows & Hrun & Hlen & Hrows).
  exists s, k', rows. auto.
Defined.

(** X11 on [run 3 2] from the three-agent ring, where the file cannot be
    opened. *)
Lemma run_without_file_witness :
  ∃ s k',
    resetDemo 4 cfgRing = Returns s
    ∧ stepN TanhSpec.fastTanh Rng 3 s = Returns k'
    ∧ Cli.run TanhSpec.fastTanh Rng logLine (λ _, false) 3 2 s ∅
      = Returns (k', ∅).
Proof.
  destruct (ring_ticks 3) as (s & k' & Hs & Hk).
  exists s, k'. split; [exact Hs|]. split; [exact Hk|].
  exact (ShellFacts.run_without_file
           TanhSpec.fastTanh Rng logLine (λ _, false) 3 2 s k' ∅
           ltac:(lia) eq_refl Hk).
Defined.
End Examples.

Module CodecExamples.

Import Serialization CheckpointDemo Samples.

Local Open Scope Z_scope.

Lemma settler_well_formed : CheckpointSpec.wf_agent settler.
Proof.
  unfold CheckpointSpec.wf_agent, CheckpointSpec.wf_vector, CheckpointSpec.fits.
  repeat first [split | apply Forall_cons | apply Forall_nil];
    vm_compute; first [reflexivity | discriminate].
Qed.

(** X13 on three 32-bit numbers, read into a vector that held one. *)
Lemma vector_read_back_witness :
  readBinaryVector (λ _, true) sz_u32 [9]
    (mkIn (writeBinaryVector sz_u32 [1; 2; 3] ++ [Byte.x2a]) true)
  = Returns ([1; 2; 3], mkIn [Byte.x2a] true).
Proof.
  apply (CodecFacts.vector_read_back (λ _, true) sz_u32 [9] [1; 2; 3]
           [Byte.x2a]); [|reflexivity].
  unfold CheckpointSpec.wf_vector, CheckpointSpec.fits.
  split; [vm_compute; reflexivity|].
  repeat first [apply Forall_cons | apply Forall_nil | split];
    vm_compute; first [reflexivity | discriminate].
Defined.

(** X14 on a string of three characters. *)
Lemma string_read_back_witness :
  readBinaryString (λ _, true) [Byte.x7a]
    (mkIn (writeBinaryString [Byte.x6d; Byte.x69; Byte.x78] ++ [Byte.x2a]) true)
  = Returns ([Byte.x6d; Byte.x69; Byte.x78], mkIn [Byte.x2a] true).
Proof.
  apply (CodecFacts.string_read_back (λ _, true) [Byte.x7a]
           [Byte.x6d; Byte.x69; Byte.x78] [Byte.x2a]);
    [vm_compute; reflexivity|reflexivity].
Defined.

(** X15 on [settler], read into [farmer]. *)
Lemma agent_read_back_witness :
  readAgent (λ _, true) farmer (mkIn (writeAgent settler ++ [Byte.x2a]) true)
  = Returns (settler, mkIn [Byte.x2a] true).
Proof.
  apply (CodecFacts.agent_read_back (λ _, true) farmer settler [Byte.x2a]
           settler_well_formed eq_refl).
Defined.

(** X17 on a file of the first six bytes of a default header. *)
Lemma load_accepts_header_prefix_witness :
  loadCheckpoint (λ _, true) blankAgent fresh path
    {[path := take 6 (headerBytes defaultHeader)]}
  = Returns (true, fresh).
Proof.
  apply (CodecFacts.load_accepts_header_prefix (λ _, true) blankAgent 6 fresh
           path {[path := take 6 (headerBytes defaultHeader)]} eq_refl).
  apply lookup_singleton_eq.
Defined.

(** X18 on a header that announces one agent, followed by three bytes. *)
Lemma load_of_truncated_checkpoint_witness :
  loadCheckpoint (λ _, true) blankAgent fresh path
    {[path := headerBytes oneAgentHeader ++ [Byte.x01; Byte.x02; Byte.x03]]}
  = Undefined.
Proof.
  apply (CodecFacts.load_of_truncated_checkpoint (λ _, true) blankAgent fresh
           path
           {[path := headerBytes oneAgentHeader ++ [Byte.x01; Byte.x02; Byte.x03]]}
           oneAgentHeader [Byte.x01; Byte.x02; Byte.x03]).
  - apply lookup_singleton_eq.
  - reflexivity.
  - reflexivity.
  - vm_compute. split; reflexivity.
  - reflexivity.
  - simpl. lia.
Defined.

(** X19 on [settler], who has one neighbour. *)
Lemma agent_record_size_witness : length (writeAgent settler) = 172%nat.
Proof.
  apply (CodecFacts.agent_record_size settler). vm_compute. reflexivity.
Defined.

End CodecExamples.

Module LogExamples.

Import EventLog EventLogSpec Samples.

(** X20 on two events logged after [init]. *)
Lemma log_file_matches_export_witness :
  ∃ log1 files1,
    init (λ _, true) fresh "events.csv" ∅ = Normal (log1, files1)
    ∧ flush (logAll fixedDemo log1 births) files1 !! "events.csv"
      = Some (foldl (λ text e, text +:+ row fixedDemo e) csvHeader births)
    ∧ ∀ out files',
        (λ _ : string, true) out = true →
        exportCSV (λ _, true) fixedDemo (logAll fixedDemo log1 births) out
          files'
        = Normal (<[out := foldl (λ text e, text +:+ row fixedDemo e)
                             csvHeader births]> files').
Proof.
  eexists _, _. split; [reflexivity|].
  apply (EventLogFacts.log_file_matches_export (λ _, true) fixedDemo fresh
           "events.csv" ∅ _ _ births eq_refl eq_refl).
Defined.

(** X22 on the ticks 0..9 split after tick 3. *)
Lemma tick_ranges_compose_witness :
  getEventsByTickRange (mkLog births None false) 0 9
  ≡ₚ getEventsByTickRange (mkLog births None false) 0 3
     ++ getEventsByTickRange (mkLog births None false) (3 + 1) 9
  ∧ ∀ lo hi, (hi < lo)%N →
             getEventsByTickRange (mkLog births None false) lo hi = [].
Proof.
  apply (EventLogFacts.tick_ranges_compose (mkLog births None false) 0 3 9);
    lia.
Defined.

(** X23 on a log whose file cannot be opened. *)
Lemma failed_init_stops_the_file_witness :
  ∃ log',
    init (λ _, false) fresh "events.csv" ∅
    = Raised runtime_error (log', settle (log_file_ fresh) ∅)
    ∧ events_ log' = events_ fresh
    ∧ size (logAll fixedDemo log' births) = (size fresh + length births)%nat
    ∧ log_file_ (logAll fixedDemo log' births) = None
    ∧ ∀ files', flush (logAll fixedDemo log' births) files' = files'.
Proof.
  apply (EventLogFacts.failed_init_stops_the_file (λ _, false) fixedDemo fresh
           "events.csv" ∅ births eq_refl).
Defined.

End LogExamples.

Module CheckExamples.

Import Validation GpuWorker Samples.

Local Open Scope R_scope.

(** X24 on the first two of three values. *)
Lemma checkBeliefs_accepts_unit_interval_witness :
  (checkBeliefs true [Finite 0.5; Finite (-1); NaN] 2 = Passed
   ↔ ∀ b, b ∈ take 2 [Finite 0.5; Finite (-1); NaN] →
          ∃ r, b = Finite r ∧ -1 <= r <= 1)
  ∧ (∃ e, checkBeliefs true [Finite 0.5; Finite (-1); NaN] 2 = Passed
          ∨ checkBeliefs true [Finite 0.5; Finite (-1); NaN] 2 = Thrown e)
  ∧ checkBeliefs false [Finite 0.5; Finite (-1); NaN] 2 = Passed.
Proof.
  apply (ValidationFacts.checkBeliefs_accepts_unit_interval
           [Finite 0.5; Finite (-1); NaN] 2).
  simpl. lia.
Defined.

(** X25 with the default tolerance. *)
Lemma trade_check_rejects_negative_totals_witness :
  (∀ total, 0 <= total →
            checkTradeConservation true total total 0.01 = Passed)
  ∧ (∀ total_exports total_imports,
       total_exports < 0 → total_imports < 0 →
       checkTradeConservation true total_exports total_imports 0.01
       = Thrown runtime_error)
  ∧ (∀ total_exports total_imports,
       checkTradeConservation true total_exports total_imports 0.01
       = checkTradeConservation true total_imports total_exports 0.01).
Proof.
  apply (ValidationFacts.trade_check_rejects_negative_totals 0.01). lra.
Defined.


(** X16 on 300 agents: two blocks, 512 threads, 300 of them at work. *)
Lemma launch_covers_every_agent_witness :
  working 300 = Z.of_nat <$> seq 0 (Z.to_nat 300)
  ∧ (300 ≤ blocks 300 * threads < 300 + threads)%Z.
Proof. apply (GpuFacts.launch_covers_every_agent 300). lia. Defined.

End CheckExamples.
